(** * Verification of the problem-viewer web application

    A shallow embedding of the selection state ([UIState]), the catalog
    queries ([DataManager]), the caches and the pager ([PDFViewer],
    [ContentController]) and the retry wrapper ([App.retryWithBackoff]),
    with the properties stated about them.

    Conventions of the embedding:
    - a JavaScript object with mutable fields is a record, and a method is a
      function from the record to the updated record (explicit state
      passing);
    - [Date.now()] and the results of awaited browser calls (fetch, PDF.js,
      image decoding) are arguments of the method that consumes them;
    - a JavaScript [Map] is an association list in insertion order, because
      the caches rely on that order;
    - strings are byte strings holding UTF-8;
    - numbers that the code only compares, adds or multiplies are [Z]
      (page numbers, epoch milliseconds, counters) or [Q] (the zoom scale). *)

From Stdlib Require Import List String Ascii Bool Arith ZArith QArith Lia.
From Stdlib Require Import Permutation Sorted DecimalString Decimal Lqa.
Import ListNotations.

Open Scope string_scope.

(** ** JavaScript values seen by the state listeners *)

Inductive JSValue : Type :=
| VNull
| VBool (b : bool)
| VString (s : string)
| VObject (ref : nat).

(** [a !== b] on the values above: strings and booleans by value, objects by
    reference. *)
Definition strict_neq (a b : JSValue) : bool :=
  match a, b with
  | VNull, VNull => false
  | VBool x, VBool y => negb (Bool.eqb x y)
  | VString x, VString y => negb (String.eqb x y)
  | VObject x, VObject y => negb (Nat.eqb x y)
  | _, _ => true
  end.

Definition of_string (o : option string) : JSValue :=
  match o with Some s => VString s | None => VNull end.

Definition of_object (o : option nat) : JSValue :=
  match o with Some r => VObject r | None => VNull end.

(** ** String lengths and padding *)

Module JSString.

(** The UTF-16 code units that one byte of a UTF-8 string stands for: one
    for an ASCII byte and for the lead byte of a two- or three-byte
    sequence, two (a surrogate pair) for the lead byte of a four-byte
    sequence, none for a continuation byte. *)
Definition units (c : ascii) : nat :=
  let n := nat_of_ascii c in
  if (n <? 128)%nat then 1%nat
  else if (n <? 192)%nat then 0%nat
  else if (n <? 240)%nat then 1%nat
  else 2%nat.

(** [s.length]. *)
Fixpoint utf16_length (s : string) : nat :=
  match s with
  | EmptyString => 0%nat
  | String c r => (units c + utf16_length r)%nat
  end.

Fixpoint filler (fill : ascii) (n : nat) : string :=
  match n with
  | O => EmptyString
  | S n' => String fill (filler fill n')
  end.

(** [s.padStart(targetLength, fill)] for a [fill] of one ASCII
    character. *)
Definition padStart (targetLength : nat) (fill : ascii) (s : string) : string :=
  if (targetLength <=? utf16_length s)%nat then s
  else filler fill (targetLength - utf16_length s) ++ s.

End JSString.

(** ** ProblemData (dataManager.js) *)

Module ProblemData.

Record t : Type := mk {
  year : string;
  month : string;
  questionNumber : string
}.

(** [equals(other)]: [None] stands for an argument that is not an instance
    of ProblemData. *)
Definition equals (this : t) (other : option t) : bool :=
  match other with
  | None => false
  | Some o =>
      String.eqb (year this) (year o)
      && String.eqb (month this) (month o)
      && String.eqb (questionNumber this) (questionNumber o)
  end.

(** [getImagePath()]: [`mun/${year}${paddedMonth}${paddedQuestion}.png`]. *)
Definition getImagePath (this : t) : string :=
  let paddedMonth := JSString.padStart 2 "0" (month this) in
  let paddedQuestion := JSString.padStart 2 "0" (questionNumber this) in
  "mun/" ++ year this ++ paddedMonth ++ paddedQuestion ++ ".png".

(** [getPDFPath()]: [`sol/${year}${paddedMonth}${paddedQuestion}.pdf`]. *)
Definition getPDFPath (this : t) : string :=
  let paddedMonth := JSString.padStart 2 "0" (month this) in
  let paddedQuestion := JSString.padStart 2 "0" (questionNumber this) in
  "sol/" ++ year this ++ paddedMonth ++ paddedQuestion ++ ".pdf".

Definition toString (this : t) : string :=
  year this ++ "년 " ++ month this ++ "월 " ++ questionNumber this ++ "번".

End ProblemData.

(** ** UIState (the selection state and its cascade) *)

Module UIState.

(** One call of a listener: [(property, oldValue, newValue)]. *)
Definition Notification : Type := (string * JSValue * JSValue)%type.

(** [currentProblem] holds a reference to a ProblemData object; [notified]
    is the sequence of [notifyStateChange] calls made so far, as every
    registered listener receives them. Listeners are observers here: what a
    listener does when called belongs to its own component, not to this
    class. *)
Record t : Type := mk {
  selectedYear : option string;
  selectedMonth : option string;
  selectedQuestion : option string;
  isLoading : bool;
  isSolutionVisible : bool;
  currentProblem : option nat;
  errorMessage : option string;
  isPdfLoading : bool;
  pdfError : option string;
  notified : list Notification
}.

Definition init : t :=
  mk None None None false false None None false None [].

Definition with_selectedYear v s :=
  mk v (selectedMonth s) (selectedQuestion s) (isLoading s)
     (isSolutionVisible s) (currentProblem s) (errorMessage s)
     (isPdfLoading s) (pdfError s) (notified s).
Definition with_selectedMonth v s :=
  mk (selectedYear s) v (selectedQuestion s) (isLoading s)
     (isSolutionVisible s) (currentProblem s) (errorMessage s)
     (isPdfLoading s) (pdfError s) (notified s).
Definition with_selectedQuestion v s :=
  mk (selectedYear s) (selectedMonth s) v (isLoading s)
     (isSolutionVisible s) (currentProblem s) (errorMessage s)
     (isPdfLoading s) (pdfError s) (notified s).
Definition with_isLoading v s :=
  mk (selectedYear s) (selectedMonth s) (selectedQuestion s) v
     (isSolutionVisible s) (currentProblem s) (errorMessage s)
     (isPdfLoading s) (pdfError s) (notified s).
Definition with_isSolutionVisible v s :=
  mk (selectedYear s) (selectedMonth s) (selectedQuestion s) (isLoading s)
     v (currentProblem s) (errorMessage s)
     (isPdfLoading s) (pdfError s) (notified s).
Definition with_currentProblem v s :=
  mk (selectedYear s) (selectedMonth s) (selectedQuestion s) (isLoading s)
     (isSolutionVisible s) v (errorMessage s)
     (isPdfLoading s) (pdfError s) (notified s).
Definition with_errorMessage v s :=
  mk (selectedYear s) (selectedMonth s) (selectedQuestion s) (isLoading s)
     (isSolutionVisible s) (currentProblem s) v
     (isPdfLoading s) (pdfError s) (notified s).
Definition with_isPdfLoading v s :=
  mk (selectedYear s) (selectedMonth s) (selectedQuestion s) (isLoading s)
     (isSolutionVisible s) (currentProblem s) (errorMessage s)
     v (pdfError s) (notified s).
Definition with_pdfError v s :=
  mk (selectedYear s) (selectedMonth s) (selectedQuestion s) (isLoading s)
     (isSolutionVisible s) (currentProblem s) (errorMessage s)
     (isPdfLoading s) v (notified s).

Definition notifyStateChange (property : string) (oldValue newValue : JSValue)
    (s : t) : t :=
  mk (selectedYear s) (selectedMonth s) (selectedQuestion s) (isLoading s)
     (isSolutionVisible s) (currentProblem s) (errorMessage s)
     (isPdfLoading s) (pdfError s)
     (notified s ++ [(property, oldValue, newValue)]).

Definition setPdfError (error : option string) (s : t) : t :=
  let oldValue := pdfError s in
  let s := with_pdfError error s in
  if strict_neq (of_string oldValue) (of_string error)
  then notifyStateChange "pdfError" (of_string oldValue) (of_string error) s
  else s.

Definition setErrorMessage (message : option string) (s : t) : t :=
  let oldValue := errorMessage s in
  let s := with_errorMessage message s in
  if strict_neq (of_string oldValue) (of_string message)
  then notifyStateChange "errorMessage" (of_string oldValue) (of_string message) s
  else s.

Definition setSolutionVisible (visible : bool) (s : t) : t :=
  let oldValue := isSolutionVisible s in
  let s := with_isSolutionVisible visible s in
  if strict_neq (VBool oldValue) (VBool visible)
  then
    let s := if negb visible then setPdfError None s else s in
    notifyStateChange "isSolutionVisible" (VBool oldValue) (VBool visible) s
  else s.

Definition setCurrentProblem (problem : option nat) (s : t) : t :=
  let oldValue := currentProblem s in
  let s := with_currentProblem problem s in
  if strict_neq (of_object oldValue) (of_object problem)
  then notifyStateChange "currentProblem" (of_object oldValue) (of_object problem) s
  else s.

Definition setLoading (loading : bool) (s : t) : t :=
  let oldValue := isLoading s in
  let s := with_isLoading loading s in
  if strict_neq (VBool oldValue) (VBool loading)
  then
    let s := if loading then setErrorMessage None s else s in
    notifyStateChange "isLoading" (VBool oldValue) (VBool loading) s
  else s.

Definition setPdfLoading (loading : bool) (s : t) : t :=
  let oldValue := isPdfLoading s in
  let s := with_isPdfLoading loading s in
  if strict_neq (VBool oldValue) (VBool loading)
  then
    let s := if loading then setPdfError None s else s in
    notifyStateChange "isPdfLoading" (VBool oldValue) (VBool loading) s
  else s.

Definition setSelectedQuestion (question : option string) (s : t) : t :=
  let oldValue := selectedQuestion s in
  let s := with_selectedQuestion question s in
  if strict_neq (of_string oldValue) (of_string question)
  then
    let s := setCurrentProblem None s in
    let s := setSolutionVisible false s in
    notifyStateChange "selectedQuestion" (of_string oldValue) (of_string question) s
  else s.

Definition setSelectedMonth (month : option string) (s : t) : t :=
  let oldValue := selectedMonth s in
  let s := with_selectedMonth month s in
  if strict_neq (of_string oldValue) (of_string month)
  then
    let s := setSelectedQuestion None s in
    notifyStateChange "selectedMonth" (of_string oldValue) (of_string month) s
  else s.

Definition setSelectedYear (year : option string) (s : t) : t :=
  let oldValue := selectedYear s in
  let s := with_selectedYear year s in
  if strict_neq (of_string oldValue) (of_string year)
  then
    let s := setSelectedMonth None s in
    let s := setSelectedQuestion None s in
    notifyStateChange "selectedYear" (of_string oldValue) (of_string year) s
  else s.

Definition reset (s : t) : t :=
  let s := setSelectedYear None s in
  let s := setSelectedMonth None s in
  let s := setSelectedQuestion None s in
  let s := setCurrentProblem None s in
  let s := setSolutionVisible false s in
  let s := setLoading false s in
  let s := setErrorMessage None s in
  let s := setPdfLoading false s in
  setPdfError None s.

(** The public mutators, as calls. *)
Inductive call : Type :=
| SetSelectedYear (year : option string)
| SetSelectedMonth (month : option string)
| SetSelectedQuestion (question : option string)
| SetLoading (loading : bool)
| SetCurrentProblem (problem : option nat)
| SetSolutionVisible (visible : bool)
| SetErrorMessage (message : option string)
| SetPdfLoading (loading : bool)
| SetPdfError (error : option string)
| Reset.

Definition run (c : call) (s : t) : t :=
  match c with
  | SetSelectedYear y => setSelectedYear y s
  | SetSelectedMonth m => setSelectedMonth m s
  | SetSelectedQuestion q => setSelectedQuestion q s
  | SetLoading b => setLoading b s
  | SetCurrentProblem p => setCurrentProblem p s
  | SetSolutionVisible b => setSolutionVisible b s
  | SetErrorMessage m => setErrorMessage m s
  | SetPdfLoading b => setPdfLoading b s
  | SetPdfError e => setPdfError e s
  | Reset => reset s
  end.

(** States reachable from a fresh [UIState] through its public mutators. *)
Inductive reachable : t -> Prop :=
| reachable_init : reachable init
| reachable_run c s : reachable s -> reachable (run c s).

(** The value of a property, by its name (as passed to the listeners). *)
Definition property (name : string) (s : t) : JSValue :=
  if String.eqb name "selectedYear" then of_string (selectedYear s)
  else if String.eqb name "selectedMonth" then of_string (selectedMonth s)
  else if String.eqb name "selectedQuestion" then of_string (selectedQuestion s)
  else if String.eqb name "isLoading" then VBool (isLoading s)
  else if String.eqb name "isSolutionVisible" then VBool (isSolutionVisible s)
  else if String.eqb name "currentProblem" then of_object (currentProblem s)
  else if String.eqb name "errorMessage" then of_string (errorMessage s)
  else if String.eqb name "isPdfLoading" then VBool (isPdfLoading s)
  else if String.eqb name "pdfError" then of_string (pdfError s)
  else VNull.

(** How many of the notifications [ns] are about property [name]. *)
Definition fired (name : string) (ns : list Notification) : nat :=
  List.length (filter (fun n => String.eqb name (fst (fst n))) ns).

(** The notifications issued between state [s] and the later state [s']. *)
Definition since (s s' : t) : list Notification :=
  skipn (List.length (notified s)) (notified s').

(** The property names the setters notify about. *)
Definition names : list string :=
  ["selectedYear"; "selectedMonth"; "selectedQuestion"; "isLoading";
   "isSolutionVisible"; "currentProblem"; "errorMessage"; "isPdfLoading";
   "pdfError"].

Definition is_name (p : string) : bool := existsb (String.eqb p) names.

(** A notification reports a change of a known property. *)
Definition is_change (n : Notification) : Prop :=
  strict_neq (snd (fst n)) (snd n) = true /\ is_name (fst (fst n)) = true.

(** [s'] has the notifications of [s] followed by changes only. *)
Definition grows (s s' : t) : Prop :=
  exists ns, notified s' = (notified s ++ ns)%list /\ Forall is_change ns.

(** A property holding a string or [null], used as a condition. *)
Definition truthy (o : option string) : bool :=
  match o with
  | Some v => negb (String.eqb v "")
  | None => false
  end.

Definition hasCompleteSelection (s : t) : bool :=
  truthy (selectedYear s) && truthy (selectedMonth s)
  && truthy (selectedQuestion s).

End UIState.

(** ** HeaderController: what it does to the selection state *)

Module HeaderController.

(** [updateResetButtonState]: the value given to [resetBtn.disabled]. *)
Definition resetDisabled (u : UIState.t) : bool :=
  let hasAnySelection :=
    UIState.truthy (UIState.selectedYear u)
    || UIState.truthy (UIState.selectedMonth u)
    || UIState.truthy (UIState.selectedQuestion u) in
  negb hasAnySelection.

(** The [change] handlers of the three dropdowns: [e.target.value || null]
    goes to the setter. *)
Definition value_or_null (value : string) : option string :=
  if String.eqb value "" then None else Some value.

Definition onYearChange (value : string) (u : UIState.t) : UIState.t :=
  UIState.setSelectedYear (value_or_null value) u.

Definition onMonthChange (value : string) (u : UIState.t) : UIState.t :=
  UIState.setSelectedMonth (value_or_null value) u.

Definition onQuestionChange (value : string) (u : UIState.t) : UIState.t :=
  UIState.setSelectedQuestion (value_or_null value) u.

Definition resetSelections (u : UIState.t) : UIState.t := UIState.reset u.

(** [setSelections(year, month, question)]; a missing argument is
    [null]. *)
Definition setSelections (year month question : option string)
    (u : UIState.t) : UIState.t :=
  if UIState.truthy year then
    let u := UIState.setSelectedYear year u in
    if UIState.truthy month then
      let u := UIState.setSelectedMonth month u in
      if UIState.truthy question then UIState.setSelectedQuestion question u
      else u
    else u
  else u.

End HeaderController.

(** ** JavaScript string and array primitives used by the catalog *)

Module JS.

Definition byte_is (c : ascii) (n : nat) : bool := Nat.eqb (nat_of_ascii c) n.

(** Removes one leading WhiteSpace or LineTerminator code point (ECMAScript
    [TrimString]), given in UTF-8: TAB, LF, VT, FF, CR, SP, U+00A0, U+1680,
    U+2000..U+200A, U+2028, U+2029, U+202F, U+205F, U+3000, U+FEFF. *)
Definition strip_space (s : string) : option string :=
  match s with
  | EmptyString => None
  | String c r =>
      let n := nat_of_ascii c in
      if ((9 <=? n) && (n <=? 13) || (n =? 32))%nat then Some r
      else
        match r with
        | String d r1 =>
            if byte_is c 194 && byte_is d 160 then Some r1
            else
              match r1 with
              | String e r2 =>
                  let x := nat_of_ascii d in
                  let z := nat_of_ascii e in
                  if (byte_is c 225 && byte_is d 154 && byte_is e 128)
                     || (byte_is c 226 && byte_is d 128
                         && (((128 <=? z) && (z <=? 138))
                             || (z =? 168) || (z =? 169) || (z =? 175)))%nat
                     || (byte_is c 226 && byte_is d 129 && byte_is e 159)
                     || (byte_is c 227 && byte_is d 128 && byte_is e 128)
                     || (byte_is c 239 && byte_is d 187 && byte_is e 191)
                  then Some r2 else None
              | EmptyString => None
              end
        | EmptyString => None
        end
  end.

Fixpoint trimStart_loop (fuel : nat) (s : string) : string :=
  match fuel with
  | O => s
  | S fuel' =>
      match strip_space s with
      | Some r => trimStart_loop fuel' r
      | None => s
      end
  end.

Definition trimStart (s : string) : string :=
  trimStart_loop (String.length s) s.

(** A string made of white space only. *)
Definition is_blank (s : string) : bool := String.eqb (trimStart s) "".

Fixpoint trimEnd (s : string) : string :=
  match s with
  | EmptyString => EmptyString
  | String c r => if is_blank s then EmptyString else String c (trimEnd r)
  end.

(** [String.prototype.trim]. *)
Definition trim (s : string) : string := trimEnd (trimStart s).

(** The value of a digit in radixes up to 36. *)
Definition digit_value (c : ascii) : option Z :=
  let n := nat_of_ascii c in
  if ((48 <=? n) && (n <=? 57))%nat then Some (Z.of_nat (n - 48))
  else if ((97 <=? n) && (n <=? 122))%nat then Some (Z.of_nat (n - 87))
  else if ((65 <=? n) && (n <=? 90))%nat then Some (Z.of_nat (n - 55))
  else None.

(** The longest prefix of radix-[R] digits, as a number; [None] when the
    prefix is empty. *)
Fixpoint parse_digits (R : Z) (s : string) (acc : option Z) : option Z :=
  match s with
  | EmptyString => acc
  | String c r =>
      match digit_value c with
      | Some d =>
          if (d <? R)%Z
          then parse_digits R r
                 (Some (match acc with Some a => a * R + d | None => d end)%Z)
          else acc
      | None => acc
      end
  end.

(** [parseInt(string)] without a radix argument; [None] is NaN. The result
    is the exact integer (JavaScript rounds integers beyond 2^53 to the
    nearest double, which no bound checked in this program can observe). *)
Definition parseInt (str : string) : option Z :=
  let s := trimStart str in
  let '(sign, s) :=
    match s with
    | String "-" r => ((-1)%Z, r)
    | String "+" r => (1%Z, r)
    | _ => (1%Z, s)
    end in
  let '(R, s) :=
    match s with
    | String "0" (String "x" r) => (16%Z, r)
    | String "0" (String "X" r) => (16%Z, r)
    | _ => (10%Z, s)
    end in
  match parse_digits R s None with
  | Some n => Some (sign * n)%Z
  | None => None
  end.

(** [a - b] on numbers that may be NaN. *)
Definition minus (a b : option Z) : option Z :=
  match a, b with
  | Some x, Some y => Some (x - y)%Z
  | _, _ => None
  end.

(** [[...new Set(l)]]: the distinct elements, in order of first
    occurrence. *)
Definition Set_add (seen : list string) (x : string) : list string :=
  if existsb (String.eqb x) seen then seen else seen ++ [x].

Definition uniq (l : list string) : list string :=
  fold_left Set_add l [].

(** [Array.prototype.sort(comparefn)] as a stable insertion sort; a
    comparator result of NaN counts as [+0], as in [SortCompare]. *)
Section Sort.
Variable comparefn : string -> string -> option Z.

Definition before (a b : string) : bool :=
  match comparefn a b with
  | Some v => (v <=? 0)%Z
  | None => true
  end.

Fixpoint insert (x : string) (l : list string) : list string :=
  match l with
  | [] => [x]
  | y :: l' => if before x y then x :: y :: l' else y :: insert x l'
  end.

Fixpoint sort (l : list string) : list string :=
  match l with
  | [] => []
  | x :: l' => insert x (sort l')
  end.
End Sort.

(** *** [isNaN] of a string *)

Definition is_digit (c : ascii) : bool :=
  let n := nat_of_ascii c in ((48 <=? n) && (n <=? 57))%nat.

Fixpoint skip_digits (s : string) : string :=
  match s with
  | EmptyString => EmptyString
  | String c r => if is_digit c then skip_digits r else s
  end.

Definition starts_with_digit (s : string) : bool :=
  match s with
  | String c _ => is_digit c
  | EmptyString => false
  end.

(** One or more decimal digits and nothing else. *)
Definition decimal_digits (s : string) : bool :=
  starts_with_digit s && String.eqb (skip_digits s) "".

(** A decimal numeral written without sign, white space or leading zero,
    the way the catalog file writes its months and question numbers. *)
Definition plain_number (s : string) : bool :=
  decimal_digits s
  && match s with
     | String c _ => negb (Ascii.eqb c "0")
     | EmptyString => false
     end.

Fixpoint all_below (R : Z) (s : string) : bool :=
  match s with
  | EmptyString => true
  | String c r =>
      match digit_value c with
      | Some d => (d <? R)%Z && all_below R r
      | None => false
      end
  end.

(** One or more digits of radix [R] and nothing else. *)
Definition digits_of_radix (R : Z) (s : string) : bool :=
  negb (String.eqb s "") && all_below R s.

(** What may follow the mantissa: nothing, or an exponent part. *)
Definition exponent_part_opt (s : string) : bool :=
  match s with
  | EmptyString => true
  | String c r =>
      if Ascii.eqb c "e" || Ascii.eqb c "E" then
        match r with
        | String "+" r' => decimal_digits r'
        | String "-" r' => decimal_digits r'
        | _ => decimal_digits r
        end
      else false
  end.

(** [StrUnsignedDecimalLiteral]. *)
Definition unsigned_decimal (s : string) : bool :=
  if String.eqb s "Infinity" then true
  else
    match skip_digits s with
    | String "." r =>
        (starts_with_digit s || starts_with_digit r)
        && exponent_part_opt (skip_digits r)
    | rest => starts_with_digit s && exponent_part_opt rest
    end.

(** Whether [Number(str)] is a number ([StringToNumber]): white space
    around an empty string, a signed decimal literal, or a binary, octal
    or hexadecimal integer. *)
Definition is_numeric_string (str : string) : bool :=
  let s := trim str in
  match s with
  | EmptyString => true
  | String "0" (String x r) =>
      if Ascii.eqb x "x" || Ascii.eqb x "X" then digits_of_radix 16 r
      else if Ascii.eqb x "o" || Ascii.eqb x "O" then digits_of_radix 8 r
      else if Ascii.eqb x "b" || Ascii.eqb x "B" then digits_of_radix 2 r
      else unsigned_decimal s
  | String "+" r => unsigned_decimal r
  | String "-" r => unsigned_decimal r
  | _ => unsigned_decimal s
  end.

Definition isNaN (str : string) : bool := negb (is_numeric_string str).

End JS.

(** ** DataManager (dataManager.js) *)

Module DataManager.

Record item : Type := mkItem {
  year : string;
  month : string;
  questionNumber : string
}.

Record t : Type := mk {
  csvData : list item;
  isDataLoaded : bool
}.

Definition init : t := mk [] false.

(** The row filter of [loadCSVData]: at least three cells, none empty, all
    three numeric after trimming, each in its range. *)
Definition valid_row (row : list string) : bool :=
  match row with
  | year :: month :: question :: _ =>
      if String.eqb year "" || String.eqb month "" || String.eqb question ""
      then false
      else
        match JS.parseInt (JS.trim year), JS.parseInt (JS.trim month),
              JS.parseInt (JS.trim question) with
        | Some yearNum, Some monthNum, Some questionNum =>
            if ((yearNum <? 2000) || (yearNum >? 2100))%Z then false
            else if ((monthNum <? 1) || (monthNum >? 12))%Z then false
            else if ((questionNum <? 1) || (questionNum >? 999))%Z then false
            else true
        | _, _, _ => false
        end
  | _ => false
  end.

Definition to_item (row : list string) : item :=
  mkItem (JS.trim (nth 0 row "")) (JS.trim (nth 1 row ""))
         (JS.trim (nth 2 row "")).

(** The [complete] callback of the CSV parser inside [loadCSVData]:
    [criticalErrors] are the parser's Delimiter and Quotes errors, [data]
    the parsed rows. The result is the manager and, on rejection, the
    error message. *)
Definition complete (criticalErrors : list string) (data : list (list string))
    (this : t) : t * option string :=
  match criticalErrors with
  | e :: _ =>
      (this, Some ("CSV 파일 형식이 올바르지 않습니다: " ++ e))
  | [] =>
      let validData := filter valid_row data in
      match validData with
      | [] =>
          (this, Some "CSV 파일에 유효한 데이터가 없습니다. 학년도, 시행월, 문항번호가 모두 올바르게 포함된 행이 필요합니다.")
      | _ => (mk (map to_item validData) true, None)
      end
  end.

(** The comparators [(a, b) => parseInt(a) - parseInt(b)] and
    [(a, b) => parseInt(b) - parseInt(a)]. *)
Definition asc (a b : string) : option Z :=
  JS.minus (JS.parseInt a) (JS.parseInt b).
Definition desc (a b : string) : option Z :=
  JS.minus (JS.parseInt b) (JS.parseInt a).

Definition unloaded (this : t) : bool :=
  negb (isDataLoaded this) || Nat.eqb (List.length (csvData this)) 0.

Definition getAvailableYears (this : t) : list string :=
  if unloaded this then []
  else
    let years := JS.uniq (map year (csvData this)) in
    JS.sort desc years.

Definition getMonthsForYear (year_ : string) (this : t) : list string :=
  if unloaded this || String.eqb year_ "" then []
  else
    let monthsForYear :=
      map month (filter (fun i => String.eqb (year i) year_) (csvData this)) in
    let uniqueMonths := JS.uniq monthsForYear in
    JS.sort asc uniqueMonths.

Definition getQuestionsForYearMonth (year_ month_ : string) (this : t)
    : list string :=
  if unloaded this || String.eqb year_ "" || String.eqb month_ "" then []
  else
    let questionsForYearMonth :=
      map questionNumber
        (filter (fun i => String.eqb (year i) year_
                          && String.eqb (month i) month_) (csvData this)) in
    let uniqueQuestions := JS.uniq questionsForYearMonth in
    JS.sort asc uniqueQuestions.

Definition problemExists (year_ month_ questionNumber_ : string) (this : t)
    : bool :=
  if unloaded this then false
  else existsb (fun i => String.eqb (year i) year_
                         && String.eqb (month i) month_
                         && String.eqb (questionNumber i) questionNumber_)
         (csvData this).

(** Numeric comparison of two catalog strings, through [parseInt]; false
    when either is not a number. *)
Definition num_le (a b : string) : Prop :=
  match JS.parseInt a, JS.parseInt b with
  | Some x, Some y => (x <= y)%Z
  | _, _ => False
  end.

Definition num_lt (a b : string) : Prop :=
  match JS.parseInt a, JS.parseInt b with
  | Some x, Some y => (x < y)%Z
  | _, _ => False
  end.

Definition numeric (s : string) : Prop := JS.parseInt s <> None.

Definition valid_item (i : item) : Prop :=
  numeric (year i) /\ numeric (month i) /\ numeric (questionNumber i).

Definition ascending (l : list string) : Prop := StronglySorted num_le l.
Definition descending (l : list string) : Prop :=
  StronglySorted (fun a b => num_le b a) l.
Definition strictly_ascending (l : list string) : Prop :=
  StronglySorted num_lt l.
Definition strictly_descending (l : list string) : Prop :=
  StronglySorted (fun a b => num_lt b a) l.

(** No two different strings of the list denote the same number. *)
Definition canonical (l : list string) : Prop :=
  forall a b, In a l -> In b l -> JS.parseInt a = JS.parseInt b -> a = b.

(** [filter && field !== filter.toString()]: an absent or empty filter
    rejects nothing. *)
Definition rejects (filter_ : option string) (field : string) : bool :=
  match filter_ with
  | Some f => negb (String.eqb f "") && negb (String.eqb field f)
  | None => false
  end.

Definition getFilteredData (year_ month_ questionNumber_ : option string)
    (this : t) : list item :=
  if unloaded this then []
  else
    filter (fun i =>
              if rejects year_ (year i) then false
              else if rejects month_ (month i) then false
              else if rejects questionNumber_ (questionNumber i) then false
              else true)
      (csvData this).

(** [createProblemData(year, month, questionNumber)], that is
    [new ProblemData(...)] on strings: the instance, or the message of
    the error thrown by the constructor. *)
Definition createProblemData (year_ month_ questionNumber_ : string)
    : ProblemData.t + string :=
  if String.eqb year_ "" || String.eqb month_ ""
     || String.eqb questionNumber_ ""
  then inr "학년도, 시행월, 문항번호는 모두 필수입니다."
  else if JS.isNaN year_ || JS.isNaN month_ || JS.isNaN questionNumber_
  then inr "학년도, 시행월, 문항번호는 모두 숫자여야 합니다."
  else inl (ProblemData.mk year_ month_ questionNumber_).

Definition getTotalProblemsCount (this : t) : nat :=
  if isDataLoaded this then List.length (csvData this) else 0%nat.

(** The object returned by [getDataStatistics]; [yearRange] is
    [(earliest, latest)], or [None] for [null]. *)
Record Statistics : Type := mkStatistics {
  totalProblems : nat;
  totalYears : nat;
  totalMonths : nat;
  yearRange : option (string * string)
}.

Definition getDataStatistics (this : t) : Statistics :=
  if unloaded this then mkStatistics 0 0 0 None
  else
    let years := getAvailableYears this in
    let allMonths := JS.uniq (map month (csvData this)) in
    mkStatistics (List.length (csvData this)) (List.length years)
      (List.length allMonths)
      (if (0 <? List.length years)%nat
       then Some (nth (List.length years - 1) years "", nth 0 years "")
       else None).

End DataManager.

(** ** App.retryWithBackoff (app.js) *)

Module App.

(** How an awaited call ends: with a value, or with an error carrying a
    message. *)
Inductive outcome (A : Type) : Type :=
| Resolved (value : A)
| Rejected (message : string).
Arguments Resolved {A} value.
Arguments Rejected {A} message.

(** What the wrapper does, in order. *)
Inductive event : Type :=
| CheckConnectivity (attempt : nat) (isConnected : bool)
| Invoke (attempt : nat)
| RetrySucceeded (attempt : nat)
| Wait (attempt : nat) (delay : Q).

Definition offline_message : string :=
  "네트워크 연결을 확인할 수 없습니다. 인터넷 연결을 확인해주세요.".

Definition decimal (n : nat) : string :=
  NilEmpty.string_of_uint (Nat.to_uint n).

(** [`${operationName} 실패 (${maxRetries}회 시도): ${lastError.message}`];
    reading [message] of an undefined [lastError] raises a TypeError. *)
Definition exhausted (operationName : string) (maxRetries : nat)
    (lastError : option string) : string :=
  match lastError with
  | Some m =>
      operationName ++ " 실패 (" ++ decimal maxRetries ++ "회 시도): " ++ m
  | None => "TypeError: Cannot read properties of undefined (reading 'message')"
  end.

Definition is_invoke (e : event) : bool :=
  match e with Invoke _ => true | _ => false end.

Definition is_wait (e : event) : bool :=
  match e with Wait _ _ => true | _ => false end.

Section Retry.
Context {A : Type}.
(** The environment: how the operation ends when invoked during a given
    attempt, what the connectivity check answers before it, and the
    value of [Math.random()] drawn after it failed. *)
Variable operation : nat -> outcome A.
Variable checkNetworkConnectivity : nat -> bool.
Variable random : nat -> Q.
Variable maxRetries : nat.
Variable baseDelay : Q.
Variable operationName : string.

(** [baseDelay * Math.pow(2, attempt - 1) + Math.random() * 1000]. *)
Definition backoff (attempt : nat) : Q :=
  baseDelay * inject_Z (2 ^ Z.of_nat (attempt - 1)) + random attempt * 1000.

(** The body of the [try] block of one iteration. *)
Definition try_attempt (attempt : nat) : outcome A * list event :=
  if (1 <? attempt)%nat then
    let isConnected := checkNetworkConnectivity attempt in
    if negb isConnected
    then (Rejected offline_message, [CheckConnectivity attempt false])
    else
      match operation attempt with
      | Resolved result =>
          (Resolved result,
           [CheckConnectivity attempt true; Invoke attempt;
            RetrySucceeded attempt])
      | Rejected e =>
          (Rejected e, [CheckConnectivity attempt true; Invoke attempt])
      end
  else
    match operation attempt with
    | Resolved result => (Resolved result, [Invoke attempt])
    | Rejected e => (Rejected e, [Invoke attempt])
    end.

(** The [for] loop from [attempt], with [remaining] iterations left
    before [attempt] exceeds [maxRetries]. *)
Fixpoint loop (remaining attempt : nat) (lastError : option string)
    : outcome A * list event :=
  match remaining with
  | O => (Rejected (exhausted operationName maxRetries lastError), [])
  | S remaining' =>
      match try_attempt attempt with
      | (Resolved result, evs) => (Resolved result, evs)
      | (Rejected error, evs) =>
          if (attempt =? maxRetries)%nat
          then (Rejected (exhausted operationName maxRetries (Some error)),
                evs)
          else
            let '(r, rest) := loop remaining' (S attempt) (Some error) in
            (r, (evs ++ Wait attempt (backoff attempt) :: rest)%list)
      end
  end.

Definition retryWithBackoff : outcome A * list event :=
  loop maxRetries 1 None.

(** How attempt [k] ends: offline retries fail without invoking the
    operation. *)
Definition attempt_outcome (k : nat) : outcome A := fst (try_attempt k).

End Retry.

End App.

(** ** JavaScript [Map]: entries in insertion order *)

Module JsMap.
Section Ops.
Context {K V : Type}.
Variable eqb : K -> K -> bool.

Fixpoint get (k : K) (m : list (K * V)) : option V :=
  match m with
  | [] => None
  | (k', v) :: m' => if eqb k k' then Some v else get k m'
  end.

Definition has (k : K) (m : list (K * V)) : bool :=
  match get k m with Some _ => true | None => false end.

(** [set]: an existing key keeps its position, a new key goes last. *)
Fixpoint set (k : K) (v : V) (m : list (K * V)) : list (K * V) :=
  match m with
  | [] => [(k, v)]
  | (k', v') :: m' =>
      if eqb k k' then (k, v) :: m' else (k', v') :: set k v m'
  end.

Fixpoint delete (k : K) (m : list (K * V)) : list (K * V) :=
  match m with
  | [] => []
  | (k', v') :: m' => if eqb k k' then m' else (k', v') :: delete k m'
  end.

Definition size (m : list (K * V)) : nat := List.length m.

(** [m.keys().next().value]; [None] is [undefined]. *)
Definition first_key (m : list (K * V)) : option K :=
  match m with
  | [] => None
  | (k, _) :: _ => Some k
  end.

Definition keys (m : list (K * V)) : list K := map fst m.

(** A [Map] holds each key once. *)
Definition wf (m : list (K * V)) : Prop := NoDup (keys m).

(** Walking over the entries [l] and deleting from [m] the key of each
    entry that satisfies [cond] (a [for...of] loop with [delete]). *)
Definition delete_where (cond : K * V -> bool) (l m : list (K * V))
    : list (K * V) :=
  fold_left (fun m e => if cond e then delete (fst e) m else m) l m.
End Ops.
End JsMap.

(** ** ContentController: the decoded-image cache (in pdfViewer.js) *)

Module ContentController.

Record Image : Type := mkImage {
  imageId : nat;
  naturalWidth : Z;
  naturalHeight : Z
}.

Record entry : Type := mkEntry {
  image : Image;
  timestamp : Z;
  accessCount : Z;
  size : Z
}.

(** [released] lists, in order, the images whose [src] was cleared. *)
Record t : Type := mk {
  imageCache : list (string * entry);
  maxCacheSize : nat;
  released : list Image
}.

Definition init : t := mk [] 20 [].

Definition estimateImageSize (image : Image) : Z :=
  if Z.eqb (naturalWidth image) 0 || Z.eqb (naturalHeight image) 0 then 0%Z
  else (naturalWidth image * naturalHeight image * 4)%Z.

(** [loadImageFromCache(imagePath)]: [preload] is how [preloadImage] ends
    if it is called, [now] the clock when the entry is stored. *)
Definition loadImageFromCache (imagePath : string)
    (preload : App.outcome Image) (now : Z) (s : t)
    : t * App.outcome Image :=
  match JsMap.get String.eqb imagePath (imageCache s) with
  | Some cachedData => (s, App.Resolved (image cachedData))
  | None =>
      match preload with
      | App.Rejected e => (s, App.Rejected e)
      | App.Resolved img =>
          let s :=
            if (maxCacheSize s <=? JsMap.size (imageCache s))%nat then
              match JsMap.first_key (imageCache s) with
              | Some firstKey =>
                  let removedData :=
                    JsMap.get String.eqb firstKey (imageCache s) in
                  let cache := JsMap.delete String.eqb firstKey (imageCache s) in
                  match removedData with
                  | Some d =>
                      mk cache (maxCacheSize s) (released s ++ [image d])
                  | None => mk cache (maxCacheSize s) (released s)
                  end
              | None => s
              end
            else s in
          (mk (JsMap.set String.eqb imagePath
                 (mkEntry img now 1 (estimateImageSize img)) (imageCache s))
              (maxCacheSize s) (released s),
           App.Resolved img)
      end
  end.

(** The cache part of [displayProblemImage(imagePath)]: an empty or blank
    path is refused; otherwise the image is loaded through the cache, and
    on success the access is counted and the timestamp of the entry
    refreshed. The messages and the loading flag go to the page and to
    [UIState] and are not part of the cache. *)
Definition displayProblemImage (imagePath : string)
    (preload : App.outcome Image) (nowStored nowAccess : Z) (s : t) : t :=
  if String.eqb (JS.trim imagePath) "" then s
  else
    match loadImageFromCache imagePath preload nowStored s with
    | (s, App.Resolved _) =>
        match JsMap.get String.eqb imagePath (imageCache s) with
        | Some cacheData =>
            mk (JsMap.set String.eqb imagePath
                  (mkEntry (image cacheData) nowAccess
                     (accessCount cacheData + 1) (size cacheData))
                  (imageCache s))
               (maxCacheSize s) (released s)
        | None => s
        end
    | (s, App.Rejected _) => s
    end.

(** One step of the sweep over the entries. *)
Definition cleanup_step (now : Z) (s : t) (e : string * entry) : t :=
  let '(path, data) := e in
  let age := (now - timestamp data)%Z in
  let maxAge := (10 * 60 * 1000)%Z in
  let minAccessCount := 3%Z in
  if (age >? maxAge)%Z && (accessCount data <? minAccessCount)%Z
  then mk (JsMap.delete String.eqb path (imageCache s)) (maxCacheSize s)
          (released s ++ [image data])
  else s.

Definition performMemoryCleanup (now : Z) (s : t) : t :=
  fold_left (cleanup_step now) (imageCache s) s.

(** [clearImageCache]: every cached image is released, then the map is
    emptied. *)
Definition clearImageCache (s : t) : t :=
  let s :=
    fold_left (fun s e => mk (imageCache s) (maxCacheSize s)
                            (released s ++ [image (snd e)]))
      (imageCache s) s in
  mk [] (maxCacheSize s) (released s).

(** The cache part of [cleanup]. *)
Definition cleanup (s : t) : t := clearImageCache s.

(** The image path built by [loadProblemForSelection(year, month,
    question)]. *)
Definition selectionImagePath (year month question : string) : string :=
  let paddedMonth := JSString.padStart 2 "0" month in
  let paddedQuestion := JSString.padStart 2 "0" question in
  "mun/" ++ year ++ paddedMonth ++ paddedQuestion ++ ".png".

Definition loadProblemForSelection (year month question : string)
    (preload : App.outcome Image) (nowStored nowAccess : Z) (s : t) : t :=
  displayProblemImage (selectionImagePath year month question)
    preload nowStored nowAccess s.

(** The cache holds each path once and stays within its limit. *)
Definition cache_ok (s : t) : Prop :=
  JsMap.wf (imageCache s) /\
  (JsMap.size (imageCache s) <= maxCacheSize s)%nat /\
  maxCacheSize s = 20%nat.

(** The cache operations, as calls. *)
Inductive call : Type :=
| LoadImageFromCache (imagePath : string) (preload : App.outcome Image)
                     (now : Z)
| DisplayProblemImage (imagePath : string) (preload : App.outcome Image)
                      (nowStored nowAccess : Z)
| LoadProblemForSelection (year month question : string)
                          (preload : App.outcome Image)
                          (nowStored nowAccess : Z)
| PerformMemoryCleanup (now : Z)
| ClearImageCache.

Definition run (c : call) (s : t) : t :=
  match c with
  | LoadImageFromCache imagePath preload now =>
      fst (loadImageFromCache imagePath preload now s)
  | DisplayProblemImage imagePath preload nowStored nowAccess =>
      displayProblemImage imagePath preload nowStored nowAccess s
  | LoadProblemForSelection y m q preload nowStored nowAccess =>
      loadProblemForSelection y m q preload nowStored nowAccess s
  | PerformMemoryCleanup now => performMemoryCleanup now s
  | ClearImageCache => clearImageCache s
  end.

Definition run_all (cs : list call) (s : t) : t :=
  fold_left (fun s c => run c s) cs s.

End ContentController.

(** ** PDFViewer (pdfViewer.js) *)

Module PDFViewer.

(** A PDF.js document proxy: [docId] is the identity of the object. *)
Record Document : Type := mkDocument {
  docId : nat;
  numPages : Z;
  fingerprint : option string
}.

(** The pixels read back from the canvas. *)
Definition ImageData : Type := nat.

Record PdfEntry : Type := mkPdfEntry {
  document : Document;
  loadTime : Z;
  lastAccess : Z;
  accessCount : Z;
  entryPages : Z
}.

Record PageEntry : Type := mkPageEntry {
  imageData : ImageData;
  timestamp : Z
}.

(** The key [`${fingerprint || 'unknown'}_${pageNumber}_${scale}`], kept
    as its three components; the scale is stored in lowest terms, so
    that equal numbers give equal keys. *)
Record PageKey : Type := mkKey {
  keyFingerprint : string;
  keyPage : Z;
  keyScale : Q
}.

Definition key_eqb (a b : PageKey) : bool :=
  String.eqb (keyFingerprint a) (keyFingerprint b)
  && Z.eqb (keyPage a) (keyPage b)
  && Z.eqb (Qnum (keyScale a)) (Qnum (keyScale b))
  && Pos.eqb (Qden (keyScale a)) (Qden (keyScale b)).

Definition cacheKey (doc : Document) (pageNumber : Z) (scale : Q) : PageKey :=
  mkKey (match fingerprint doc with
         | Some f => if String.eqb f "" then "unknown" else f
         | None => "unknown"
         end)
        pageNumber (Qred scale).

Inductive request : Type :=
| Head (url : string)
| GetDocument (url : string).

(** [destroyed] lists, in order, the documents on which [destroy()] was
    called; [requests] the network requests issued; [canvas],
    [loadingShown] and [errorShown] stand for the page elements. *)
Record t : Type := mk {
  pdfDocument : option Document;
  currentPage : Z;
  totalPages : Z;
  scale : Q;
  isLoading : bool;
  pdfCache : list (string * PdfEntry);
  maxPdfCacheSize : nat;
  renderedPageCache : list (PageKey * PageEntry);
  maxPageCacheSize : nat;
  canvas : option ImageData;
  loadingShown : bool;
  errorShown : option string;
  destroyed : list Document;
  requests : list request
}.

Definition init : t :=
  mk None 1 0 1 false [] 5 [] 20 None false None [] [].

Definition with_pdfDocument v s :=
  mk v (currentPage s) (totalPages s) (scale s) (isLoading s) (pdfCache s)
     (maxPdfCacheSize s) (renderedPageCache s) (maxPageCacheSize s)
     (canvas s) (loadingShown s) (errorShown s) (destroyed s) (requests s).
Definition with_currentPage v s :=
  mk (pdfDocument s) v (totalPages s) (scale s) (isLoading s) (pdfCache s)
     (maxPdfCacheSize s) (renderedPageCache s) (maxPageCacheSize s)
     (canvas s) (loadingShown s) (errorShown s) (destroyed s) (requests s).
Definition with_totalPages v s :=
  mk (pdfDocument s) (currentPage s) v (scale s) (isLoading s) (pdfCache s)
     (maxPdfCacheSize s) (renderedPageCache s) (maxPageCacheSize s)
     (canvas s) (loadingShown s) (errorShown s) (destroyed s) (requests s).
Definition with_scale v s :=
  mk (pdfDocument s) (currentPage s) (totalPages s) v (isLoading s)
     (pdfCache s) (maxPdfCacheSize s) (renderedPageCache s)
     (maxPageCacheSize s) (canvas s) (loadingShown s) (errorShown s)
     (destroyed s) (requests s).
Definition with_isLoading v s :=
  mk (pdfDocument s) (currentPage s) (totalPages s) (scale s) v (pdfCache s)
     (maxPdfCacheSize s) (renderedPageCache s) (maxPageCacheSize s)
     (canvas s) (loadingShown s) (errorShown s) (destroyed s) (requests s).
Definition with_pdfCache v s :=
  mk (pdfDocument s) (currentPage s) (totalPages s) (scale s) (isLoading s)
     v (maxPdfCacheSize s) (renderedPageCache s) (maxPageCacheSize s)
     (canvas s) (loadingShown s) (errorShown s) (destroyed s) (requests s).
Definition with_renderedPageCache v s :=
  mk (pdfDocument s) (currentPage s) (totalPages s) (scale s) (isLoading s)
     (pdfCache s) (maxPdfCacheSize s) v (maxPageCacheSize s)
     (canvas s) (loadingShown s) (errorShown s) (destroyed s) (requests s).
Definition with_canvas v s :=
  mk (pdfDocument s) (currentPage s) (totalPages s) (scale s) (isLoading s)
     (pdfCache s) (maxPdfCacheSize s) (renderedPageCache s)
     (maxPageCacheSize s) v (loadingShown s) (errorShown s) (destroyed s)
     (requests s).
Definition with_loadingShown v s :=
  mk (pdfDocument s) (currentPage s) (totalPages s) (scale s) (isLoading s)
     (pdfCache s) (maxPdfCacheSize s) (renderedPageCache s)
     (maxPageCacheSize s) (canvas s) v (errorShown s) (destroyed s)
     (requests s).
Definition with_errorShown v s :=
  mk (pdfDocument s) (currentPage s) (totalPages s) (scale s) (isLoading s)
     (pdfCache s) (maxPdfCacheSize s) (renderedPageCache s)
     (maxPageCacheSize s) (canvas s) (loadingShown s) v (destroyed s)
     (requests s).
Definition destroy (doc : Document) s :=
  mk (pdfDocument s) (currentPage s) (totalPages s) (scale s) (isLoading s)
     (pdfCache s) (maxPdfCacheSize s) (renderedPageCache s)
     (maxPageCacheSize s) (canvas s) (loadingShown s) (errorShown s)
     (destroyed s ++ [doc]) (requests s).
Definition send (r : request) s :=
  mk (pdfDocument s) (currentPage s) (totalPages s) (scale s) (isLoading s)
     (pdfCache s) (maxPdfCacheSize s) (renderedPageCache s)
     (maxPageCacheSize s) (canvas s) (loadingShown s) (errorShown s)
     (destroyed s) (requests s ++ [r]).

Definition showLoadingState := with_loadingShown true.
Definition hideLoadingState := with_loadingShown false.
Definition showError (message : string) := with_errorShown (Some message).
Definition hideError := with_errorShown None.

(** *** The rendered-page cache *)

Definition getCachedRenderedPage (key : PageKey) (now : Z) (s : t)
    : option ImageData * t :=
  match JsMap.get key_eqb key (renderedPageCache s) with
  | Some cached =>
      let maxAge := (5 * 60 * 1000)%Z in
      if (now - timestamp cached <? maxAge)%Z
      then (Some (imageData cached), s)
      else
        (None,
         with_renderedPageCache
           (JsMap.delete key_eqb key (renderedPageCache s)) s)
  | None => (None, s)
  end.

Definition cacheRenderedPage (key : PageKey) (data : ImageData) (now : Z)
    (s : t) : t :=
  let s :=
    if (maxPageCacheSize s <=? JsMap.size (renderedPageCache s))%nat then
      match JsMap.first_key (renderedPageCache s) with
      | Some firstKey =>
          with_renderedPageCache
            (JsMap.delete key_eqb firstKey (renderedPageCache s)) s
      | None => s
      end
    else s in
  with_renderedPageCache
    (JsMap.set key_eqb key (mkPageEntry data now) (renderedPageCache s)) s.

(** *** The document cache *)

(** The scan for the oldest entry: [(oldestPath, oldestTime)]. *)
Definition oldest_step (acc : option string * Z) (e : string * PdfEntry)
    : option string * Z :=
  let '(path, data) := e in
  if (lastAccess data <? snd acc)%Z then (Some path, lastAccess data) else acc.

Definition oldest (now : Z) (cache : list (string * PdfEntry))
    : option string * Z :=
  fold_left oldest_step cache (None, now).

Definition cachePDF (pdfPath : string) (pdfDocument_ : Document) (now : Z)
    (s : t) : t :=
  let s :=
    if (maxPdfCacheSize s <=? JsMap.size (pdfCache s))%nat then
      match fst (oldest now (pdfCache s)) with
      | Some oldestPath =>
          if String.eqb oldestPath "" then s
          else
            let s :=
              match JsMap.get String.eqb oldestPath (pdfCache s) with
              | Some removedData => destroy (document removedData) s
              | None => s
              end in
            with_pdfCache (JsMap.delete String.eqb oldestPath (pdfCache s)) s
      | None => s
      end
    else s in
  with_pdfCache
    (JsMap.set String.eqb pdfPath
       (mkPdfEntry pdfDocument_ now now 1 (numPages pdfDocument_))
       (pdfCache s)) s.

(** *** Rendering *)

(** What the browser answers during one [renderPage]: the clock at the
    cache lookup, the pixels produced by PDF.js ([None] when [getPage] or
    [render] throws), and the clock when they are stored. *)
Record RenderEnv : Type := mkRenderEnv {
  lookupTime : Z;
  rendered : option ImageData;
  storeTime : Z
}.

Definition renderPage (pageNumber : Z) (env : RenderEnv) (s : t) : t :=
  match pdfDocument s with
  | None => s
  | Some doc =>
      if (pageNumber <? 1)%Z || (pageNumber >? totalPages s)%Z then s
      else
        let key := cacheKey doc pageNumber (scale s) in
        match getCachedRenderedPage key (lookupTime env) s with
        | (Some cachedPage, s) =>
            with_currentPage pageNumber (with_canvas (Some cachedPage) s)
        | (None, s) =>
            match rendered env with
            | Some data =>
                let s := with_canvas (Some data) s in
                let s := cacheRenderedPage key data (storeTime env) s in
                with_currentPage pageNumber s
            | None => showError "페이지를 렌더링할 수 없습니다." s
            end
        end
  end.

Definition nextPage (env : RenderEnv) (s : t) : t :=
  match pdfDocument s with
  | None => s
  | Some _ =>
      if (currentPage s >=? totalPages s)%Z then s
      else renderPage (currentPage s + 1) env s
  end.

Definition previousPage (env : RenderEnv) (s : t) : t :=
  match pdfDocument s with
  | None => s
  | Some _ =>
      if (currentPage s <=? 1)%Z then s
      else renderPage (currentPage s - 1) env s
  end.

Definition goToPage (pageNumber : Z) (env : RenderEnv) (s : t) : t :=
  match pdfDocument s with
  | None => s
  | Some _ =>
      if (pageNumber <? 1)%Z || (pageNumber >? totalPages s)%Z then s
      else renderPage pageNumber env s
  end.

(** *** Zoom *)

Definition Qltb (a b : Q) : bool := negb (Qle_bool b a).
Definition Qmin (a b : Q) : Q := if Qle_bool a b then a else b.
Definition Qmax (a b : Q) : Q := if Qle_bool a b then b else a.

Definition setZoom (scale_ : Q) (env : RenderEnv) (s : t) : t :=
  match pdfDocument s with
  | None => s
  | Some _ =>
      if Qltb scale_ (1 # 2) || Qltb 3 scale_ then s
      else renderPage (currentPage s) env (with_scale scale_ s)
  end.

Definition zoomIn (env : RenderEnv) (s : t) : t :=
  match pdfDocument s with
  | None => s
  | Some _ =>
      let newScale := Qmin (scale s * (5 # 4)) 3 in
      setZoom newScale env s
  end.

Definition zoomOut (env : RenderEnv) (s : t) : t :=
  match pdfDocument s with
  | None => s
  | Some _ =>
      let newScale := Qmax (scale s * (4 # 5)) (1 # 2) in
      setZoom newScale env s
  end.

(** [resetZoom]: [fit] is [containerWidth / viewport.width] for the
    current page, a finite number ([None] when [getPage] throws); an
    infinite quotient acts like any ratio above 2 or below 0.5. *)
Definition resetZoom (fit : option Q) (env : RenderEnv) (s : t) : t :=
  match pdfDocument s with
  | None => s
  | Some _ =>
      match fit with
      | None => s
      | Some ratio => setZoom (Qmin ratio 2) env s
      end
  end.

(** The deferred part of [hidePDF] (the 300 ms timer callback). *)
Definition hidePDF_timeout (s : t) : t :=
  let s :=
    match pdfDocument s with
    | Some doc => with_pdfDocument None (destroy doc s)
    | None => s
    end in
  let s := with_canvas None s in
  with_scale 1 (with_totalPages 0 (with_currentPage 1 s)).

(** *** Loading a document *)

Definition includes (s sub : string) : bool :=
  match String.index 0 sub s with Some _ => true | None => false end.

(** How [fetch(pdfPath, {method: 'HEAD'})] ends. *)
Inductive fetch_result : Type :=
| FetchThrows (message : string)
| Response (ok : bool) (status : nat) (statusText : string)
           (contentType : option string).

(** How the race between [loadingTask.promise] and the 15 s timer ends:
    with a document ([None] for a falsy value) or with an error having a
    [name] and possibly a [message]. *)
Inductive pdf_result : Type :=
| PdfLoaded (doc : option Document)
| PdfThrows (name : string) (message : option string).

(** The rejection made by the timer. *)
Definition timed_out : pdf_result :=
  PdfThrows "Error"
    (Some "PDF 로딩 시간이 초과되었습니다. 파일이 너무 크거나 네트워크가 느릴 수 있습니다.").

Record LoadEnv : Type := mkLoadEnv {
  pdfjsLibDefined : bool;
  accessTime : Z;
  head : fetch_result;
  loaded : pdf_result;
  cacheTime : Z;
  render : RenderEnv
}.

Definition http_error_message (status : nat) (statusText : string) : string :=
  if (status =? 404)%nat then
    "해설 파일이 존재하지 않습니다. 아직 해설이 준비되지 않았을 수 있습니다."
  else if (status =? 403)%nat then "해설 파일에 접근할 권한이 없습니다."
  else if (status =? 500)%nat then "서버 오류로 해설 파일을 불러올 수 없습니다."
  else if (status =? 503)%nat then
    "서비스를 일시적으로 사용할 수 없습니다. 잠시 후 다시 시도해주세요."
  else "해설 파일 로딩 오류 (" ++ App.decimal status ++ "): " ++ statusText.

Definition pdf_error_message (name : string) (message : option string)
    : string :=
  if String.eqb name "InvalidPDFException" then
    "PDF 파일이 손상되었거나 유효하지 않습니다."
  else if String.eqb name "MissingPDFException" then
    "PDF 파일을 찾을 수 없습니다."
  else if String.eqb name "UnexpectedResponseException" then
    "PDF 파일 응답이 올바르지 않습니다. 파일이 손상되었을 수 있습니다."
  else
    match message with
    | Some m =>
        if negb (String.eqb m "") && includes m "timeout"
        then "PDF 로딩 시간이 초과되었습니다."
        else "PDF 로딩 실패: " ++ (if String.eqb m "" then "알 수 없는 오류" else m)
    | None => "PDF 로딩 실패: 알 수 없는 오류"
    end.

(** The body of the [try] block of [loadPDF], after [isLoading] was set. *)
Definition loadPDF_try (pdfPath : string) (env : LoadEnv) (s : t)
    : t * App.outcome unit :=
  match JsMap.get String.eqb pdfPath (pdfCache s) with
  | Some cachedPdf =>
      let s := with_pdfDocument (Some (document cachedPdf)) s in
      let s := with_totalPages (numPages (document cachedPdf)) s in
      let s := with_currentPage 1 s in
      let s :=
        with_pdfCache
          (JsMap.set String.eqb pdfPath
             (mkPdfEntry (document cachedPdf) (loadTime cachedPdf)
                (accessTime env) (accessCount cachedPdf + 1)
                (entryPages cachedPdf))
             (pdfCache s)) s in
      let s := renderPage (currentPage s) (render env) s in
      (hideLoadingState s, App.Resolved tt)
  | None =>
      if negb (pdfjsLibDefined env) then
        (s, App.Rejected
              "PDF.js 라이브러리를 로드할 수 없습니다. 페이지를 새로고침해주세요.")
      else
        let s := send (Head pdfPath) s in
        match head env with
        | FetchThrows m =>
            if includes m "Failed to fetch" || includes m "NetworkError"
            then (s, App.Rejected
                       "네트워크 오류로 해설 파일을 확인할 수 없습니다. 인터넷 연결을 확인해주세요.")
            else (s, App.Rejected "해설 파일에 접근할 수 없습니다.")
        | Response ok status statusText _ =>
            if negb ok
            then (s, App.Rejected (http_error_message status statusText))
            else
              let s := send (GetDocument pdfPath) s in
              match loaded env with
              | PdfThrows name message =>
                  (s, App.Rejected (pdf_error_message name message))
              | PdfLoaded None =>
                  (with_pdfDocument None s,
                   App.Rejected "PDF 문서를 로드할 수 없습니다.")
              | PdfLoaded (Some doc) =>
                  let s := with_pdfDocument (Some doc) s in
                  let s := with_totalPages (numPages doc) s in
                  if (totalPages s =? 0)%Z
                  then (s, App.Rejected "PDF 파일에 페이지가 없습니다.")
                  else
                    let s := with_currentPage 1 s in
                    let s := cachePDF pdfPath doc (cacheTime env) s in
                    let s := renderPage (currentPage s) (render env) s in
                    (hideLoadingState s, App.Resolved tt)
              end
        end
  end.

Definition loadPDF (pdfPath : string) (env : LoadEnv) (s : t)
    : t * App.outcome unit :=
  if isLoading s then (s, App.Resolved tt)
  else if String.eqb (JS.trim pdfPath) "" then
    let message := "유효하지 않은 PDF 파일 경로입니다." in
    (showError message s, App.Rejected message)
  else
    let s := with_isLoading true s in
    let s := showLoadingState s in
    let s := hideError s in
    match loadPDF_try pdfPath env s with
    | (s, App.Resolved _) => (with_isLoading false s, App.Resolved tt)
    | (s, App.Rejected message) =>
        let s := hideLoadingState s in
        let errorMessage :=
          if String.eqb message "" || String.eqb message "PDF 로딩 실패"
          then "해설 파일을 불러올 수 없습니다. 파일이 존재하는지 확인해주세요."
          else message in
        let s := showError errorMessage s in
        (with_isLoading false s, App.Rejected message)
    end.

(** *** Sweeping *)

Definition pdf_cleanup_step (now : Z) (s : t) (e : string * PdfEntry) : t :=
  let '(path, data) := e in
  let age := (now - lastAccess data)%Z in
  let maxAge := (15 * 60 * 1000)%Z in
  let minAccessCount := 2%Z in
  if (age >? maxAge)%Z && (accessCount data <? minAccessCount)%Z
  then with_pdfCache (JsMap.delete String.eqb path (pdfCache s))
         (destroy (document data) s)
  else s.

Definition page_cleanup_step (now : Z) (s : t) (e : PageKey * PageEntry) : t :=
  let '(key, data) := e in
  let age := (now - timestamp data)%Z in
  let pageMaxAge := (5 * 60 * 1000)%Z in
  if (age >? pageMaxAge)%Z
  then with_renderedPageCache
         (JsMap.delete key_eqb key (renderedPageCache s)) s
  else s.

Definition performPdfMemoryCleanup (now : Z) (s : t) : t :=
  let s := fold_left (pdf_cleanup_step now) (pdfCache s) s in
  fold_left (page_cleanup_step now) (renderedPageCache s) s.

Definition clearPdfCache (s : t) : t :=
  let s := fold_left (fun s e => destroy (document (snd e)) s) (pdfCache s) s in
  with_renderedPageCache [] (with_pdfCache [] s).

(** The fields that the rendered-page cache operations leave alone. *)
Definition same_document (s s' : t) : Prop :=
  pdfDocument s' = pdfDocument s /\ totalPages s' = totalPages s /\
  scale s' = scale s /\ isLoading s' = isLoading s /\
  pdfCache s' = pdfCache s /\ maxPdfCacheSize s' = maxPdfCacheSize s /\
  destroyed s' = destroyed s /\ requests s' = requests s.

(** The zoom scale is within its bounds. *)
Definition scale_ok (s : t) : Prop := (1 # 2 <= scale s)%Q /\ (scale s <= 3)%Q.

(** *** The viewer as a machine *)

Inductive call : Type :=
| LoadPDF (pdfPath : string) (env : LoadEnv)
| RenderPage (pageNumber : Z) (env : RenderEnv)
| NextPage (env : RenderEnv)
| PreviousPage (env : RenderEnv)
| GoToPage (pageNumber : Z) (env : RenderEnv)
| ZoomIn (env : RenderEnv)
| ZoomOut (env : RenderEnv)
| SetZoom (scale_ : Q) (env : RenderEnv)
| ResetZoom (fit : option Q) (env : RenderEnv)
| HidePDF
| PerformPdfMemoryCleanup (now : Z)
| ClearPdfCache.

Definition run (c : call) (s : t) : t :=
  match c with
  | LoadPDF pdfPath env => fst (loadPDF pdfPath env s)
  | RenderPage n env => renderPage n env s
  | NextPage env => nextPage env s
  | PreviousPage env => previousPage env s
  | GoToPage n env => goToPage n env s
  | ZoomIn env => zoomIn env s
  | ZoomOut env => zoomOut env s
  | SetZoom z env => setZoom z env s
  | ResetZoom fit env => resetZoom fit env s
  | HidePDF => hidePDF_timeout s
  | PerformPdfMemoryCleanup now => performPdfMemoryCleanup now s
  | ClearPdfCache => clearPdfCache s
  end.

Definition run_all (cs : list call) (s : t) : t := fold_left (fun s c => run c s) cs s.

(** *** Navigation status *)

(** The flags of the object returned by [getNavigationStatus()], as
    conditions: without a document each of them is [null]. *)
Definition hasDocument (s : t) : bool :=
  match pdfDocument s with Some _ => true | None => false end.

Definition canGoNext (s : t) : bool :=
  hasDocument s && (currentPage s <? totalPages s)%Z.

Definition canGoPrevious (s : t) : bool :=
  hasDocument s && (currentPage s >? 1)%Z.

Definition canZoomIn (s : t) : bool := hasDocument s && Qltb (scale s) 3.

Definition canZoomOut (s : t) : bool :=
  hasDocument s && Qltb (1 # 2) (scale s).

(** *** The viewer between two calls *)

(** The page number is at least 1, no load is in progress, the loading
    indicator is off, and the page count is that of the current
    document. *)
Definition settled (s : t) : Prop :=
  (1 <= currentPage s)%Z /\ isLoading s = false /\ loadingShown s = false /\
  (forall doc, pdfDocument s = Some doc -> totalPages s = numPages doc).

(** Both caches hold each key once, and the rendered pages are within
    their limit. *)
Definition caches_ok (s : t) : Prop :=
  JsMap.wf (pdfCache s) /\ JsMap.wf (renderedPageCache s) /\
  (JsMap.size (renderedPageCache s) <= maxPageCacheSize s)%nat /\
  maxPageCacheSize s = 20%nat /\ maxPdfCacheSize s = 5%nat.

End PDFViewer.

(** ** The sweep rule, in the specification's words *)

Module Spec.

(** An entry is removed by [sweep(now)] when its age since last access
    exceeds [idleTTL] and its access count is below
    [minAccessToSurviveSweep]. *)
Definition idle (idleTTL minAccessToSurviveSweep now lastAccess accessCount : Z)
    : bool :=
  (now - lastAccess >? idleTTL)%Z && (accessCount <? minAccessToSurviveSweep)%Z.

(** A rendered page is removed when its age alone exceeds the limit. *)
Definition stale (maxAge now timestamp : Z) : bool :=
  (now - timestamp >? maxAge)%Z.

Definition minutes (n : Z) : Z := (n * 60 * 1000)%Z.

(** The rule at each cache's parameters. *)
Definition image_idle (now : Z) (e : string * ContentController.entry) : bool :=
  idle (minutes 10) 3 now
    (ContentController.timestamp (snd e)) (ContentController.accessCount (snd e)).

Definition pdf_idle (now : Z) (e : string * PDFViewer.PdfEntry) : bool :=
  idle (minutes 15) 2 now
    (PDFViewer.lastAccess (snd e)) (PDFViewer.accessCount (snd e)).

Definition page_stale (now : Z) (e : PDFViewer.PageKey * PDFViewer.PageEntry)
    : bool :=
  stale (minutes 5) now (PDFViewer.timestamp (snd e)).

End Spec.

(** * Properties *)

(** ** Strict inequality *)

Lemma strict_neq_false_iff (a b : JSValue) : strict_neq a b = false <-> a = b.
Proof.
  destruct a as [|x|x|x], b as [|y|y|y]; simpl; split; intro H;
    try reflexivity; try discriminate.
  - apply negb_false_iff, Bool.eqb_prop in H. now subst.
  - inversion H; subst. now rewrite Bool.eqb_reflx.
  - apply negb_false_iff, String.eqb_eq in H. now subst.
  - inversion H; subst. now rewrite String.eqb_refl.
  - apply negb_false_iff, Nat.eqb_eq in H. now subst.
  - inversion H; subst. now rewrite Nat.eqb_refl.
Qed.

Lemma strict_neq_true_iff (a b : JSValue) : strict_neq a b = true <-> a <> b.
Proof.
  rewrite <- not_false_iff_true, strict_neq_false_iff. tauto.
Qed.

Lemma strict_neq_refl (a : JSValue) : strict_neq a a = false.
Proof. now apply strict_neq_false_iff. Qed.

Lemma of_string_inj (a b : option string) : of_string a = of_string b -> a = b.
Proof. destruct a, b; simpl; congruence. Qed.

Lemma of_object_inj (a b : option nat) : of_object a = of_object b -> a = b.
Proof. destruct a, b; simpl; congruence. Qed.

Lemma skipn_length_app {A : Type} (l k : list A) :
  skipn (List.length l) (l ++ k) = k.
Proof. induction l as [|x l IH]; simpl; auto. Qed.

(** ** The selection cascade *)

Section Cascade.
Import UIState.

Example cascade_scenario :
  let s := setSelectedQuestion (Some "3")
             (setSelectedMonth (Some "6") (setSelectedYear (Some "2022") init)) in
  let s' := setSelectedYear (Some "2021") s in
  selectedMonth s' = None /\ selectedQuestion s' = None /\
  since s s' =
    [ ("selectedQuestion", VString "3", VNull);
      ("selectedMonth", VString "6", VNull);
      ("selectedYear", VString "2022", VString "2021") ].
Proof. vm_compute. auto. Qed.

Lemma fired_nil p : fired p [] = 0%nat.
Proof. reflexivity. Qed.

Lemma fired_cons p q o n ns :
  fired p ((q, o, n) :: ns) =
  ((if String.eqb p q then 1 else 0) + fired p ns)%nat.
Proof. unfold fired; simpl. destruct (String.eqb p q); reflexivity. Qed.

Lemma by_names (P : string -> Prop) :
  P "selectedYear" -> P "selectedMonth" -> P "selectedQuestion" ->
  P "isLoading" -> P "isSolutionVisible" -> P "currentProblem" ->
  P "errorMessage" -> P "isPdfLoading" -> P "pdfError" ->
  (forall p, is_name p = false -> P p) -> forall p, P p.
Proof.
  intros H1 H2 H3 H4 H5 H6 H7 H8 H9 HO p.
  destruct (is_name p) eqn:E; [|auto].
  unfold is_name, names in E. simpl in E.
  repeat (apply orb_true_iff in E; destruct E as [E|E];
          [apply String.eqb_eq in E; subst p; assumption|]).
  discriminate.
Qed.

Lemma property_other p s : is_name p = false -> property p s = VNull.
Proof.
  unfold is_name, names; simpl; intros H.
  repeat (apply orb_false_iff in H; destruct H as [?E H]).
  unfold property.
  repeat match goal with
  | E : String.eqb p ?c = false |- context [String.eqb p ?c] => rewrite E
  end.
  reflexivity.
Qed.

Lemma fired_other p ns :
  forallb (fun n => is_name (fst (fst n))) ns = true ->
  is_name p = false -> fired p ns = 0%nat.
Proof.
  intros HF Hn. induction ns as [|[[q o] n] ns IH]; [reflexivity|].
  simpl in HF. apply andb_true_iff in HF. destruct HF as [Hq HF].
  rewrite fired_cons, IH by assumption.
  destruct (String.eqb_spec p q) as [->|_]; [congruence|reflexivity].
Qed.

(** C2, as stated, fails: a problem set while no question is selected
    survives a change of year. The state below is reached from a fresh
    [UIState] by one call of [setCurrentProblem]; [setSelectedYear] then
    finds month and question already [null], so neither nested setter
    reaches [setCurrentProblem(null)]. The same holds for a visible
    solution. *)
Lemma setSelectedYear_keeps_problem :
  let s := setSolutionVisible true (setCurrentProblem (Some 0%nat) init) in
  let s' := setSelectedYear (Some "2022") s in
  reachable s /\ selectedYear s <> Some "2022" /\
  currentProblem s' = Some 0%nat /\ isSolutionVisible s' = true.
Proof.
  cbv zeta. repeat split.
  - apply (reachable_run (SetSolutionVisible true)),
      (reachable_run (SetCurrentProblem (Some 0%nat))), reachable_init.
  - discriminate.
Qed.

(** C2 (amended): for every state (reachable or not) and every [y]
    different from the current [selectedYear], [setSelectedYear y] sets
    [selectedYear] to [y] and resets [selectedMonth] and
    [selectedQuestion] to [null]; when [selectedQuestion] was not [null]
    it also forces [currentProblem] to [null] and [isSolutionVisible] to
    [false], and when it was [null] both are left as they were; exactly
    one notification is fired for each property whose value differs
    between the state before and the state after, and none for any
    other property. *)
Theorem setSelectedYear_cascade (s : t) (y : option string) :
  selectedYear s <> y ->
  let s' := setSelectedYear y s in
  selectedYear s' = y /\
  selectedMonth s' = None /\
  selectedQuestion s' = None /\
  (selectedQuestion s <> None ->
     currentProblem s' = None /\ isSolutionVisible s' = false) /\
  (selectedQuestion s = None ->
     currentProblem s' = currentProblem s /\
     isSolutionVisible s' = isSolutionVisible s) /\
  (forall p, fired p (since s s') =
             if strict_neq (property p s) (property p s') then 1%nat else 0%nat).
Proof.
  intros Hy s'.
  destruct s as [sy sm sq ld sv cp em pl pe ns]; simpl in Hy.
  assert (Hneq : strict_neq (of_string sy) (of_string y) = true).
  { apply strict_neq_true_iff. intros E. apply of_string_inj in E. congruence. }
  assert (Es : s' = setSelectedYear y (mk sy sm sq ld sv cp em pl pe ns))
    by reflexivity.
  clearbody s'.
  unfold setSelectedYear in Es; cbn [selectedYear] in Es; rewrite Hneq in Es.
  destruct sy as [a|], y as [b|]; try congruence; cbn [of_string] in Hneq;
  destruct sm as [m|], sq as [q|], cp as [c|], sv, pe as [e|];
    cbv -[List.app] in Es; subst s';
    unfold since; cbn [notified]; rewrite <- ?app_assoc; cbn [List.app];
    rewrite skipn_length_app;
    cbn [selectedYear selectedMonth selectedQuestion currentProblem
         isSolutionVisible].
  all: do 3 (split; [reflexivity|]).
  all: split; [intros H; first [split; reflexivity | congruence]|].
  all: split; [intros H; first [split; reflexivity | discriminate]|].
  all: apply by_names;
    [ cbv -[strict_neq]; rewrite ?strict_neq_refl, ?Hneq; reflexivity ..
    | intros p Hp; rewrite !property_other by assumption;
      rewrite fired_other; [ reflexivity | reflexivity | assumption ] ].
Qed.

Lemma setSelectedYear_cascade_witness :
  let s := setSelectedQuestion (Some "3")
             (setSelectedMonth (Some "6") (setSelectedYear (Some "2022") init)) in
  selectedYear s <> Some "2021" /\
  selectedMonth (setSelectedYear (Some "2021") s) = None.
Proof.
  cbv zeta. split.
  - vm_compute. discriminate.
  - apply (setSelectedYear_cascade
             (setSelectedQuestion (Some "3")
                (setSelectedMonth (Some "6")
                   (setSelectedYear (Some "2022") init)))
             (Some "2021")).
    vm_compute. discriminate.
Defined.

(** Calling [setSelectedYear] with the current year changes nothing and
    notifies nobody. *)
Lemma setSelectedYear_same (s : t) :
  setSelectedYear (selectedYear s) s = s.
Proof.
  unfold setSelectedYear. rewrite strict_neq_refl. now destruct s.
Qed.

(** C8: [setCurrentProblem] compares references. With the current problem
    at reference [r1], passing another reference [r2] whose object has
    the same year, month and question number ([equals] holds) stores [r2]
    and fires one [currentProblem] notification; passing [r1] itself
    leaves the state as it is and fires none. *)
Theorem setCurrentProblem_by_reference
    (heap : list ProblemData.t) (r1 r2 : nat) (p1 p2 : ProblemData.t) (s : t) :
  nth_error heap r1 = Some p1 ->
  nth_error heap r2 = Some p2 ->
  r1 <> r2 ->
  ProblemData.equals p1 (Some p2) = true ->
  currentProblem s = Some r1 ->
  currentProblem (setCurrentProblem (Some r2) s) = Some r2 /\
  since s (setCurrentProblem (Some r2) s) =
    [("currentProblem", VObject r1, VObject r2)] /\
  setCurrentProblem (Some r1) s = s /\
  since s (setCurrentProblem (Some r1) s) = [].
Proof.
  intros _ _ Hr _ Hcur.
  destruct s as [sy sm sq ld sv cp em pl pe ns]; simpl in Hcur; subst cp.
  unfold setCurrentProblem, since; simpl.
  rewrite Nat.eqb_refl.
  replace (Nat.eqb r1 r2) with false by (symmetry; now apply Nat.eqb_neq).
  simpl. rewrite skipn_length_app.
  repeat split.
  rewrite <- (app_nil_r ns) at 2. now rewrite skipn_length_app.
Qed.

Lemma setCurrentProblem_by_reference_witness :
  let heap := [ProblemData.mk "2022" "6" "1"; ProblemData.mk "2022" "6" "1"] in
  let s := setCurrentProblem (Some 0%nat) init in
  currentProblem (setCurrentProblem (Some 1%nat) s) = Some 1%nat /\
  since s (setCurrentProblem (Some 1%nat) s) =
    [("currentProblem", VObject 0, VObject 1)] /\
  setCurrentProblem (Some 0%nat) s = s /\
  since s (setCurrentProblem (Some 0%nat) s) = [].
Proof.
  cbv zeta.
  apply (setCurrentProblem_by_reference
           [ProblemData.mk "2022" "6" "1"; ProblemData.mk "2022" "6" "1"]
           0 1 (ProblemData.mk "2022" "6" "1") (ProblemData.mk "2022" "6" "1"));
    try reflexivity.
  discriminate.
Defined.

End Cascade.

(** ** The catalog queries *)

Example catalog_scenario :
  let dm := fst (DataManager.complete []
                   [["2022"; "6"; "1"]; ["2022"; "6"; "2"]; ["2022"; "11"; "1"]]
                   DataManager.init) in
  DataManager.getAvailableYears dm = ["2022"] /\
  DataManager.getMonthsForYear "2022" dm = ["6"; "11"] /\
  DataManager.getQuestionsForYearMonth "2022" "6" dm = ["1"; "2"].
Proof. vm_compute. auto. Qed.

Example parseInt_examples :
  JS.parseInt "  42abc" = Some 42%Z /\ JS.parseInt "-7" = Some (-7)%Z /\
  JS.parseInt "0x1F" = Some 31%Z /\ JS.parseInt "abc" = None /\
  JS.parseInt "" = None /\ JS.parseInt "06" = Some 6%Z /\
  JS.trim "  a b  " = "a b".
Proof. vm_compute. repeat split. Qed.

Section SetFacts.
Import JS.

Lemma existsb_eqb_In (x : string) (l : list string) :
  existsb (String.eqb x) l = true <-> In x l.
Proof.
  rewrite existsb_exists. split.
  - intros [y [Hy E]]. apply String.eqb_eq in E. now subst.
  - intros H. exists x. split; [assumption|apply String.eqb_refl].
Qed.

Lemma Set_add_In seen x z : In z (Set_add seen x) <-> In z seen \/ z = x.
Proof.
  unfold Set_add. destruct (existsb (String.eqb x) seen) eqn:E.
  - apply existsb_eqb_In in E. split; [tauto|]. intros [H| ->]; assumption.
  - rewrite in_app_iff. simpl. intuition congruence.
Qed.

Lemma Set_add_NoDup seen x : NoDup seen -> NoDup (Set_add seen x).
Proof.
  intros H. unfold Set_add. destruct (existsb (String.eqb x) seen) eqn:E; auto.
  assert (Hx : ~ In x seen).
  { intros Hin. apply existsb_eqb_In in Hin. congruence. }
  clear E. induction H as [|y l Hy Hl IH]; simpl.
  - constructor; [intros []|constructor].
  - constructor.
    + rewrite in_app_iff. simpl in *. intuition congruence.
    + apply IH. simpl in Hx. tauto.
Qed.

Lemma fold_Set_add_In l : forall seen z,
  In z (fold_left Set_add l seen) <-> In z seen \/ In z l.
Proof.
  induction l as [|x l IH]; intros seen z; simpl; [tauto|].
  rewrite IH, Set_add_In. intuition congruence.
Qed.

Lemma fold_Set_add_NoDup l : forall seen,
  NoDup seen -> NoDup (fold_left Set_add l seen).
Proof.
  induction l as [|x l IH]; intros seen H; simpl; auto using Set_add_NoDup.
Qed.

Lemma uniq_In l z : In z (uniq l) <-> In z l.
Proof. unfold uniq. rewrite fold_Set_add_In. simpl. tauto. Qed.

Lemma uniq_NoDup l : NoDup (uniq l).
Proof. apply fold_Set_add_NoDup. constructor. Qed.

End SetFacts.

Section SortFacts.
Import JS.

Variable comparefn : string -> string -> option Z.
(** The elements being sorted satisfy [P], on which the comparator is a
    total preorder. *)
Variable P : string -> Prop.
Hypothesis before_total : forall a b,
  P a -> P b -> before comparefn a b = true \/ before comparefn b a = true.
Hypothesis before_trans : forall a b c,
  P a -> P b -> P c ->
  before comparefn a b = true -> before comparefn b c = true ->
  before comparefn a c = true.

Let R (a b : string) : Prop := before comparefn a b = true.

Lemma insert_Permutation x l : Permutation (insert comparefn x l) (x :: l).
Proof.
  induction l as [|y l IH]; simpl; [reflexivity|].
  destruct (before comparefn x y); [reflexivity|].
  rewrite IH. apply perm_swap.
Qed.

Lemma sort_Permutation l : Permutation (sort comparefn l) l.
Proof.
  induction l as [|x l IH]; simpl; [constructor|].
  rewrite insert_Permutation. now constructor.
Qed.

Lemma insert_sorted x l :
  P x -> Forall P l -> StronglySorted R l ->
  StronglySorted R (insert comparefn x l).
Proof.
  intros Hx HP HS. induction HS as [|y l HS IH Hy]; simpl.
  - repeat constructor.
  - inversion HP as [|? ? Py Pl]; subst.
    destruct (before comparefn x y) eqn:E.
    + constructor; [now constructor|].
      constructor; [exact E|].
      rewrite Forall_forall in *. intros z Hz.
      apply (before_trans x y z); auto. now apply Hy.
    + constructor; [now apply IH|].
      rewrite Forall_forall. intros z Hz.
      apply (Permutation_in _ (insert_Permutation x l)) in Hz.
      destruct Hz as [<-|Hz].
      * destruct (before_total x y Hx Py) as [H|H]; [congruence|exact H].
      * rewrite Forall_forall in Hy. now apply Hy.
Qed.

Lemma sort_sorted l : Forall P l -> StronglySorted R (sort comparefn l).
Proof.
  induction l as [|x l IH]; intros HP; simpl; [constructor|].
  inversion HP; subst. apply insert_sorted; auto.
  rewrite Forall_forall in *. intros z Hz.
  apply (Permutation_in _ (sort_Permutation l)) in Hz. auto.
Qed.

End SortFacts.

Lemma StronglySorted_impl_In {A : Type} (R R' : A -> A -> Prop) (l : list A) :
  (forall a b, In a l -> In b l -> a <> b -> R a b -> R' a b) ->
  NoDup l -> StronglySorted R l -> StronglySorted R' l.
Proof.
  intros HR HN HS. induction HS as [|x l HS IH Hx]; [constructor|].
  inversion HN as [|? ? Hnin HN']; subst.
  constructor.
  - apply IH; auto. intros a b Ha Hb. apply HR; now right.
  - rewrite Forall_forall in *. intros z Hz.
    apply HR; [now left|now right| |now apply Hx].
    intros ->. contradiction.
Qed.

Section Catalog.
Import DataManager.

Lemma before_asc a b :
  numeric a -> numeric b -> (JS.before asc a b = true <-> num_le a b).
Proof.
  unfold numeric, JS.before, asc, num_le, JS.minus.
  destruct (JS.parseInt a), (JS.parseInt b); try congruence.
  intros _ _. rewrite Z.leb_le. lia.
Qed.

Lemma before_desc a b :
  numeric a -> numeric b -> (JS.before desc a b = true <-> num_le b a).
Proof.
  unfold numeric, JS.before, desc, num_le, JS.minus.
  destruct (JS.parseInt a), (JS.parseInt b); try congruence.
  intros _ _. rewrite Z.leb_le. lia.
Qed.

Lemma num_le_total a b : numeric a -> numeric b -> num_le a b \/ num_le b a.
Proof.
  unfold numeric, num_le.
  destruct (JS.parseInt a), (JS.parseInt b); try congruence. lia.
Qed.

Lemma num_le_trans a b c : num_le a b -> num_le b c -> num_le a c.
Proof.
  unfold num_le.
  destruct (JS.parseInt a), (JS.parseInt b), (JS.parseInt c); try tauto. lia.
Qed.

Lemma num_le_neq_lt a b :
  num_le a b -> JS.parseInt a <> JS.parseInt b -> num_lt a b.
Proof.
  unfold num_le, num_lt.
  destruct (JS.parseInt a), (JS.parseInt b); try tauto.
  intros H Hn. assert (z <> z0) by congruence. lia.
Qed.

Lemma StronglySorted_iff (R R' : string -> string -> Prop) (l : list string) :
  Forall numeric l ->
  (forall a b, numeric a -> numeric b -> (R a b <-> R' a b)) ->
  StronglySorted R l -> StronglySorted R' l.
Proof.
  intros HP HR HS. induction HS as [|x l HS IH Hx]; [constructor|].
  inversion HP as [|? ? Px Pl]; subst. constructor; [auto|].
  rewrite Forall_forall in *. intros z Hz. apply HR; auto.
Qed.

(** Sorting numeric strings with the ascending comparator. *)
Lemma sort_asc_spec (l : list string) :
  Forall numeric l -> NoDup l ->
  let r := JS.sort asc l in
  NoDup r /\ (forall x, In x r <-> In x l) /\ ascending r /\
  (canonical r -> strictly_ascending r).
Proof.
  intros HP HN r.
  assert (Hperm : Permutation r l) by apply sort_Permutation.
  assert (HNr : NoDup r) by (eapply Permutation_NoDup; [symmetry|]; eassumption).
  assert (HPr : Forall numeric r).
  { rewrite Forall_forall in *. intros x Hx. apply HP.
    eapply Permutation_in; eassumption. }
  assert (Hsorted : ascending r).
  { apply (StronglySorted_iff (fun a b => JS.before asc a b = true)); auto.
    - intros a b Ha Hb. now apply before_asc.
    - apply (sort_sorted asc numeric); auto.
      + intros a b Ha Hb. rewrite !before_asc by assumption.
        now apply num_le_total.
      + intros a b c Ha Hb Hc. rewrite !before_asc by assumption.
        apply num_le_trans. }
  repeat split; auto.
  - intros Hx. eapply Permutation_in; eassumption.
  - intros Hx. eapply Permutation_in; [symmetry|]; eassumption.
  - intros Hc. apply (StronglySorted_impl_In num_le); auto.
    intros a b Ha Hb Hab Hle. apply num_le_neq_lt; [exact Hle|].
    intros E. apply Hab. now apply Hc.
Qed.

(** Sorting numeric strings with the descending comparator. *)
Lemma sort_desc_spec (l : list string) :
  Forall numeric l -> NoDup l ->
  let r := JS.sort desc l in
  NoDup r /\ (forall x, In x r <-> In x l) /\ descending r /\
  (canonical r -> strictly_descending r).
Proof.
  intros HP HN r.
  assert (Hperm : Permutation r l) by apply sort_Permutation.
  assert (HNr : NoDup r) by (eapply Permutation_NoDup; [symmetry|]; eassumption).
  assert (HPr : Forall numeric r).
  { rewrite Forall_forall in *. intros x Hx. apply HP.
    eapply Permutation_in; eassumption. }
  assert (Hsorted : descending r).
  { apply (StronglySorted_iff (fun a b => JS.before desc a b = true)); auto.
    - intros a b Ha Hb. now apply before_desc.
    - apply (sort_sorted desc numeric); auto.
      + intros a b Ha Hb. rewrite !before_desc by assumption.
        destruct (num_le_total a b Ha Hb); tauto.
      + intros a b c Ha Hb Hc. rewrite !before_desc by assumption.
        intros H1 H2. eapply num_le_trans; eassumption. }
  repeat split; auto.
  - intros Hx. eapply Permutation_in; eassumption.
  - intros Hx. eapply Permutation_in; [symmetry|]; eassumption.
  - intros Hc. apply (StronglySorted_impl_In (fun a b => num_le b a)); auto.
    intros a b Ha Hb Hab Hle. apply num_le_neq_lt; [exact Hle|].
    intros E. apply Hab. symmetry. now apply Hc.
Qed.

Lemma valid_row_item row :
  valid_row row = true -> valid_item (to_item row).
Proof.
  destruct row as [|a [|b [|c r]]]; simpl; try discriminate.
  destruct (String.eqb a "" || String.eqb b "" || String.eqb c "");
    [discriminate|].
  unfold valid_item, to_item, numeric; simpl.
  destruct (JS.parseInt (JS.trim a)), (JS.parseInt (JS.trim b)),
    (JS.parseInt (JS.trim c)); try discriminate.
  intros _. repeat split; discriminate.
Qed.

(** After a successful load the manager is loaded, non-empty, and holds
    numeric strings only. *)
Lemma complete_loaded errs rows this dm :
  complete errs rows this = (dm, None) ->
  unloaded dm = false /\ Forall valid_item (csvData dm).
Proof.
  unfold complete. destruct errs; [|discriminate].
  destruct (filter valid_row rows) as [|r l] eqn:E; [discriminate|].
  intros H; inversion H; subst; clear H. split; [reflexivity|].
  change (Forall valid_item (map to_item (r :: l))). rewrite <- E. clear E.
  apply Forall_forall. intros i Hi.
  apply in_map_iff in Hi. destruct Hi as [row [<- Hrow]].
  apply filter_In in Hrow. now apply valid_row_item.
Qed.

Lemma numeric_nonempty s : numeric s -> s <> "".
Proof. intros H ->. now apply H. Qed.

(** C6, as stated, fails: months are made distinct as strings, so two
    spellings of one number are both returned and the order between them
    is not strict. Both rows below pass the validation of
    [loadCSVData]. *)
Lemma getMonthsForYear_not_strict :
  let r := complete [] [["2022"; "06"; "1"]; ["2022"; "6"; "2"]] init in
  snd r = None /\
  getMonthsForYear "2022" (fst r) = ["06"; "6"] /\
  ~ strictly_ascending (getMonthsForYear "2022" (fst r)).
Proof.
  cbv zeta. split; [reflexivity|]. split; [reflexivity|].
  change (getMonthsForYear "2022"
            (fst (complete [] [["2022"; "06"; "1"]; ["2022"; "6"; "2"]] init)))
    with ["06"; "6"].
  intros H. inversion H as [|? ? _ Hall]; subst.
  inversion Hall as [|? ? Hlt _]; subst.
  vm_compute in Hlt. discriminate Hlt.
Qed.

Lemma Forall_numeric_uniq_map (f : item -> string) (l : list item) :
  (forall i, In i l -> numeric (f i)) -> Forall numeric (JS.uniq (map f l)).
Proof.
  intros H. apply Forall_forall. intros x Hx.
  apply uniq_In, in_map_iff in Hx. destruct Hx as [i [<- Hi]]. auto.
Qed.

Lemma empty_result (Q : string -> Prop) :
  (forall x, ~ Q x) ->
  NoDup (@nil string) /\ (forall x, In x [] <-> Q x) /\ ascending [] /\
  (canonical [] -> strictly_ascending []).
Proof.
  intros H. repeat split; try constructor.
  - intros [].
  - intros HQ. now apply H in HQ.
Qed.

(** C6 (amended): after a successful load, whatever the order of the
    rows, [getAvailableYears] returns exactly the years of the catalog,
    each string once, in descending order of numeric value;
    [getMonthsForYear] and [getQuestionsForYearMonth] return exactly the
    months (question numbers) of the matching rows, each string once, in
    ascending order of numeric value. The order is not strict in general,
    because two different strings with the same numeric value are both
    kept; it is strict whenever no two different strings of the result
    have the same numeric value. *)
Theorem catalog_queries_sorted
    (errs : list string) (rows : list (list string)) (this dm : t)
    (y m : string) :
  complete errs rows this = (dm, None) ->
  let years := getAvailableYears dm in
  let months := getMonthsForYear y dm in
  let questions := getQuestionsForYearMonth y m dm in
  (NoDup years /\
   (forall x, In x years <-> exists i, In i (csvData dm) /\ year i = x) /\
   descending years /\
   (canonical years -> strictly_descending years)) /\
  (NoDup months /\
   (forall x, In x months <->
              exists i, In i (csvData dm) /\ year i = y /\ month i = x) /\
   ascending months /\
   (canonical months -> strictly_ascending months)) /\
  (NoDup questions /\
   (forall x, In x questions <->
              exists i, In i (csvData dm) /\ year i = y /\ month i = m /\
                        questionNumber i = x) /\
   ascending questions /\
   (canonical questions -> strictly_ascending questions)).
Proof.
  intros Hload years months questions.
  destruct (complete_loaded _ _ _ _ Hload) as [Hu HV].
  rewrite Forall_forall in HV.
  split; [|split].
  - subst years. unfold getAvailableYears. rewrite Hu.
    destruct (sort_desc_spec (JS.uniq (map year (csvData dm))))
      as [H1 [H2 [H3 H4]]].
    + apply Forall_numeric_uniq_map. intros i Hi. apply (HV i Hi).
    + apply uniq_NoDup.
    + repeat split; auto.
      * intros Hx. apply H2, uniq_In, in_map_iff in Hx.
        destruct Hx as [i [E Hi]]. eauto.
      * intros [i [Hi E]]. apply H2, uniq_In, in_map_iff. eauto.
  - subst months. unfold getMonthsForYear. rewrite Hu. simpl.
    destruct (String.eqb_spec y "") as [->|Hy].
    + apply empty_result. intros x [i [Hi [E _]]].
      apply (numeric_nonempty (year i)); [apply (HV i Hi)|exact E].
    + destruct (sort_asc_spec
                  (JS.uniq (map month
                     (filter (fun i => String.eqb (year i) y) (csvData dm)))))
        as [H1 [H2 [H3 H4]]].
      * apply Forall_numeric_uniq_map. intros i Hi.
        apply filter_In in Hi. apply (HV i (proj1 Hi)).
      * apply uniq_NoDup.
      * repeat split; auto.
        -- intros Hx. apply H2, uniq_In, in_map_iff in Hx.
           destruct Hx as [i [E Hi]]. apply filter_In in Hi.
           destruct Hi as [Hi Ey]. apply String.eqb_eq in Ey. eauto.
        -- intros [i [Hi [Ey E]]]. apply H2, uniq_In, in_map_iff.
           exists i. split; [exact E|]. apply filter_In.
           split; [exact Hi|]. now apply String.eqb_eq.
  - subst questions. unfold getQuestionsForYearMonth. rewrite Hu. simpl.
    destruct (String.eqb_spec y "") as [->|Hy]; simpl.
    + apply empty_result. intros x [i [Hi [E _]]].
      apply (numeric_nonempty (year i)); [apply (HV i Hi)|exact E].
    + destruct (String.eqb_spec m "") as [->|Hm].
      * apply empty_result. intros x [i [Hi [_ [E _]]]].
        apply (numeric_nonempty (month i)); [apply (HV i Hi)|exact E].
      * destruct (sort_asc_spec
                    (JS.uniq (map questionNumber
                       (filter (fun i => String.eqb (year i) y
                                         && String.eqb (month i) m)
                               (csvData dm)))))
          as [H1 [H2 [H3 H4]]].
        -- apply Forall_numeric_uniq_map. intros i Hi.
           apply filter_In in Hi. apply (HV i (proj1 Hi)).
        -- apply uniq_NoDup.
        -- repeat split; auto.
           ++ intros Hx. apply H2, uniq_In, in_map_iff in Hx.
              destruct Hx as [i [E Hi]]. apply filter_In in Hi.
              destruct Hi as [Hi Ey]. apply andb_true_iff in Ey.
              destruct Ey as [Ey Em].
              apply String.eqb_eq in Ey. apply String.eqb_eq in Em. eauto.
           ++ intros [i [Hi [Ey [Em E]]]]. apply H2, uniq_In, in_map_iff.
              exists i. split; [exact E|]. apply filter_In.
              split; [exact Hi|]. apply andb_true_iff.
              split; now apply String.eqb_eq.
Qed.

Lemma catalog_queries_sorted_witness :
  let rows := [["2021"; "9"; "30"]; ["2022"; "11"; "1"]; ["2022"; "6"; "2"];
               ["2022"; "6"; "10"]; ["2020"; "6"; "1"]] in
  let dm := fst (complete [] rows init) in
  descending (getAvailableYears dm) /\
  ascending (getMonthsForYear "2022" dm) /\
  ascending (getQuestionsForYearMonth "2022" "6" dm).
Proof.
  cbv zeta.
  pose proof (catalog_queries_sorted []
    [["2021"; "9"; "30"]; ["2022"; "11"; "1"]; ["2022"; "6"; "2"];
     ["2022"; "6"; "10"]; ["2020"; "6"; "1"]] init
    (fst (complete []
       [["2021"; "9"; "30"]; ["2022"; "11"; "1"]; ["2022"; "6"; "2"];
        ["2022"; "6"; "10"]; ["2020"; "6"; "1"]] init))
    "2022" "6" eq_refl) as H.
  cbv zeta in H. tauto.
Defined.

Example catalog_order_example :
  let rows := [["2021"; "9"; "30"]; ["2022"; "11"; "1"]; ["2022"; "6"; "2"];
               ["2022"; "6"; "10"]; ["2020"; "6"; "1"]] in
  let dm := fst (complete [] rows init) in
  getAvailableYears dm = ["2022"; "2021"; "2020"] /\
  getMonthsForYear "2022" dm = ["6"; "11"] /\
  getQuestionsForYearMonth "2022" "6" dm = ["2"; "10"].
Proof. vm_compute. repeat split. Qed.

End Catalog.

(** ** The retry wrapper *)

Section RetryFacts.
Import App.

Example retry_third_attempt :
  retryWithBackoff
    (fun k => if (k <? 3)%nat then Rejected "boom" else Resolved 7%nat)
    (fun _ => true) (fun _ => 0%Q) 3 1000 "CSV" =
  (Resolved 7%nat,
   [Invoke 1; Wait 1 1000; CheckConnectivity 2 true; Invoke 2; Wait 2 2000;
    CheckConnectivity 3 true; Invoke 3; RetrySucceeded 3]).
Proof. vm_compute. reflexivity. Qed.

Context {A : Type}.
Variable operation : nat -> outcome A.
Variable conn : nat -> bool.
Variable random : nat -> Q.
Variable maxRetries : nat.
Variable baseDelay : Q.
Variable operationName : string.

Let out := attempt_outcome operation conn.
Let run := loop operation conn random maxRetries baseDelay operationName.

(** One iteration whose attempt fails and is not the last one. *)
Lemma loop_rejected rem a last e :
  out a = Rejected e -> a <> maxRetries ->
  run (S rem) a last =
    (fst (run rem (S a) (Some e)),
     (snd (try_attempt operation conn a)
      ++ Wait a (backoff random baseDelay a) :: snd (run rem (S a) (Some e)))%list).
Proof.
  intros He Hne. unfold run, out, attempt_outcome in *. simpl.
  destruct (try_attempt operation conn a) as [[v|e'] evs]; simpl in *;
    [discriminate|].
  inversion He; subst e'.
  apply Nat.eqb_neq in Hne. rewrite Hne.
  now destruct (loop _ _ _ _ _ _ rem (S a) (Some e)).
Qed.

Lemma loop_last rem last e :
  out maxRetries = Rejected e ->
  run (S rem) maxRetries last =
    (Rejected (exhausted operationName maxRetries (Some e)),
     snd (try_attempt operation conn maxRetries)).
Proof.
  intros He. unfold run, out, attempt_outcome in *. simpl.
  destruct (try_attempt operation conn maxRetries) as [[v|e'] evs];
    simpl in *; [discriminate|].
  inversion He; subst e'. now rewrite Nat.eqb_refl.
Qed.

Lemma loop_resolved rem a last v :
  out a = Resolved v ->
  run (S rem) a last = (Resolved v, snd (try_attempt operation conn a)).
Proof.
  intros He. unfold run, out, attempt_outcome in *. simpl.
  destruct (try_attempt operation conn a) as [[v'|e'] evs]; simpl in *;
    [|discriminate].
  now inversion He.
Qed.

(** The events of one attempt. *)
Lemma try_attempt_events k ev :
  In ev (snd (try_attempt operation conn k)) ->
  (ev = CheckConnectivity k (conn k) /\ (2 <= k)%nat) \/
  (ev = Invoke k /\ ((k <= 1)%nat \/ conn k = true)) \/
  (ev = RetrySucceeded k).
Proof.
  unfold try_attempt.
  destruct (Nat.ltb_spec 1 k) as [Hk|Hk].
  - destruct (conn k) eqn:Ec; simpl.
    + destruct (operation k); simpl; intuition (subst; auto).
    + intuition (subst; auto).
  - destruct (operation k); simpl; intuition (subst; auto).
Qed.

Lemma loop_events rem : forall a last ev,
  In ev (snd (run rem a last)) ->
  exists k, (a <= k < a + rem)%nat /\
    (In ev (snd (try_attempt operation conn k)) \/
     ev = Wait k (backoff random baseDelay k)).
Proof.
  induction rem as [|rem IH]; intros a last ev Hin.
  - destruct Hin.
  - destruct (out a) as [v|e] eqn:Ea.
    + unfold run in Hin. fold run in Hin.
      rewrite (loop_resolved _ _ _ _ Ea) in Hin. simpl in Hin.
      exists a. split; [lia|now left].
    + destruct (Nat.eq_dec a maxRetries) as [->|Hne].
      * rewrite (loop_last _ _ _ Ea) in Hin. simpl in Hin.
        exists maxRetries. split; [lia|now left].
      * rewrite (loop_rejected _ _ _ _ Ea Hne) in Hin. simpl in Hin.
        apply in_app_iff in Hin. destruct Hin as [Hin|[<-|Hin]].
        -- exists a. split; [lia|now left].
        -- exists a. split; [lia|now right].
        -- destruct (IH _ _ _ Hin) as [k [Hk Hev]].
           exists k. split; [lia|exact Hev].
Qed.

(** The trace of an iteration starts with the events of its attempt. *)
Lemma loop_prefix rem a last :
  exists rest,
    snd (run (S rem) a last) = (snd (try_attempt operation conn a) ++ rest)%list.
Proof.
  destruct (out a) as [v|e] eqn:Ea.
  - rewrite (loop_resolved _ _ _ _ Ea). exists []. simpl. now rewrite app_nil_r.
  - destruct (Nat.eq_dec a maxRetries) as [->|Hne].
    + rewrite (loop_last _ _ _ Ea). exists []. simpl. now rewrite app_nil_r.
    + rewrite (loop_rejected _ _ _ _ Ea Hne). simpl. eauto.
Qed.

Lemma try_attempt_invoke k j :
  In (Invoke j) (snd (try_attempt operation conn k)) ->
  j = k /\ ((k <= 1)%nat \/ conn k = true).
Proof.
  intros H. apply try_attempt_events in H.
  destruct H as [[H _]|[[H Hc]|H]]; try discriminate.
  inversion H; subst. auto.
Qed.

Lemma try_attempt_checked k :
  (2 <= k)%nat ->
  (conn k = true ->
   exists tl, snd (try_attempt operation conn k) =
              CheckConnectivity k true :: Invoke k :: tl) /\
  In (CheckConnectivity k (conn k)) (snd (try_attempt operation conn k)).
Proof.
  intros Hk. unfold try_attempt.
  destruct (Nat.ltb_spec 1 k) as [_|?]; [|lia].
  destruct (conn k); simpl.
  - destruct (operation k); simpl; split; eauto.
  - split; [discriminate|now left].
Qed.

Lemma loop_resolves rem : forall a last k v,
  (a + rem = S maxRetries)%nat -> (a <= k <= maxRetries)%nat ->
  (forall j, (a <= j < k)%nat -> exists e, out j = Rejected e) ->
  out k = Resolved v ->
  fst (run rem a last) = Resolved v /\
  forall j, (k < j)%nat -> ~ In (Invoke j) (snd (run rem a last)).
Proof.
  induction rem as [|rem IH]; intros a last k v Hsum Hk Hrej Hres; [lia|].
  destruct (Nat.eq_dec a k) as [->|Hak].
  - rewrite (loop_resolved _ _ _ _ Hres). simpl. split; [reflexivity|].
    intros j Hj Hin. apply try_attempt_invoke in Hin. lia.
  - destruct (Hrej a) as [e He]; [lia|].
    rewrite (loop_rejected _ _ _ _ He) by lia. simpl.
    destruct (IH (S a) (Some e) k v) as [IH1 IH2]; auto; try lia.
    { intros j Hj. apply Hrej. lia. }
    split; [exact IH1|].
    intros j Hj Hin. apply in_app_iff in Hin.
    destruct Hin as [Hin|[Hin|Hin]].
    + apply try_attempt_invoke in Hin. lia.
    + discriminate.
    + now apply (IH2 j Hj).
Qed.

Lemma loop_exhausts (e : nat -> string) rem : forall a last,
  (a + rem = S maxRetries)%nat -> (1 <= rem)%nat ->
  (forall j, (a <= j <= maxRetries)%nat -> out j = Rejected (e j)) ->
  fst (run rem a last) =
    Rejected (exhausted operationName maxRetries (Some (e maxRetries))).
Proof.
  induction rem as [|rem IH]; intros a last Hsum Hrem Hrej; [lia|].
  destruct (Nat.eq_dec a maxRetries) as [->|Hne].
  - now rewrite (loop_last _ _ _ (Hrej _ (conj (le_n _) (le_n _)))).
  - rewrite (loop_rejected _ _ _ (e a)); [|apply Hrej; lia|exact Hne].
    simpl. apply IH; try lia. intros j Hj. apply Hrej. lia.
Qed.

Lemma loop_checks rem a last k b :
  (a + rem = S maxRetries)%nat ->
  In (CheckConnectivity k b) (snd (run rem a last)) ->
  (2 <= k <= maxRetries)%nat /\ b = conn k.
Proof.
  intros Hsum Hin. apply loop_events in Hin.
  destruct Hin as [k' [Hk' [Hin|Hin]]]; [|discriminate].
  apply try_attempt_events in Hin.
  destruct Hin as [[H Hk]|[[H _]|H]]; try discriminate.
  inversion H; subst. split; [lia|reflexivity].
Qed.

Lemma loop_check_before_retry rem : forall a last k,
  (a + rem = S maxRetries)%nat -> (a <= k <= maxRetries)%nat -> (2 <= k)%nat ->
  (forall j, (a <= j < k)%nat -> exists e, out j = Rejected e) ->
  In (CheckConnectivity k (conn k)) (snd (run rem a last)).
Proof.
  induction rem as [|rem IH]; intros a last k Hsum Hk H2 Hrej; [lia|].
  destruct (Nat.eq_dec a k) as [->|Hak].
  - destruct (loop_prefix rem k last) as [rest ->].
    apply in_app_iff. left. now apply try_attempt_checked.
  - destruct (Hrej a) as [e He]; [lia|].
    rewrite (loop_rejected _ _ _ _ He) by lia. simpl.
    apply in_app_iff. right. right.
    apply IH; try lia. intros j Hj. apply Hrej. lia.
Qed.

Lemma loop_invoke_after_check rem : forall a last k,
  In (Invoke k) (snd (run rem a last)) ->
  (k <= 1)%nat \/
  exists pre post,
    snd (run rem a last) =
    (pre ++ CheckConnectivity k true :: Invoke k :: post)%list.
Proof.
  induction rem as [|rem IH]; intros a last k Hin; [destruct Hin|].
  assert (Hhere : In (Invoke k) (snd (try_attempt operation conn a)) ->
                  (k <= 1)%nat \/
                  exists tl, snd (try_attempt operation conn a) =
                             CheckConnectivity k true :: Invoke k :: tl).
  { intros H. apply try_attempt_invoke in H. destruct H as [-> [H|H]]; auto.
    destruct (Nat.le_gt_cases a 1) as [Ha|Ha]; auto.
    right. now apply try_attempt_checked. }
  destruct (out a) as [v|e] eqn:Ea.
  - rewrite (loop_resolved _ _ _ _ Ea) in *. simpl in *.
    destruct (Hhere Hin) as [H|[tl ->]]; auto.
    right. exists [], tl. reflexivity.
  - destruct (Nat.eq_dec a maxRetries) as [->|Hne].
    + rewrite (loop_last _ _ _ Ea) in *. simpl in *.
      destruct (Hhere Hin) as [H|[tl ->]]; auto.
      right. exists [], tl. reflexivity.
    + rewrite (loop_rejected _ _ _ _ Ea Hne) in *. simpl in *.
      apply in_app_iff in Hin. destruct Hin as [Hin|[Hin|Hin]].
      * destruct (Hhere Hin) as [H|[tl ->]]; auto.
        right. exists [], (tl ++ Wait a (backoff random baseDelay a)
                                 :: snd (run rem (S a) (Some e)))%list.
        reflexivity.
      * discriminate.
      * destruct (IH _ _ _ Hin) as [H|[pre [post ->]]]; auto.
        right.
        exists (snd (try_attempt operation conn a)
                ++ Wait a (backoff random baseDelay a) :: pre)%list, post.
        now rewrite <- app_assoc.
Qed.

Lemma loop_offline_skips rem a last k :
  (2 <= k)%nat -> conn k = false ->
  out k = Rejected offline_message /\ ~ In (Invoke k) (snd (run rem a last)).
Proof.
  intros Hk Hc. split.
  - unfold out, attempt_outcome, try_attempt.
    destruct (Nat.ltb_spec 1 k) as [_|?]; [|lia]. now rewrite Hc.
  - intros Hin. apply loop_events in Hin.
    destruct Hin as [k' [_ [Hin|Hin]]]; [|discriminate].
    apply try_attempt_invoke in Hin. destruct Hin as [<- [H|H]]; [lia|congruence].
Qed.


End RetryFacts.



(** When the last attempt is the one found offline, the error raised is the
    wrapped one, carrying the connectivity message. *)
Example retryWithBackoff_offline_last :
  fst (App.retryWithBackoff (A := nat)
         (fun k => App.Rejected "boom")
         (fun k => negb (k =? 2)%nat) (fun _ => 0%Q) 2 1000 "CSV") =
  App.Rejected ("CSV 실패 (2회 시도): " ++ App.offline_message).
Proof. vm_compute. reflexivity. Qed.

(** ** Maps *)

Section MapFacts.
Context {K V : Type}.
Variable eqb : K -> K -> bool.
Hypothesis eqb_eq : forall a b, eqb a b = true <-> a = b.

Local Abbreviation get := (JsMap.get eqb).
Local Abbreviation set := (JsMap.set eqb).
Local Abbreviation delete := (JsMap.delete eqb).
Local Abbreviation keys := (@JsMap.keys K V).
Local Abbreviation wf := (@JsMap.wf K V).

Lemma eqb_refl k : eqb k k = true.
Proof. now apply eqb_eq. Qed.

Lemma eqb_neq a b : a <> b -> eqb a b = false.
Proof.
  intros H. destruct (eqb a b) eqn:E; [|reflexivity].
  apply eqb_eq in E. contradiction.
Qed.

Lemma get_None k (m : list (K * V)) : get k m = None <-> ~ In k (keys m).
Proof.
  induction m as [|[k' v] m IH]; simpl; [tauto|].
  destruct (eqb k k') eqn:E.
  - apply eqb_eq in E. subst. split; [discriminate|tauto].
  - rewrite IH. split; [|tauto].
    intros H [H'|H']; [|tauto]. subst. rewrite eqb_refl in E. discriminate.
Qed.

Lemma get_In k v (m : list (K * V)) : get k m = Some v -> In (k, v) m.
Proof.
  induction m as [|[k' v'] m IH]; simpl; [discriminate|].
  destruct (eqb k k') eqn:E; [|auto].
  apply eqb_eq in E. intros H. inversion H. subst. now left.
Qed.

Lemma In_get k v (m : list (K * V)) : wf m -> In (k, v) m -> get k m = Some v.
Proof.
  unfold JsMap.wf. induction m as [|[k' v'] m IH]; simpl; [tauto|].
  intros Hnd Hin. inversion Hnd as [|? ? Hnin Hnd']; subst.
  destruct Hin as [Hin|Hin].
  - inversion Hin; subst. now rewrite eqb_refl.
  - rewrite eqb_neq; [auto|].
    intros ->. apply Hnin. apply (in_map fst) in Hin. exact Hin.
Qed.

Lemma set_new k v (m : list (K * V)) :
  get k m = None -> set k v m = (m ++ [(k, v)])%list.
Proof.
  induction m as [|[k' v'] m IH]; simpl; [reflexivity|].
  destruct (eqb k k'); [discriminate|]. intros H. now rewrite IH.
Qed.

Lemma delete_head_app k v (a l : list (K * V)) :
  ~ In k (keys a) -> delete k (a ++ (k, v) :: l) = (a ++ l)%list.
Proof.
  induction a as [|[k' v'] a IH]; simpl; intros Hn.
  - now rewrite eqb_refl.
  - rewrite eqb_neq by (intros ->; tauto). rewrite IH; tauto.
Qed.

Lemma keys_delete_incl k (m : list (K * V)) x :
  In x (keys (delete k m)) -> In x (keys m).
Proof.
  induction m as [|[k' v'] m IH]; simpl; [tauto|].
  destruct (eqb k k'); simpl; tauto.
Qed.

Lemma wf_delete k (m : list (K * V)) : wf m -> wf (delete k m).
Proof.
  unfold JsMap.wf. induction m as [|[k' v'] m IH]; simpl; [auto|].
  intros Hnd. inversion Hnd as [|? ? Hnin Hnd']; subst.
  destruct (eqb k k'); [assumption|]. simpl. constructor; [|auto].
  intros Hin. apply Hnin. eapply keys_delete_incl. exact Hin.
Qed.

Lemma get_delete_same k (m : list (K * V)) : wf m -> get k (delete k m) = None.
Proof.
  unfold JsMap.wf. induction m as [|[k' v'] m IH]; simpl; [reflexivity|].
  intros Hnd. inversion Hnd as [|? ? Hnin Hnd']; subst.
  destruct (eqb k k') eqn:E.
  - apply eqb_eq in E. subst. now apply get_None.
  - simpl. rewrite E. auto.
Qed.

Lemma get_delete_other k k' (m : list (K * V)) :
  k' <> k -> get k' (delete k m) = get k' m.
Proof.
  intros Hne. induction m as [|[k0 v0] m IH]; simpl; [reflexivity|].
  destruct (eqb k k0) eqn:E.
  - apply eqb_eq in E. subst. now rewrite eqb_neq.
  - simpl. now rewrite IH.
Qed.

Lemma length_delete k v (m : list (K * V)) :
  get k m = Some v -> S (List.length (delete k m)) = List.length m.
Proof.
  induction m as [|[k' v'] m IH]; simpl; [discriminate|].
  destruct (eqb k k'); [reflexivity|]. simpl. intros H. now rewrite IH.
Qed.

(** A sweep over the map's own entries keeps exactly the entries that do
    not satisfy the condition. *)
Lemma delete_where_app cond (l : list (K * V)) : forall a,
  wf (a ++ l) ->
  JsMap.delete_where eqb cond l (a ++ l) =
  (a ++ filter (fun e => negb (cond e)) l)%list.
Proof.
  unfold JsMap.delete_where, JsMap.wf.
  induction l as [|[k v] l IH]; intros a Hnd; simpl; [reflexivity|].
  destruct (cond (k, v)) eqn:Ec; simpl.
  - assert (Hk : ~ In k (keys a) /\ NoDup (keys (a ++ l))).
    { unfold JsMap.keys in *. rewrite map_app in *. simpl in Hnd.
      split.
      - intros Hin. apply NoDup_remove_2 in Hnd. apply Hnd.
        apply in_or_app. now left.
      - now apply NoDup_remove_1 in Hnd. }
    destruct Hk as [Hk Hnd'].
    rewrite delete_head_app by exact Hk. now apply IH.
  - replace (a ++ (k, v) :: l)%list with ((a ++ [(k, v)]) ++ l)%list
      by (rewrite <- app_assoc; reflexivity).
    rewrite IH.
    + now rewrite <- app_assoc.
    + now rewrite <- app_assoc.
Qed.

Lemma delete_where_self cond (m : list (K * V)) :
  wf m ->
  JsMap.delete_where eqb cond m m = filter (fun e => negb (cond e)) m.
Proof. intros H. apply (delete_where_app cond m []). exact H. Qed.

End MapFacts.

(** ** The caches *)

Section Caches.
Import PDFViewer Spec.

Lemma key_eqb_eq (a b : PageKey) : key_eqb a b = true <-> a = b.
Proof.
  destruct a as [f p [n d]], b as [f' p' [n' d']]. unfold key_eqb. simpl.
  rewrite !andb_true_iff, String.eqb_eq, !Z.eqb_eq, Pos.eqb_eq.
  split.
  - intros [[[-> ->] ->] ->]. reflexivity.
  - intros H. inversion H. auto.
Qed.

(** C10: rendered pages expire on lookup. For an entry stored under
    [key]: if it is younger than five minutes the lookup returns its
    image and leaves the whole viewer, the entry's timestamp included, as
    it was; if it is five minutes old or older the lookup returns [null],
    the entry is gone afterwards, and nothing else changes. Without an
    entry the lookup returns [null] and changes nothing. *)
Theorem getCachedRenderedPage_expiry (key : PageKey) (now : Z) (s : t) :
  JsMap.wf (renderedPageCache s) ->
  match JsMap.get key_eqb key (renderedPageCache s) with
  | Some cached =>
      ((now - timestamp cached < 5 * 60 * 1000)%Z ->
       getCachedRenderedPage key now s = (Some (imageData cached), s)) /\
      ((5 * 60 * 1000 <= now - timestamp cached)%Z ->
       let r := getCachedRenderedPage key now s in
       fst r = None /\
       JsMap.get key_eqb key (renderedPageCache (snd r)) = None /\
       (forall k, k <> key ->
          JsMap.get key_eqb k (renderedPageCache (snd r)) =
          JsMap.get key_eqb k (renderedPageCache s)) /\
       snd r = with_renderedPageCache (renderedPageCache (snd r)) s)
  | None => getCachedRenderedPage key now s = (None, s)
  end.
Proof.
  intros Hwf. unfold getCachedRenderedPage.
  destruct (JsMap.get key_eqb key (renderedPageCache s)) as [cached|] eqn:E;
    [|reflexivity].
  split.
  - intros Hyoung. apply Z.ltb_lt in Hyoung. now rewrite Hyoung.
  - intros Hold. apply Z.ltb_ge in Hold. rewrite Hold. simpl.
    repeat split.
    + now apply (get_delete_same key_eqb key_eqb_eq).
    + intros k Hk. now apply (get_delete_other key_eqb key_eqb_eq).
Qed.

Lemma getCachedRenderedPage_expiry_witness :
  let key := mkKey "abc" 1 1 in
  let s := cacheRenderedPage key 7%nat 1000 init in
  getCachedRenderedPage key 300999 s = (Some 7%nat, s) /\
  fst (getCachedRenderedPage key 301000 s) = None /\
  renderedPageCache (snd (getCachedRenderedPage key 301000 s)) = [].
Proof.
  cbv zeta.
  pose proof (getCachedRenderedPage_expiry (mkKey "abc" 1 1) 300999
                (cacheRenderedPage (mkKey "abc" 1 1) 7%nat 1000 init)) as H.
  pose proof (getCachedRenderedPage_expiry (mkKey "abc" 1 1) 301000
                (cacheRenderedPage (mkKey "abc" 1 1) 7%nat 1000 init)) as H'.
  split.
  - apply H.
    + repeat constructor. simpl. tauto.
    + reflexivity.
  - split; [|reflexivity].
    apply H'.
    + repeat constructor. simpl. tauto.
    + simpl. lia.
Defined.

(** *** Sweeps *)

Lemma cleanup_step_eq now s e :
  ContentController.cleanup_step now s e =
  if image_idle now e
  then ContentController.mk
         (JsMap.delete String.eqb (fst e) (ContentController.imageCache s))
         (ContentController.maxCacheSize s)
         (ContentController.released s ++ [ContentController.image (snd e)])
  else s.
Proof. now destruct e. Qed.

Lemma pdf_cleanup_step_eq now s e :
  pdf_cleanup_step now s e =
  if pdf_idle now e
  then with_pdfCache (JsMap.delete String.eqb (fst e) (pdfCache s))
         (destroy (document (snd e)) s)
  else s.
Proof. now destruct e. Qed.

Lemma page_cleanup_step_eq now s e :
  page_cleanup_step now s e =
  if page_stale now e
  then with_renderedPageCache
         (JsMap.delete key_eqb (fst e) (renderedPageCache s)) s
  else s.
Proof. now destruct e. Qed.

Lemma image_cleanup_fold now l : forall s,
  fold_left (ContentController.cleanup_step now) l s =
  ContentController.mk
    (JsMap.delete_where String.eqb (image_idle now) l
       (ContentController.imageCache s))
    (ContentController.maxCacheSize s)
    (ContentController.released s
     ++ map (fun e => ContentController.image (snd e))
          (filter (image_idle now) l)).
Proof.
  induction l as [|e l IH]; intros s; simpl.
  - rewrite app_nil_r. now destruct s.
  - rewrite IH, cleanup_step_eq. unfold JsMap.delete_where. simpl.
    destruct (image_idle now e); simpl; [|reflexivity].
    now rewrite <- app_assoc.
Qed.

Lemma pdf_cleanup_fold now l : forall s,
  pdfCache (fold_left (pdf_cleanup_step now) l s) =
    JsMap.delete_where String.eqb (pdf_idle now) l (pdfCache s) /\
  destroyed (fold_left (pdf_cleanup_step now) l s) =
    (destroyed s ++ map (fun e => document (snd e)) (filter (pdf_idle now) l))%list /\
  renderedPageCache (fold_left (pdf_cleanup_step now) l s) = renderedPageCache s.
Proof.
  induction l as [|e l IH]; intros s; simpl.
  - now rewrite app_nil_r.
  - destruct (IH (pdf_cleanup_step now s e)) as [H1 [H2 H3]].
    rewrite H1, H2, H3, pdf_cleanup_step_eq. unfold JsMap.delete_where. simpl.
    destruct (pdf_idle now e); simpl; [|auto].
    now rewrite <- app_assoc.
Qed.

Lemma page_cleanup_fold now l : forall s,
  renderedPageCache (fold_left (page_cleanup_step now) l s) =
    JsMap.delete_where key_eqb (page_stale now) l (renderedPageCache s) /\
  pdfCache (fold_left (page_cleanup_step now) l s) = pdfCache s /\
  destroyed (fold_left (page_cleanup_step now) l s) = destroyed s.
Proof.
  induction l as [|e l IH]; intros s; simpl; [auto|].
  destruct (IH (page_cleanup_step now s e)) as [H1 [H2 H3]].
  rewrite H1, H2, H3, page_cleanup_step_eq. unfold JsMap.delete_where. simpl.
  destruct (page_stale now e); simpl; auto.
Qed.

(** C5: a sweep at time [now] keeps exactly the entries that are not idle.
    Images: removed when older than 10 minutes and accessed fewer than 3
    times, each removed image released once. PDF documents: removed when
    older than 15 minutes and accessed fewer than 2 times, each removed
    document destroyed once. Rendered pages: removed when older than 5
    minutes, whatever their use. In particular an entry whose access count
    is at or above the floor survives, whatever its age. *)
Theorem sweep_removes_idle (now : Z) (c : ContentController.t) (v : t) :
  JsMap.wf (ContentController.imageCache c) ->
  JsMap.wf (pdfCache v) ->
  JsMap.wf (renderedPageCache v) ->
  let c' := ContentController.performMemoryCleanup now c in
  let v' := performPdfMemoryCleanup now v in
  ContentController.imageCache c' =
    filter (fun e => negb (image_idle now e)) (ContentController.imageCache c) /\
  ContentController.released c' =
    (ContentController.released c
     ++ map (fun e => ContentController.image (snd e))
          (filter (image_idle now) (ContentController.imageCache c)))%list /\
  pdfCache v' = filter (fun e => negb (pdf_idle now e)) (pdfCache v) /\
  destroyed v' =
    (destroyed v
     ++ map (fun e => document (snd e))
          (filter (pdf_idle now) (pdfCache v)))%list /\
  renderedPageCache v' =
    filter (fun e => negb (page_stale now e)) (renderedPageCache v) /\
  (forall path e,
      In (path, e) (ContentController.imageCache c) ->
      (3 <= ContentController.accessCount e)%Z ->
      In (path, e) (ContentController.imageCache c')) /\
  (forall path e,
      In (path, e) (pdfCache v) -> (2 <= accessCount e)%Z ->
      In (path, e) (pdfCache v')).
Proof.
  intros Hc Hp Hr c' v'.
  assert (E1 : ContentController.imageCache c' =
               filter (fun e => negb (image_idle now e))
                 (ContentController.imageCache c)).
  { subst c'. unfold ContentController.performMemoryCleanup.
    rewrite image_cleanup_fold. simpl.
    apply (delete_where_self String.eqb String.eqb_eq). exact Hc. }
  assert (E3 : pdfCache v' = filter (fun e => negb (pdf_idle now e)) (pdfCache v)).
  { subst v'. unfold performPdfMemoryCleanup.
    destruct (page_cleanup_fold now
                (renderedPageCache (fold_left (pdf_cleanup_step now) (pdfCache v) v))
                (fold_left (pdf_cleanup_step now) (pdfCache v) v)) as [_ [-> _]].
    destruct (pdf_cleanup_fold now (pdfCache v) v) as [-> _].
    apply (delete_where_self String.eqb String.eqb_eq). exact Hp. }
  split; [exact E1|]. split.
  { subst c'. unfold ContentController.performMemoryCleanup.
    now rewrite image_cleanup_fold. }
  split; [exact E3|]. split.
  { subst v'. unfold performPdfMemoryCleanup.
    destruct (page_cleanup_fold now
                (renderedPageCache (fold_left (pdf_cleanup_step now) (pdfCache v) v))
                (fold_left (pdf_cleanup_step now) (pdfCache v) v)) as [_ [_ ->]].
    now destruct (pdf_cleanup_fold now (pdfCache v) v) as [_ [-> _]]. }
  split.
  { subst v'. unfold performPdfMemoryCleanup.
    destruct (page_cleanup_fold now
                (renderedPageCache (fold_left (pdf_cleanup_step now) (pdfCache v) v))
                (fold_left (pdf_cleanup_step now) (pdfCache v) v)) as [-> _].
    destruct (pdf_cleanup_fold now (pdfCache v) v) as [_ [_ ->]].
    apply (delete_where_self key_eqb key_eqb_eq). exact Hr. }
  split.
  - intros path e Hin Hac. rewrite E1. apply filter_In. split; [exact Hin|].
    unfold image_idle, idle. simpl.
    replace (ContentController.accessCount e <? 3)%Z with false
      by (symmetry; apply Z.ltb_ge; exact Hac).
    now rewrite andb_false_r.
  - intros path e Hin Hac. rewrite E3. apply filter_In. split; [exact Hin|].
    unfold pdf_idle, idle. simpl.
    replace (accessCount e <? 2)%Z with false
      by (symmetry; apply Z.ltb_ge; exact Hac).
    now rewrite andb_false_r.
Qed.

Lemma sweep_removes_idle_witness :
  let img := ContentController.mkImage 0 10 10 in
  let c := ContentController.mk
             [("a", ContentController.mkEntry img 0 1 400);
              ("b", ContentController.mkEntry img 0 3 400)] 20 [] in
  ContentController.imageCache (ContentController.performMemoryCleanup 1000000 c)
  = [("b", ContentController.mkEntry img 0 3 400)].
Proof.
  cbv zeta.
  destruct (sweep_removes_idle 1000000
              (ContentController.mk
                 [("a", ContentController.mkEntry
                          (ContentController.mkImage 0 10 10) 0 1 400);
                  ("b", ContentController.mkEntry
                          (ContentController.mkImage 0 10 10) 0 3 400)] 20 [])
              init) as [H _].
  - repeat constructor; simpl; intuition discriminate.
  - constructor.
  - constructor.
  - exact H.
Defined.

(** *** Eviction *)

Lemma oldest_fold cache : forall acc,
  let r := fold_left oldest_step cache acc in
  (snd r <= snd acc)%Z /\
  (forall k e, In (k, e) cache -> (snd r <= lastAccess e)%Z) /\
  ((r = acc /\ forall k e, In (k, e) cache -> (snd acc <= lastAccess e)%Z) \/
   (exists k e, In (k, e) cache /\ r = (Some k, lastAccess e) /\
                (lastAccess e < snd acc)%Z)).
Proof.
  induction cache as [|[k0 e0] cache IH]; intros acc; simpl.
  - split; [lia|]. split; [tauto|]. left. split; [reflexivity|tauto].
  - destruct (Z.ltb_spec (lastAccess e0) (snd acc)) as [Hlt|Hge].
    + destruct (IH (Some k0, lastAccess e0)) as [H1 [H2 H3]]. simpl in *.
      split; [lia|]. split.
      * intros k e [Hin|Hin]; [inversion Hin; subst; exact H1|eauto].
      * right. destruct H3 as [[Hr Hall]|[k [e [Hin [Hr Hlt']]]]].
        -- exists k0, e0. split; [now left|]. split; [exact Hr|exact Hlt].
        -- exists k, e. split; [now right|]. split; [exact Hr|lia].
    + destruct (IH acc) as [H1 [H2 H3]].
      split; [exact H1|]. split.
      * intros k e [Hin|Hin]; [inversion Hin; subst; lia|eauto].
      * destruct H3 as [[Hr Hall]|[k [e [Hin [Hr Hlt']]]]].
        -- left. split; [exact Hr|].
           intros k e [Hin|Hin]; [inversion Hin; subst; exact Hge|eauto].
        -- right. exists k, e. split; [now right|]. split; assumption.
Qed.

Lemma full_nonempty {A : Type} (m : list A) (n : nat) :
  (1 <= n)%nat -> List.length m = n -> exists x rest, m = x :: rest.
Proof. destruct m; simpl; intros; [lia|eauto]. Qed.

(** C1 (amended): inserting a new key into a cache that holds exactly
    [capacity] entries evicts exactly one entry before the new entry is
    stored, so the cache again holds [capacity] entries:
    - decoded-image cache and rendered-page cache: the evicted entry is
      the one inserted earliest (the first in insertion order), whatever
      the access times; the evicted image is released exactly once, and
      rendered pages have no disposal;
    - PDF-document cache, when some entry was last accessed strictly
      before the time of the insertion: the evicted entry has the least
      [lastAccess] of all entries, and its document is destroyed exactly
      once, within the same call. *)
Theorem insert_into_full_cache :
  (forall (imagePath : string) (img : ContentController.Image) (now : Z)
          (c : ContentController.t),
      JsMap.wf (ContentController.imageCache c) ->
      (1 <= ContentController.maxCacheSize c)%nat ->
      JsMap.size (ContentController.imageCache c)
        = ContentController.maxCacheSize c ->
      JsMap.get String.eqb imagePath (ContentController.imageCache c) = None ->
      exists k0 e0 rest,
        ContentController.imageCache c = (k0, e0) :: rest /\
        let c' := fst (ContentController.loadImageFromCache imagePath
                         (App.Resolved img) now c) in
        ContentController.imageCache c' =
          (rest ++ [(imagePath,
                     ContentController.mkEntry img now 1
                       (ContentController.estimateImageSize img))])%list /\
        ContentController.released c' =
          (ContentController.released c ++ [ContentController.image e0])%list) /\
  (forall (key : PageKey) (data : ImageData) (now : Z) (v : t),
      JsMap.wf (renderedPageCache v) ->
      (1 <= maxPageCacheSize v)%nat ->
      JsMap.size (renderedPageCache v) = maxPageCacheSize v ->
      JsMap.get key_eqb key (renderedPageCache v) = None ->
      exists k0 e0 rest,
        renderedPageCache v = (k0, e0) :: rest /\
        let v' := cacheRenderedPage key data now v in
        renderedPageCache v' = (rest ++ [(key, mkPageEntry data now)])%list /\
        destroyed v' = destroyed v) /\
  (forall (pdfPath : string) (doc : Document) (now : Z) (v : t),
      JsMap.wf (pdfCache v) ->
      JsMap.size (pdfCache v) = maxPdfCacheSize v ->
      JsMap.get String.eqb pdfPath (pdfCache v) = None ->
      ~ In "" (JsMap.keys (pdfCache v)) ->
      (exists k e, In (k, e) (pdfCache v) /\ (lastAccess e < now)%Z) ->
      exists kv ev,
        In (kv, ev) (pdfCache v) /\
        (forall k e, In (k, e) (pdfCache v) -> (lastAccess ev <= lastAccess e)%Z) /\
        let v' := cachePDF pdfPath doc now v in
        pdfCache v' =
          (JsMap.delete String.eqb kv (pdfCache v)
           ++ [(pdfPath, mkPdfEntry doc now now 1 (numPages doc))])%list /\
        destroyed v' = (destroyed v ++ [document ev])%list /\
        JsMap.size (pdfCache v') = maxPdfCacheSize v).
Proof.
  split; [|split].
  - intros imagePath img now c Hwf Hcap Hfull Hnew.
    destruct (full_nonempty _ _ Hcap Hfull) as [[k0 e0] [rest Ec]].
    exists k0, e0, rest. split; [exact Ec|].
    unfold ContentController.loadImageFromCache.
    rewrite Hnew, <- Hfull, Nat.leb_refl, Ec. simpl.
    rewrite String.eqb_refl. simpl.
    rewrite Ec in Hnew. simpl in Hnew.
    destruct (String.eqb imagePath k0); [discriminate|].
    rewrite (set_new String.eqb _ _ _ Hnew). split; reflexivity.
  - intros key data now v Hwf Hcap Hfull Hnew.
    destruct (full_nonempty _ _ Hcap Hfull) as [[k0 e0] [rest Ec]].
    exists k0, e0, rest. split; [exact Ec|].
    unfold cacheRenderedPage.
    rewrite <- Hfull, Nat.leb_refl, Ec. simpl.
    rewrite (eqb_refl key_eqb key_eqb_eq). simpl.
    rewrite Ec in Hnew. simpl in Hnew.
    destruct (key_eqb key k0); [discriminate|].
    rewrite (set_new key_eqb _ _ _ Hnew). split; reflexivity.
  - intros pdfPath doc now v Hwf Hfull Hnew Hkeys [k1 [e1 [Hin1 Hlt1]]].
    destruct (oldest_fold (pdfCache v) (None, now)) as [_ [Hmin Hcase]].
    fold (oldest now (pdfCache v)) in Hmin, Hcase. simpl in Hcase.
    destruct Hcase as [[_ Hall]|[kv [ev [Hin [Hr Hlt]]]]].
    { specialize (Hall _ _ Hin1). lia. }
    exists kv, ev. split; [exact Hin|]. split.
    { intros k e Hke. specialize (Hmin _ _ Hke). rewrite Hr in Hmin. exact Hmin. }
    assert (Hget : JsMap.get String.eqb kv (pdfCache v) = Some ev)
      by (apply (In_get String.eqb String.eqb_eq); assumption).
    assert (Hkv : String.eqb kv "" = false).
    { apply String.eqb_neq. intros ->. apply Hkeys.
      apply (in_map fst) in Hin. exact Hin. }
    assert (Hne : pdfPath <> kv) by (intros ->; congruence).
    unfold cachePDF. rewrite <- Hfull, Nat.leb_refl, Hr. simpl.
    rewrite Hkv, Hget. simpl.
    rewrite (set_new String.eqb);
      [|rewrite (get_delete_other String.eqb String.eqb_eq); assumption].
    split; [reflexivity|]. split; [reflexivity|].
    unfold JsMap.size. rewrite length_app. simpl.
    rewrite <- (length_delete String.eqb kv ev (pdfCache v) Hget). lia.
Qed.

Lemma insert_into_full_cache_witness :
  let img := ContentController.mkImage 0 10 10 in
  let c := ContentController.mk
             [("a", ContentController.mkEntry img 5 1 400);
              ("b", ContentController.mkEntry img 1 1 400)] 2 [] in
  let c' := fst (ContentController.loadImageFromCache "c" (App.Resolved img) 9 c) in
  JsMap.keys (ContentController.imageCache c') = ["b"; "c"] /\
  ContentController.released c' = [img].
Proof.
  cbv zeta.
  destruct (proj1 insert_into_full_cache "c"
              (ContentController.mkImage 0 10 10) 9%Z
              (ContentController.mk
                 [("a", ContentController.mkEntry
                          (ContentController.mkImage 0 10 10) 5 1 400);
                  ("b", ContentController.mkEntry
                          (ContentController.mkImage 0 10 10) 1 1 400)] 2 []))
    as [k0 [e0 [rest [E [H1 H2]]]]].
  - repeat constructor; simpl; intuition discriminate.
  - simpl. lia.
  - reflexivity.
  - reflexivity.
  - inversion E; subst. rewrite H1, H2. split; reflexivity.
Defined.

(** C1, as stated, fails on the decoded-image cache: the entry evicted is
    the first one inserted, even when it is the most recently accessed.
    Twenty images are cached at times 1 to 20 (the capacity of a fresh
    controller), the first one is displayed again at time 21, which
    refreshes its timestamp, and a twenty-first image is cached at time
    22: the first image is evicted, although every other entry was last
    accessed before it. *)
Lemma image_eviction_ignores_access :
  let name := fun k : nat => "mun/" ++ App.decimal k ++ ".png" in
  let img := fun k : nat => ContentController.mkImage k 10 10 in
  let filled :=
    fold_left
      (fun c k => fst (ContentController.loadImageFromCache (name k)
                         (App.Resolved (img k)) (Z.of_nat k) c))
      (seq 1 20) ContentController.init in
  let s := ContentController.displayProblemImage (name 1%nat)
             (App.Resolved (img 1%nat)) 21 21 filled in
  let s' := fst (ContentController.loadImageFromCache (name 21%nat)
                   (App.Resolved (img 21%nat)) 22 s) in
  JsMap.size (ContentController.imageCache s) = ContentController.maxCacheSize s /\
  map (fun e => ContentController.timestamp (snd e))
      (ContentController.imageCache s) = 21%Z :: map Z.of_nat (seq 2 19) /\
  JsMap.keys (ContentController.imageCache s') = map name (seq 2 20) /\
  ContentController.released s' = [img 1%nat].
Proof. vm_compute. repeat split. Qed.

(** The scan of [cachePDF] compares with the current time strictly: when
    no entry was accessed before the current millisecond, nothing is
    evicted and the cache grows beyond its capacity. *)
Example cachePDF_same_millisecond :
  let doc := fun k : nat => mkDocument k 3 None in
  let filled :=
    fold_left (fun v k => cachePDF (App.decimal k) (doc k) 100 v)
      (seq 1 5) init in
  let v' := cachePDF "6" (doc 6%nat) 100 filled in
  JsMap.size (pdfCache filled) = 5%nat /\ JsMap.size (pdfCache v') = 6%nat /\
  destroyed v' = [].
Proof. vm_compute. repeat split. Qed.

End Caches.

(** ** The pager *)

Section Pager.
Import PDFViewer Spec.

Lemma get_set_same {K V : Type} (eqb : K -> K -> bool)
    (Heq : forall a b, eqb a b = true <-> a = b) k (v : V) m :
  JsMap.get eqb k (JsMap.set eqb k v m) = Some v.
Proof.
  induction m as [|[k' v'] m IH]; simpl.
  - now rewrite (eqb_refl eqb Heq).
  - destruct (eqb k k') eqn:E; simpl.
    + now rewrite (eqb_refl eqb Heq).
    + now rewrite E.
Qed.

Local Arguments cachePDF : simpl never.
Local Arguments renderPage : simpl never.
Local Arguments cacheRenderedPage : simpl never.
Local Arguments getCachedRenderedPage : simpl never.

(** Destructs every [match] and [if] of the goal. *)
Ltac branches :=
  repeat match goal with
  | |- context [match ?x with _ => _ end] => destruct x eqn:?
  end.

Lemma same_document_refl s : same_document s s.
Proof. repeat split. Qed.

Lemma getCachedRenderedPage_frame key now s :
  same_document s (snd (getCachedRenderedPage key now s)) /\
  currentPage (snd (getCachedRenderedPage key now s)) = currentPage s.
Proof.
  unfold getCachedRenderedPage. branches; simpl; repeat split.
Qed.

Lemma cacheRenderedPage_frame key data now s :
  same_document s (cacheRenderedPage key data now s) /\
  currentPage (cacheRenderedPage key data now s) = currentPage s /\
  canvas (cacheRenderedPage key data now s) = canvas s.
Proof.
  unfold cacheRenderedPage. branches; simpl; repeat split.
Qed.

Lemma renderPage_frame n env s :
  same_document s (renderPage n env s) /\
  (currentPage (renderPage n env s) = n \/
   currentPage (renderPage n env s) = currentPage s).
Proof.
  unfold renderPage.
  destruct (pdfDocument s) as [doc|] eqn:Ed;
    [|split; [apply same_document_refl|now right]].
  destruct ((n <? 1)%Z || (n >? totalPages s)%Z);
    [split; [apply same_document_refl|now right]|].
  pose proof (getCachedRenderedPage_frame (cacheKey doc n (scale s))
                (lookupTime env) s) as [Hd Hc].
  destruct (getCachedRenderedPage (cacheKey doc n (scale s)) (lookupTime env) s)
    as [[img|] s1]; simpl in Hd, Hc.
  - split; [exact Hd|now left].
  - destruct (rendered env) as [data|].
    + pose proof (cacheRenderedPage_frame (cacheKey doc n (scale s)) data
                    (storeTime env) (with_canvas (Some data) s1))
        as [Hd' [Hc' _]].
      split; [|now left].
      unfold same_document in *. simpl in *. intuition congruence.
    + split; [exact Hd|right; exact Hc].
Qed.

(** C9: while a load is in progress, another [loadPDF] call returns at
    once, without an error, and leaves the viewer exactly as it was: no
    request is issued, and the document, the page numbers and both caches
    are untouched. *)
Theorem loadPDF_while_loading (pdfPath : string) (env : LoadEnv) (s : t) :
  isLoading s = true ->
  loadPDF pdfPath env s = (s, App.Resolved tt).
Proof. intros H. unfold loadPDF. now rewrite H. Qed.

Lemma loadPDF_while_loading_witness :
  let env := mkLoadEnv true 5 (Response true 200 "OK" None)
               (PdfLoaded (Some (mkDocument 1 3 None))) 6
               (mkRenderEnv 7 (Some 1%nat) 8) in
  loadPDF "sol/20220601.pdf" env (with_isLoading true init)
  = (with_isLoading true init, App.Resolved tt).
Proof.
  cbv zeta. apply loadPDF_while_loading. reflexivity.
Defined.

Lemma cachePDF_frame pdfPath doc now s :
  pdfDocument (cachePDF pdfPath doc now s) = pdfDocument s /\
  currentPage (cachePDF pdfPath doc now s) = currentPage s /\
  totalPages (cachePDF pdfPath doc now s) = totalPages s /\
  scale (cachePDF pdfPath doc now s) = scale s /\
  JsMap.get String.eqb pdfPath (pdfCache (cachePDF pdfPath doc now s)) =
    Some (mkPdfEntry doc now now 1 (numPages doc)).
Proof.
  unfold cachePDF. branches; simpl; repeat split;
    apply (get_set_same String.eqb String.eqb_eq).
Qed.

Lemma loadPDF_try_success pdfPath env s :
  snd (loadPDF_try pdfPath env s) = App.Resolved tt ->
  let s' := fst (loadPDF_try pdfPath env s) in
  currentPage s' = 1%Z /\ scale s' = scale s /\
  exists cached,
    JsMap.get String.eqb pdfPath (pdfCache s') = Some cached /\
    pdfDocument s' = Some (document cached).
Proof.
  unfold loadPDF_try.
  destruct (JsMap.get String.eqb pdfPath (pdfCache s)) as [cachedPdf|] eqn:E.
  - intros _. cbn [fst currentPage with_pdfCache with_currentPage].
    match goal with
    | |- context [renderPage 1 ?e ?s0] =>
        destruct (renderPage_frame 1 e s0) as [Hd Hc]; revert Hd Hc;
        generalize (renderPage 1 e s0)
    end.
    intros r Hd Hc. unfold same_document in Hd. simpl in Hd, Hc.
    destruct Hd as [Hdoc [_ [Hscale [_ [Hcache _]]]]].
    simpl. split; [tauto|]. split; [exact Hscale|].
    exists (mkPdfEntry (document cachedPdf) (loadTime cachedPdf) (accessTime env)
              (accessCount cachedPdf + 1) (entryPages cachedPdf)).
    rewrite Hcache, Hdoc. split; [|reflexivity].
    apply (get_set_same String.eqb String.eqb_eq).
  - destruct (pdfjsLibDefined env); cbn [negb]; [|discriminate].
    destruct (head env) as [m|ok status statusText ct].
    { destruct (includes m "Failed to fetch" || includes m "NetworkError");
        discriminate. }
    destruct ok; cbn [negb]; [|discriminate].
    destruct (loaded env) as [[doc|]|name message]; try discriminate.
    cbv zeta. cbn [totalPages with_totalPages].
    destruct (numPages doc =? 0)%Z; [discriminate|].
    intros _. cbn [fst].
    match goal with
    | |- context [renderPage ?n ?e (cachePDF ?p ?d ?t0 ?s0)] =>
        destruct (renderPage_frame n e (cachePDF p d t0 s0)) as [Hd Hc];
        destruct (cachePDF_frame p d t0 s0) as [F1 [F2 [F3 [F4 F5]]]];
        revert Hd Hc; generalize (renderPage n e (cachePDF p d t0 s0))
    end.
    intros r Hd Hc. unfold same_document in Hd.
    destruct Hd as [Hdoc [_ [Hscale [_ [Hcache _]]]]].
    unfold hideLoadingState, with_loadingShown.
    cbn [currentPage scale pdfCache pdfDocument].
    split; [destruct Hc as [Hc|Hc]; rewrite Hc, ?F2; reflexivity|].
    split; [rewrite Hscale, F4; reflexivity|].
    exists (mkPdfEntry doc (cacheTime env) (cacheTime env) 1 (numPages doc)).
    rewrite Hcache, Hdoc, F1, F5. split; reflexivity.
Qed.

(** C3 (amended): whenever [loadPDF(path)] succeeds by a document-cache
    hit or by a fresh fetch and parse (that is, it was not called while
    another load was in progress), [currentPage] is 1 afterwards, the
    scale is the one the viewer had before the call, and the document
    cache holds under [path] an entry whose document is the viewer's
    current document. *)
Theorem loadPDF_success (pdfPath : string) (env : LoadEnv) (s : t) :
  isLoading s = false ->
  snd (loadPDF pdfPath env s) = App.Resolved tt ->
  let s' := fst (loadPDF pdfPath env s) in
  currentPage s' = 1%Z /\ scale s' = scale s /\
  exists cached,
    JsMap.get String.eqb pdfPath (pdfCache s') = Some cached /\
    pdfDocument s' = Some (document cached).
Proof.
  intros Hl. unfold loadPDF. rewrite Hl.
  destruct (String.eqb (JS.trim pdfPath) ""); [discriminate|].
  pose proof (loadPDF_try_success pdfPath env
                (hideError (showLoadingState (with_isLoading true s)))) as H.
  destruct (loadPDF_try pdfPath env
              (hideError (showLoadingState (with_isLoading true s))))
    as [s1 [[]|message]]; simpl in *; [|discriminate].
  intros _. exact (H eq_refl).
Qed.

Lemma loadPDF_success_witness :
  let env := mkLoadEnv true 5 (Response true 200 "OK" (Some "application/pdf"))
               (PdfLoaded (Some (mkDocument 1 3 (Some "f1")))) 6
               (mkRenderEnv 7 (Some 1%nat) 8) in
  let s' := fst (loadPDF "sol/20220601.pdf" env init) in
  currentPage s' = 1%Z /\ scale s' = scale init /\
  exists cached,
    JsMap.get String.eqb "sol/20220601.pdf" (pdfCache s') = Some cached /\
    pdfDocument s' = Some (document cached).
Proof.
  cbv zeta. apply loadPDF_success; reflexivity.
Defined.

(** C3, as stated, fails: [loadPDF] never assigns the scale. After a
    first document is loaded and zoomed in once, loading a second
    document (fresh fetch) or the first one again (cache hit) succeeds
    and leaves the scale at 1.25. *)
Lemma loadPDF_keeps_scale :
  let renv := mkRenderEnv 10 (Some 1%nat) 10 in
  let env := fun k : nat =>
    mkLoadEnv true 5 (Response true 200 "OK" (Some "application/pdf"))
      (PdfLoaded (Some (mkDocument k 3 (Some (App.decimal k))))) 6 renv in
  let s1 := fst (loadPDF "sol/20220601.pdf" (env 1%nat) init) in
  let s2 := zoomIn renv s1 in
  let fresh := loadPDF "sol/20220602.pdf" (env 2%nat) s2 in
  let hit := loadPDF "sol/20220601.pdf" (env 1%nat) s2 in
  isLoading s2 = false /\
  snd fresh = App.Resolved tt /\ scale (fst fresh) = (5 # 4)%Q /\
  snd hit = App.Resolved tt /\ scale (fst hit) = (5 # 4)%Q /\
  requests (fst hit) = requests s2 /\
  Qeq_bool (5 # 4) 1 = false.
Proof. vm_compute. repeat split. Qed.

(** *** Zoom *)

Lemma scale_renderPage n env s : scale (renderPage n env s) = scale s.
Proof. destruct (renderPage_frame n env s) as [H _]. apply H. Qed.

Lemma scale_cachePDF p d now s : scale (cachePDF p d now s) = scale s.
Proof. apply cachePDF_frame. Qed.

Lemma scale_hideLoadingState s : scale (hideLoadingState s) = scale s.
Proof. reflexivity. Qed.

Lemma scale_loadPDF_try pdfPath env s :
  scale (fst (loadPDF_try pdfPath env s)) = scale s.
Proof.
  unfold loadPDF_try.
  destruct (JsMap.get String.eqb pdfPath (pdfCache s)) as [cachedPdf|].
  - cbn [fst]. now rewrite scale_hideLoadingState, scale_renderPage.
  - destruct (pdfjsLibDefined env); cbn [negb]; [|reflexivity].
    destruct (head env) as [m|ok status statusText ct].
    { destruct (includes m "Failed to fetch" || includes m "NetworkError");
        reflexivity. }
    destruct ok; cbn [negb]; [|reflexivity].
    destruct (loaded env) as [[doc|]|name message]; try reflexivity.
    cbv zeta. cbn [totalPages with_totalPages].
    destruct (numPages doc =? 0)%Z; [reflexivity|].
    cbn [fst].
    now rewrite scale_hideLoadingState, scale_renderPage, scale_cachePDF.
Qed.

Lemma scale_loadPDF pdfPath env s : scale (fst (loadPDF pdfPath env s)) = scale s.
Proof.
  unfold loadPDF.
  destruct (isLoading s); [reflexivity|].
  destruct (String.eqb (JS.trim pdfPath) ""); [reflexivity|].
  pose proof (scale_loadPDF_try pdfPath env
                (hideError (showLoadingState (with_isLoading true s)))) as H.
  destruct (loadPDF_try pdfPath env
              (hideError (showLoadingState (with_isLoading true s))))
    as [s1 [v|m]]; exact H.
Qed.

Lemma scale_fold_destroy (l : list (string * PdfEntry)) : forall s,
  scale (fold_left (fun s e => destroy (document (snd e)) s) l s) = scale s.
Proof.
  induction l as [|e l IH]; intros s; simpl; [reflexivity|]. now rewrite IH.
Qed.

Lemma scale_pdf_cleanup now l : forall s,
  scale (fold_left (pdf_cleanup_step now) l s) = scale s.
Proof.
  induction l as [|e l IH]; intros s; simpl; [reflexivity|].
  rewrite IH, pdf_cleanup_step_eq. now destruct (pdf_idle now e).
Qed.

Lemma scale_page_cleanup now l : forall s,
  scale (fold_left (page_cleanup_step now) l s) = scale s.
Proof.
  induction l as [|e l IH]; intros s; simpl; [reflexivity|].
  rewrite IH, page_cleanup_step_eq. now destruct (page_stale now e).
Qed.

Lemma guard_passes z :
  Qltb z (1 # 2) || Qltb 3 z = false <-> (1 # 2 <= z)%Q /\ (z <= 3)%Q.
Proof.
  unfold Qltb. rewrite orb_false_iff, !negb_false_iff, !Qle_bool_iff. tauto.
Qed.

Lemma setZoom_accepted z env s doc :
  pdfDocument s = Some doc -> (1 # 2 <= z)%Q /\ (z <= 3)%Q ->
  setZoom z env s = renderPage (currentPage s) env (with_scale z s).
Proof.
  intros Hd Hz. unfold setZoom. rewrite Hd.
  apply guard_passes in Hz. now rewrite Hz.
Qed.

Lemma setZoom_scale_ok z env s : scale_ok s -> scale_ok (setZoom z env s).
Proof.
  intros Hs. unfold setZoom.
  destruct (pdfDocument s); [|exact Hs].
  destruct (Qltb z (1 # 2) || Qltb 3 z) eqn:E; [exact Hs|].
  apply guard_passes in E.
  unfold scale_ok. now rewrite scale_renderPage.
Qed.

Lemma run_scale_ok c s : scale_ok s -> scale_ok (run c s).
Proof.
  intros Hs. destruct c; simpl.
  - unfold scale_ok. now rewrite scale_loadPDF.
  - unfold scale_ok. now rewrite scale_renderPage.
  - unfold nextPage. branches; unfold scale_ok; now rewrite ?scale_renderPage.
  - unfold previousPage. branches; unfold scale_ok; now rewrite ?scale_renderPage.
  - unfold goToPage. branches; unfold scale_ok; now rewrite ?scale_renderPage.
  - unfold zoomIn. destruct (pdfDocument s); [|exact Hs].
    now apply setZoom_scale_ok.
  - unfold zoomOut. destruct (pdfDocument s); [|exact Hs].
    now apply setZoom_scale_ok.
  - now apply setZoom_scale_ok.
  - unfold resetZoom. destruct (pdfDocument s); [|exact Hs].
    destruct fit; [|exact Hs]. now apply setZoom_scale_ok.
  - unfold hidePDF_timeout, scale_ok. simpl. split; discriminate.
  - unfold performPdfMemoryCleanup, scale_ok.
    now rewrite scale_page_cleanup, scale_pdf_cleanup.
  - unfold clearPdfCache, scale_ok. simpl. now rewrite scale_fold_destroy.
Qed.

Lemma run_all_scale_ok cs : forall s, scale_ok s -> scale_ok (run_all cs s).
Proof.
  unfold run_all. induction cs as [|c cs IH]; intros s Hs; simpl; [exact Hs|].
  apply IH. now apply run_scale_ok.
Qed.

Lemma Qmin_cases a b :
  (Qmin a b = a /\ (a <= b)%Q) \/ (Qmin a b = b /\ (b < a)%Q).
Proof.
  unfold Qmin. destruct (Qle_bool a b) eqn:E.
  - left. split; [reflexivity|]. now apply Qle_bool_iff.
  - right. split; [reflexivity|]. apply Qnot_le_lt. intros H.
    apply Qle_bool_iff in H. congruence.
Qed.

Lemma Qmax_cases a b :
  (Qmax a b = b /\ (a <= b)%Q) \/ (Qmax a b = a /\ (b < a)%Q).
Proof.
  unfold Qmax. destruct (Qle_bool a b) eqn:E.
  - left. split; [reflexivity|]. now apply Qle_bool_iff.
  - right. split; [reflexivity|]. apply Qnot_le_lt. intros H.
    apply Qle_bool_iff in H. congruence.
Qed.

Lemma zoomIn_scale env s doc :
  pdfDocument s = Some doc -> scale_ok s ->
  scale (zoomIn env s) = Qmin (scale s * (5 # 4)) 3.
Proof.
  intros Hd [Hlo Hhi]. unfold zoomIn. rewrite Hd.
  rewrite (setZoom_accepted _ _ _ doc Hd); [now rewrite scale_renderPage|].
  destruct (Qmin_cases (scale s * (5 # 4)) 3) as [[-> H]|[-> H]]; split; lra.
Qed.

Lemma zoomOut_scale env s doc :
  pdfDocument s = Some doc -> scale_ok s ->
  scale (zoomOut env s) = Qmax (scale s * (4 # 5)) (1 # 2).
Proof.
  intros Hd [Hlo Hhi]. unfold zoomOut. rewrite Hd.
  rewrite (setZoom_accepted _ _ _ doc Hd); [now rewrite scale_renderPage|].
  destruct (Qmax_cases (scale s * (4 # 5)) (1 # 2)) as [[-> H]|[-> H]];
    split; lra.
Qed.

Lemma setZoom_rejected z env s :
  (z < 1 # 2)%Q \/ (3 < z)%Q -> setZoom z env s = s.
Proof.
  intros Hz. unfold setZoom. destruct (pdfDocument s); [|reflexivity].
  destruct (Qltb z (1 # 2) || Qltb 3 z) eqn:E; [reflexivity|].
  apply guard_passes in E. lra.
Qed.

Lemma cacheRenderedPage_get key data now s :
  JsMap.get key_eqb key (renderedPageCache (cacheRenderedPage key data now s))
  = Some (mkPageEntry data now).
Proof.
  unfold cacheRenderedPage. branches; simpl;
    apply (get_set_same key_eqb key_eqb_eq).
Qed.

(** Rendering a page of the document shows an image that the cache then
    holds under the key of that page at the current scale. *)
Lemma renderPage_valid n env s doc data :
  pdfDocument s = Some doc -> (1 <= n <= totalPages s)%Z ->
  rendered env = Some data ->
  exists img entry,
    canvas (renderPage n env s) = Some img /\
    JsMap.get key_eqb (cacheKey doc n (scale s))
      (renderedPageCache (renderPage n env s)) = Some entry /\
    imageData entry = img.
Proof.
  intros Hd Hn Hr. unfold renderPage. rewrite Hd.
  replace ((n <? 1)%Z || (n >? totalPages s)%Z) with false
    by (symmetry; apply orb_false_iff; split;
        [apply Z.ltb_ge|rewrite Z.gtb_ltb; apply Z.ltb_ge]; lia).
  unfold getCachedRenderedPage.
  destruct (JsMap.get key_eqb (cacheKey doc n (scale s)) (renderedPageCache s))
    as [cached|] eqn:E.
  - destruct (lookupTime env - timestamp cached <? 5 * 60 * 1000)%Z.
    + exists (imageData cached), cached. simpl. auto.
    + rewrite Hr. exists data, (mkPageEntry data (storeTime env)).
      cbn [canvas renderedPageCache with_currentPage].
      destruct (cacheRenderedPage_frame (cacheKey doc n (scale s)) data
                  (storeTime env)
                  (with_canvas (Some data)
                     (with_renderedPageCache
                        (JsMap.delete key_eqb (cacheKey doc n (scale s))
                           (renderedPageCache s)) s))) as [_ [_ Hc]].
      rewrite Hc, cacheRenderedPage_get. simpl. auto.
  - rewrite Hr. exists data, (mkPageEntry data (storeTime env)).
    cbn [canvas renderedPageCache with_currentPage].
    destruct (cacheRenderedPage_frame (cacheKey doc n (scale s)) data
                (storeTime env) (with_canvas (Some data) s)) as [_ [_ Hc]].
    rewrite Hc, cacheRenderedPage_get. simpl. auto.
Qed.



Example zoom_sequence :
  let renv := mkRenderEnv 10 (Some 1%nat) 10 in
  let env :=
    mkLoadEnv true 5 (Response true 200 "OK" (Some "application/pdf"))
      (PdfLoaded (Some (mkDocument 1 3 (Some "f1")))) 6 renv in
  let s := run_all [LoadPDF "sol/20220601.pdf" env; ZoomIn renv; ZoomIn renv;
                    ZoomIn renv; ZoomIn renv; ZoomIn renv; ZoomIn renv] init in
  Qeq_bool (scale s) 3 = true /\
  Qeq_bool (scale (run_all [SetZoom (7 # 2) renv; ZoomOut renv] s)) (12 # 5) = true.
Proof. vm_compute. split; reflexivity. Qed.

End Pager.

(** ** The selection state as a whole *)

Section Selection.
Import UIState.

Lemma grows_refl s : grows s s.
Proof. exists []. now rewrite app_nil_r. Qed.

Lemma grows_trans s1 s2 s3 : grows s1 s2 -> grows s2 s3 -> grows s1 s3.
Proof.
  intros [a [Ha Fa]] [b [Hb Fb]]. exists (a ++ b)%list. split.
  - now rewrite Hb, Ha, app_assoc.
  - now apply Forall_app.
Qed.

Lemma grows_same s s' : notified s' = notified s -> grows s s'.
Proof. intros H. exists []. now rewrite app_nil_r. Qed.

Lemma grows_notify p o n s s' :
  strict_neq o n = true -> is_name p = true ->
  grows s s' -> grows s (notifyStateChange p o n s').
Proof.
  intros Hc Hp [a [Ha Fa]]. exists (a ++ [(p, o, n)])%list. split.
  - cbn. now rewrite Ha, app_assoc.
  - apply Forall_app. split; [assumption|]. constructor; [|constructor].
    now split.
Qed.

Lemma setPdfError_grows e s : grows s (setPdfError e s).
Proof.
  unfold setPdfError. cbv zeta.
  destruct (strict_neq _ _) eqn:E.
  - apply grows_notify; [assumption|reflexivity|]. now apply grows_same.
  - now apply grows_same.
Qed.

Lemma setErrorMessage_grows e s : grows s (setErrorMessage e s).
Proof.
  unfold setErrorMessage. cbv zeta.
  destruct (strict_neq _ _) eqn:E.
  - apply grows_notify; [assumption|reflexivity|]. now apply grows_same.
  - now apply grows_same.
Qed.

Lemma setCurrentProblem_grows p s : grows s (setCurrentProblem p s).
Proof.
  unfold setCurrentProblem. cbv zeta.
  destruct (strict_neq _ _) eqn:E.
  - apply grows_notify; [assumption|reflexivity|]. now apply grows_same.
  - now apply grows_same.
Qed.

Lemma setSolutionVisible_grows v s : grows s (setSolutionVisible v s).
Proof.
  unfold setSolutionVisible. cbv zeta.
  destruct (strict_neq _ _) eqn:E; [|now apply grows_same].
  apply grows_notify; [assumption|reflexivity|].
  destruct (negb v).
  - eapply grows_trans; [|apply setPdfError_grows]. now apply grows_same.
  - now apply grows_same.
Qed.

Lemma setLoading_grows v s : grows s (setLoading v s).
Proof.
  unfold setLoading. cbv zeta.
  destruct (strict_neq _ _) eqn:E; [|now apply grows_same].
  apply grows_notify; [assumption|reflexivity|].
  destruct v.
  - eapply grows_trans; [|apply setErrorMessage_grows]. now apply grows_same.
  - now apply grows_same.
Qed.

Lemma setPdfLoading_grows v s : grows s (setPdfLoading v s).
Proof.
  unfold setPdfLoading. cbv zeta.
  destruct (strict_neq _ _) eqn:E; [|now apply grows_same].
  apply grows_notify; [assumption|reflexivity|].
  destruct v.
  - eapply grows_trans; [|apply setPdfError_grows]. now apply grows_same.
  - now apply grows_same.
Qed.

Lemma setSelectedQuestion_grows q s : grows s (setSelectedQuestion q s).
Proof.
  unfold setSelectedQuestion. cbv zeta.
  destruct (strict_neq _ _) eqn:E; [|now apply grows_same].
  apply grows_notify; [assumption|reflexivity|].
  eapply grows_trans; [|apply setSolutionVisible_grows].
  eapply grows_trans; [|apply setCurrentProblem_grows].
  now apply grows_same.
Qed.

Lemma setSelectedMonth_grows m s : grows s (setSelectedMonth m s).
Proof.
  unfold setSelectedMonth. cbv zeta.
  destruct (strict_neq _ _) eqn:E; [|now apply grows_same].
  apply grows_notify; [assumption|reflexivity|].
  eapply grows_trans; [|apply setSelectedQuestion_grows].
  now apply grows_same.
Qed.

Lemma setSelectedYear_grows y s : grows s (setSelectedYear y s).
Proof.
  unfold setSelectedYear. cbv zeta.
  destruct (strict_neq _ _) eqn:E; [|now apply grows_same].
  apply grows_notify; [assumption|reflexivity|].
  eapply grows_trans; [|apply setSelectedQuestion_grows].
  eapply grows_trans; [|apply setSelectedMonth_grows].
  now apply grows_same.
Qed.

Lemma reset_grows s : grows s (reset s).
Proof.
  unfold reset. cbv zeta.
  repeat (eapply grows_trans;
          [|first [apply setPdfError_grows | apply setPdfLoading_grows
                  | apply setErrorMessage_grows | apply setLoading_grows
                  | apply setSolutionVisible_grows
                  | apply setCurrentProblem_grows
                  | apply setSelectedQuestion_grows
                  | apply setSelectedMonth_grows]]).
  apply setSelectedYear_grows.
Qed.

Lemma run_grows c s : grows s (run c s).
Proof.
  destruct c; cbn [run];
    auto using setPdfError_grows, setPdfLoading_grows, setErrorMessage_grows,
      setLoading_grows, setSolutionVisible_grows, setCurrentProblem_grows,
      setSelectedQuestion_grows, setSelectedMonth_grows,
      setSelectedYear_grows, reset_grows.
Qed.

(** Whatever sequence of mutators has run on a fresh [UIState], every
    notification issued so far reports a real change: the old and new
    values differ, and the property is one of the nine state properties. *)
Theorem notifications_are_changes (s : t) :
  reachable s ->
  forall p o n, In (p, o, n) (notified s) ->
    o <> n /\ In p names.
Proof.
  intros Hr. 
  assert (Forall is_change (notified s)) as F.
  { induction Hr as [|c s Hr IH]; [constructor|].
    destruct (run_grows c s) as [ns [Hn Fn]]. rewrite Hn.
    apply Forall_app. now split. }
  intros p o n Hin. rewrite Forall_forall in F.
  destruct (F _ Hin) as [Hc Hp]. split.
  - now apply strict_neq_true_iff.
  - now apply existsb_eqb_In.
Qed.


(** *** What each setter does to each property *)

Ltac fields :=
  cbn [notifyStateChange with_selectedYear with_selectedMonth
       with_selectedQuestion with_isLoading with_isSolutionVisible
       with_currentProblem with_errorMessage with_isPdfLoading with_pdfError
       selectedYear selectedMonth selectedQuestion isLoading
       isSolutionVisible currentProblem errorMessage isPdfLoading pdfError].

Lemma setPdfError_fields e s :
  let s' := setPdfError e s in
  selectedYear s' = selectedYear s /\ selectedMonth s' = selectedMonth s /\
  selectedQuestion s' = selectedQuestion s /\ isLoading s' = isLoading s /\
  isSolutionVisible s' = isSolutionVisible s /\
  currentProblem s' = currentProblem s /\ errorMessage s' = errorMessage s /\
  isPdfLoading s' = isPdfLoading s /\ pdfError s' = e.
Proof.
  unfold setPdfError. cbv zeta. destruct (strict_neq _ _); fields;
    repeat split.
Qed.

Lemma setErrorMessage_fields e s :
  let s' := setErrorMessage e s in
  selectedYear s' = selectedYear s /\ selectedMonth s' = selectedMonth s /\
  selectedQuestion s' = selectedQuestion s /\ isLoading s' = isLoading s /\
  isSolutionVisible s' = isSolutionVisible s /\
  currentProblem s' = currentProblem s /\ errorMessage s' = e /\
  isPdfLoading s' = isPdfLoading s /\ pdfError s' = pdfError s.
Proof.
  unfold setErrorMessage. cbv zeta. destruct (strict_neq _ _); fields;
    repeat split.
Qed.

Lemma setCurrentProblem_fields p s :
  let s' := setCurrentProblem p s in
  selectedYear s' = selectedYear s /\ selectedMonth s' = selectedMonth s /\
  selectedQuestion s' = selectedQuestion s /\ isLoading s' = isLoading s /\
  isSolutionVisible s' = isSolutionVisible s /\
  currentProblem s' = p /\ errorMessage s' = errorMessage s /\
  isPdfLoading s' = isPdfLoading s /\ pdfError s' = pdfError s.
Proof.
  unfold setCurrentProblem. cbv zeta. destruct (strict_neq _ _); fields;
    repeat split.
Qed.

(** Hiding a visible solution also clears the PDF error. *)
Lemma setSolutionVisible_fields v s :
  let s' := setSolutionVisible v s in
  selectedYear s' = selectedYear s /\ selectedMonth s' = selectedMonth s /\
  selectedQuestion s' = selectedQuestion s /\ isLoading s' = isLoading s /\
  isSolutionVisible s' = v /\
  currentProblem s' = currentProblem s /\ errorMessage s' = errorMessage s /\
  isPdfLoading s' = isPdfLoading s /\
  pdfError s' = if isSolutionVisible s && negb v then None else pdfError s.
Proof.
  unfold setSolutionVisible. cbv zeta.
  destruct v, (isSolutionVisible s); cbn [strict_neq Bool.eqb negb andb];
    fields; repeat split;
    apply (setPdfError_fields None (with_isSolutionVisible false s)).
Qed.

Lemma setLoading_fields v s :
  let s' := setLoading v s in
  selectedYear s' = selectedYear s /\ selectedMonth s' = selectedMonth s /\
  selectedQuestion s' = selectedQuestion s /\ isLoading s' = v /\
  isSolutionVisible s' = isSolutionVisible s /\
  currentProblem s' = currentProblem s /\
  errorMessage s' = (if negb (isLoading s) && v then None else errorMessage s) /\
  isPdfLoading s' = isPdfLoading s /\ pdfError s' = pdfError s.
Proof.
  unfold setLoading. cbv zeta.
  destruct v, (isLoading s); cbn [strict_neq Bool.eqb negb andb];
    fields; repeat split;
    apply (setErrorMessage_fields None (with_isLoading true s)).
Qed.

Lemma setPdfLoading_fields v s :
  let s' := setPdfLoading v s in
  selectedYear s' = selectedYear s /\ selectedMonth s' = selectedMonth s /\
  selectedQuestion s' = selectedQuestion s /\ isLoading s' = isLoading s /\
  isSolutionVisible s' = isSolutionVisible s /\
  currentProblem s' = currentProblem s /\ errorMessage s' = errorMessage s /\
  isPdfLoading s' = v /\
  pdfError s' = if negb (isPdfLoading s) && v then None else pdfError s.
Proof.
  unfold setPdfLoading. cbv zeta.
  destruct v, (isPdfLoading s); cbn [strict_neq Bool.eqb negb andb];
    fields; repeat split;
    apply (setPdfError_fields None (with_isPdfLoading true s)).
Qed.

(** A change of question clears the problem and hides the solution. *)
Lemma setSelectedQuestion_fields q s :
  let s' := setSelectedQuestion q s in
  let changed := strict_neq (of_string (selectedQuestion s)) (of_string q) in
  selectedYear s' = selectedYear s /\ selectedMonth s' = selectedMonth s /\
  selectedQuestion s' = q /\ isLoading s' = isLoading s /\
  isSolutionVisible s' = (if changed then false else isSolutionVisible s) /\
  currentProblem s' = (if changed then None else currentProblem s) /\
  errorMessage s' = errorMessage s /\
  isPdfLoading s' = isPdfLoading s /\
  pdfError s' = if changed && isSolutionVisible s then None else pdfError s.
Proof.
  unfold setSelectedQuestion. cbv zeta.
  destruct (strict_neq _ _); cbn [andb]; fields; [|repeat split].
  set (s1 := setCurrentProblem None (with_selectedQuestion q s)).
  destruct (setSolutionVisible_fields false s1)
    as (Hy & Hm & Hq & Hl & Hv & Hc & He & Hpl & Hpe).
  destruct (setCurrentProblem_fields None (with_selectedQuestion q s))
    as (Hy1 & Hm1 & Hq1 & Hl1 & Hv1 & Hc1 & He1 & Hpl1 & Hpe1).
  fold s1 in Hy1, Hm1, Hq1, Hl1, Hv1, Hc1, He1, Hpl1, Hpe1.
  rewrite Hy, Hm, Hq, Hl, Hv, Hc, He, Hpl, Hpe.
  rewrite Hy1, Hm1, Hq1, Hl1, Hv1, Hc1, He1, Hpl1, Hpe1.
  fields. rewrite andb_true_r. repeat split.
Qed.

Lemma setSelectedMonth_fields m s :
  let s' := setSelectedMonth m s in
  let changed := strict_neq (of_string (selectedMonth s)) (of_string m) in
  let cleared :=
    changed && strict_neq (of_string (selectedQuestion s)) VNull in
  selectedYear s' = selectedYear s /\ selectedMonth s' = m /\
  selectedQuestion s' = (if changed then None else selectedQuestion s) /\
  isLoading s' = isLoading s /\
  isSolutionVisible s' = (if cleared then false else isSolutionVisible s) /\
  currentProblem s' = (if cleared then None else currentProblem s) /\
  errorMessage s' = errorMessage s /\
  isPdfLoading s' = isPdfLoading s /\
  pdfError s' = if cleared && isSolutionVisible s then None else pdfError s.
Proof.
  unfold setSelectedMonth. cbv zeta.
  destruct (strict_neq _ _); cbn [andb]; fields; [|repeat split].
  destruct (setSelectedQuestion_fields None (with_selectedMonth m s))
    as (Hy & Hm & Hq & Hl & Hv & Hc & He & Hpl & Hpe).
  cbv zeta in Hv, Hc, Hpe. revert Hv Hc Hpe. fields. intros Hv Hc Hpe.
  rewrite Hy, Hm, Hq, Hl, Hv, Hc, He, Hpl, Hpe. repeat split.
Qed.

Lemma setSelectedYear_fields y s :
  let s' := setSelectedYear y s in
  let changed := strict_neq (of_string (selectedYear s)) (of_string y) in
  let cleared :=
    changed && strict_neq (of_string (selectedQuestion s)) VNull in
  selectedYear s' = y /\
  selectedMonth s' = (if changed then None else selectedMonth s) /\
  selectedQuestion s' = (if changed then None else selectedQuestion s) /\
  isLoading s' = isLoading s /\
  isSolutionVisible s' = (if cleared then false else isSolutionVisible s) /\
  currentProblem s' = (if cleared then None else currentProblem s) /\
  errorMessage s' = errorMessage s /\
  isPdfLoading s' = isPdfLoading s /\
  pdfError s' = if cleared && isSolutionVisible s then None else pdfError s.
Proof.
  unfold setSelectedYear. cbv zeta.
  destruct (strict_neq _ _); cbn [andb]; fields; [|repeat split].
  set (s1 := with_selectedYear y s).
  destruct (setSelectedQuestion_fields None (setSelectedMonth None s1))
    as (Hy & Hm & Hq & Hl & Hv & Hc & He & Hpl & Hpe).
  destruct (setSelectedMonth_fields None s1)
    as (Hy1 & Hm1 & Hq1 & Hl1 & Hv1 & Hc1 & He1 & Hpl1 & Hpe1).
  cbv zeta in Hv, Hc, Hpe, Hq1, Hv1, Hc1, Hpe1.
  rewrite Hy, Hm, Hq, Hl, Hv, Hc, He, Hpl, Hpe.
  rewrite Hy1, Hm1, Hq1, Hl1, Hv1, Hc1, He1, Hpl1, Hpe1.
  subst s1. fields.
  destruct (selectedMonth s), (selectedQuestion s), (isSolutionVisible s);
    cbn; repeat split.
Qed.

(** *** Setting a property to the value it has *)

Lemma setSelectedMonth_same s : setSelectedMonth (selectedMonth s) s = s.
Proof.
  unfold setSelectedMonth. cbv zeta. rewrite strict_neq_refl.
  now destruct s.
Qed.

Lemma setSelectedQuestion_same s :
  setSelectedQuestion (selectedQuestion s) s = s.
Proof.
  unfold setSelectedQuestion. cbv zeta. rewrite strict_neq_refl.
  now destruct s.
Qed.

Lemma setLoading_same s : setLoading (isLoading s) s = s.
Proof.
  unfold setLoading. cbv zeta. rewrite strict_neq_refl. now destruct s.
Qed.

Lemma setCurrentProblem_same s : setCurrentProblem (currentProblem s) s = s.
Proof.
  unfold setCurrentProblem. cbv zeta. rewrite strict_neq_refl.
  now destruct s.
Qed.

Lemma setSolutionVisible_same s :
  setSolutionVisible (isSolutionVisible s) s = s.
Proof.
  unfold setSolutionVisible. cbv zeta. rewrite strict_neq_refl.
  now destruct s.
Qed.

Lemma setErrorMessage_same s : setErrorMessage (errorMessage s) s = s.
Proof.
  unfold setErrorMessage. cbv zeta. rewrite strict_neq_refl. now destruct s.
Qed.

Lemma setPdfLoading_same s : setPdfLoading (isPdfLoading s) s = s.
Proof.
  unfold setPdfLoading. cbv zeta. rewrite strict_neq_refl. now destruct s.
Qed.

Lemma setPdfError_same s : setPdfError (pdfError s) s = s.
Proof.
  unfold setPdfError. cbv zeta. rewrite strict_neq_refl. now destruct s.
Qed.

Lemma reset_fields (s : t) :
  let s' := reset s in
  selectedYear s' = None /\ selectedMonth s' = None /\
  selectedQuestion s' = None /\ isLoading s' = false /\
  isSolutionVisible s' = false /\ currentProblem s' = None /\
  errorMessage s' = None /\ isPdfLoading s' = false /\ pdfError s' = None.
Proof.
  destruct s as [y m q l v c e pl pe ns].
  destruct y, m, q, l, v, c, e, pl, pe; cbv -[List.app]; repeat split.
Qed.

Lemma reset_initial s :
  selectedYear s = None -> selectedMonth s = None ->
  selectedQuestion s = None -> isLoading s = false ->
  isSolutionVisible s = false -> currentProblem s = None ->
  errorMessage s = None -> isPdfLoading s = false -> pdfError s = None ->
  reset s = s.
Proof.
  destruct s as [y m q l v c e pl pe ns]. cbn. intros. now subst.
Qed.

(** From any state, [reset] leaves every property at its initial value, so
    that the selection is incomplete and the reset button disabled; it only
    adds notifications, and a second [reset] changes nothing. *)
Theorem reset_restores_initial (s : t) :
  let s' := reset s in
  selectedYear s' = None /\ selectedMonth s' = None /\
  selectedQuestion s' = None /\ isLoading s' = false /\
  isSolutionVisible s' = false /\ currentProblem s' = None /\
  errorMessage s' = None /\ isPdfLoading s' = false /\ pdfError s' = None /\
  hasCompleteSelection s' = false /\
  HeaderController.resetDisabled (HeaderController.resetSelections s) = true /\
  (exists ns, notified s' = (notified s ++ ns)%list) /\
  reset s' = s'.
Proof.
  destruct (reset_fields s) as (Hy & Hm & Hq & Hl & Hv & Hc & He & Hpl & Hpe).
  cbv zeta. repeat split; try assumption.
  - unfold hasCompleteSelection. now rewrite Hy.
  - unfold HeaderController.resetDisabled, HeaderController.resetSelections.
    now rewrite Hy, Hm, Hq.
  - destruct (reset_grows s) as [ns [Hn _]]. now exists ns.
  - now apply reset_initial.
Qed.

Lemma twice {A : Type} (f : A -> t -> t) (g : t -> A) :
  (forall s, f (g s) s = s) -> (forall v s, g (f v s) = v) ->
  forall v s, f v (f v s) = f v s.
Proof. intros Hsame Hset v s. rewrite <- (Hset v s) at 1. apply Hsame. Qed.

(** Calling a mutator twice in a row with the same argument is the same as
    calling it once: the second call changes nothing and notifies nobody. *)
Theorem run_twice (c : call) (s : t) : run c (run c s) = run c s.
Proof.
  destruct c as [y|m|q|b|p|b|e|b|e|]; cbn [run].
  - apply (twice _ selectedYear); [apply setSelectedYear_same|].
    intros. apply setSelectedYear_fields.
  - apply (twice _ selectedMonth); [apply setSelectedMonth_same|].
    intros. apply setSelectedMonth_fields.
  - apply (twice _ selectedQuestion); [apply setSelectedQuestion_same|].
    intros. apply setSelectedQuestion_fields.
  - apply (twice _ isLoading); [apply setLoading_same|].
    intros. apply setLoading_fields.
  - apply (twice _ currentProblem); [apply setCurrentProblem_same|].
    intros. apply setCurrentProblem_fields.
  - apply (twice _ isSolutionVisible); [apply setSolutionVisible_same|].
    intros. apply setSolutionVisible_fields.
  - apply (twice _ errorMessage); [apply setErrorMessage_same|].
    intros. apply setErrorMessage_fields.
  - apply (twice _ isPdfLoading); [apply setPdfLoading_same|].
    intros. apply setPdfLoading_fields.
  - apply (twice _ pdfError); [apply setPdfError_same|].
    intros. apply setPdfError_fields.
  - destruct (reset_fields s) as (Hy & Hm & Hq & Hl & Hv & Hc & He & Hpl & Hpe).
    now apply reset_initial.
Qed.

Lemma changed_iff (a b : option string) :
  strict_neq (of_string a) (of_string b) = true <-> a <> b.
Proof.
  rewrite strict_neq_true_iff. split; intros H E; apply H.
  - now subst.
  - now apply of_string_inj.
Qed.

(** A change of month keeps the year, clears the question and leaves the
    selection incomplete. The problem and the solution are cleared only if
    a question was selected; loading flags and the error message stay. *)
Theorem setSelectedMonth_cascade (s : t) (m : option string) :
  selectedMonth s <> m ->
  let s' := setSelectedMonth m s in
  selectedYear s' = selectedYear s /\
  selectedMonth s' = m /\
  selectedQuestion s' = None /\
  hasCompleteSelection s' = false /\
  (selectedQuestion s <> None ->
     currentProblem s' = None /\ isSolutionVisible s' = false) /\
  (selectedQuestion s = None ->
     currentProblem s' = currentProblem s /\
     isSolutionVisible s' = isSolutionVisible s /\
     pdfError s' = pdfError s) /\
  isLoading s' = isLoading s /\ errorMessage s' = errorMessage s /\
  isPdfLoading s' = isPdfLoading s.
Proof.
  intros Hne. apply changed_iff in Hne.
  destruct (setSelectedMonth_fields m s)
    as (Hy & Hm & Hq & Hl & Hv & Hc & He & Hpl & Hpe).
  cbv zeta in *. rewrite Hne in Hq, Hv, Hc, Hpe. cbn [andb] in Hv, Hc, Hpe.
  repeat split; try assumption.
  - unfold hasCompleteSelection. rewrite Hq. cbn. now rewrite andb_false_r.
  - rewrite Hc. replace (strict_neq _ _) with true; [reflexivity|].
    symmetry. now apply (changed_iff _ None).
  - rewrite Hv. replace (strict_neq _ _) with true; [reflexivity|].
    symmetry. now apply (changed_iff _ None).
  - rewrite Hc, H. reflexivity.
  - rewrite Hv, H. reflexivity.
  - rewrite Hpe, H. reflexivity.
Qed.

Lemma setSelectedMonth_cascade_witness :
  let s := setSolutionVisible true
             (setCurrentProblem (Some 0%nat)
                (setSelectedQuestion (Some "3")
                   (setSelectedMonth (Some "6")
                      (setSelectedYear (Some "2022") init)))) in
  selectedMonth s <> Some "9" /\
  selectedYear (setSelectedMonth (Some "9") s) = Some "2022" /\
  selectedQuestion (setSelectedMonth (Some "9") s) = None /\
  currentProblem (setSelectedMonth (Some "9") s) = None.
Proof.
  cbv zeta.
  assert (H : selectedMonth
                (setSolutionVisible true
                   (setCurrentProblem (Some 0%nat)
                      (setSelectedQuestion (Some "3")
                         (setSelectedMonth (Some "6")
                            (setSelectedYear (Some "2022") init)))))
              <> Some "9") by (vm_compute; discriminate).
  split; [exact H|].
  pose proof (setSelectedMonth_cascade _ (Some "9") H) as C.
  cbv zeta in C.
  split; [|split].
  - rewrite (proj1 C). reflexivity.
  - exact (proj1 (proj2 (proj2 C))).
  - apply (proj1 (proj2 (proj2 (proj2 (proj2 C))))). vm_compute. discriminate.
Defined.

(** A change of question (also to another question) keeps year and month,
    clears the current problem and hides the solution; the PDF error is
    cleared exactly when the solution was visible. *)
Theorem setSelectedQuestion_cascade (s : t) (q : option string) :
  selectedQuestion s <> q ->
  let s' := setSelectedQuestion q s in
  selectedYear s' = selectedYear s /\
  selectedMonth s' = selectedMonth s /\
  selectedQuestion s' = q /\
  currentProblem s' = None /\
  isSolutionVisible s' = false /\
  pdfError s' = (if isSolutionVisible s then None else pdfError s) /\
  isLoading s' = isLoading s /\ errorMessage s' = errorMessage s /\
  isPdfLoading s' = isPdfLoading s.
Proof.
  intros Hne. apply changed_iff in Hne.
  destruct (setSelectedQuestion_fields q s)
    as (Hy & Hm & Hq & Hl & Hv & Hc & He & Hpl & Hpe).
  cbv zeta in *. rewrite Hne in Hv, Hc, Hpe. cbn [andb] in Hpe.
  repeat split; assumption.
Qed.

Lemma setSelectedQuestion_cascade_witness :
  let s := setSolutionVisible true
             (setCurrentProblem (Some 0%nat)
                (setSelectedQuestion (Some "3")
                   (setSelectedMonth (Some "6")
                      (setSelectedYear (Some "2022") init)))) in
  selectedQuestion s <> Some "4" /\
  selectedQuestion (setSelectedQuestion (Some "4") s) = Some "4" /\
  currentProblem (setSelectedQuestion (Some "4") s) = None /\
  isSolutionVisible (setSelectedQuestion (Some "4") s) = false.
Proof.
  cbv zeta.
  assert (H : selectedQuestion
                (setSolutionVisible true
                   (setCurrentProblem (Some 0%nat)
                      (setSelectedQuestion (Some "3")
                         (setSelectedMonth (Some "6")
                            (setSelectedYear (Some "2022") init)))))
              <> Some "4") by (vm_compute; discriminate).
  split; [exact H|].
  pose proof (setSelectedQuestion_cascade _ (Some "4") H) as C.
  cbv zeta in C.
  split; [|split].
  - exact (proj1 (proj2 (proj2 C))).
  - exact (proj1 (proj2 (proj2 (proj2 C)))).
  - exact (proj1 (proj2 (proj2 (proj2 (proj2 C))))).
Defined.

Lemma truthy_Some v : v <> "" -> truthy (Some v) = true.
Proof.
  intros H. cbn. destruct (String.eqb_spec v ""); [contradiction|reflexivity].
Qed.

(** [setSelections] with three non-empty values leaves exactly that
    selection, whatever the state before: the selection is complete, the
    reset button enabled, and repeating the call changes nothing. *)
Theorem setSelections_complete (year month question : string) (u : t) :
  year <> "" -> month <> "" -> question <> "" ->
  let u' := HeaderController.setSelections (Some year) (Some month)
              (Some question) u in
  selectedYear u' = Some year /\ selectedMonth u' = Some month /\
  selectedQuestion u' = Some question /\
  hasCompleteSelection u' = true /\
  HeaderController.resetDisabled u' = false /\
  HeaderController.setSelections (Some year) (Some month) (Some question) u'
  = u'.
Proof.
  intros Hy Hm Hq.
  assert (F : let u' := HeaderController.setSelections (Some year)
                          (Some month) (Some question) u in
              selectedYear u' = Some year /\ selectedMonth u' = Some month /\
              selectedQuestion u' = Some question).
  { unfold HeaderController.setSelections.
    rewrite !truthy_Some by assumption. cbv zeta.
    set (u1 := setSelectedYear (Some year) u).
    set (u2 := setSelectedMonth (Some month) u1).
    destruct (setSelectedQuestion_fields (Some question) u2)
      as (Ay & Am & Aq & _).
    destruct (setSelectedMonth_fields (Some month) u1) as (By & Bm & _).
    destruct (setSelectedYear_fields (Some year) u) as (Cy & _).
    fold u1 in Cy. fold u2 in By, Bm.
    rewrite Ay, Am, Aq, By, Bm, Cy. repeat split. }
  cbv zeta in *. destruct F as (Fy & Fm & Fq).
  repeat split; try assumption.
  - unfold hasCompleteSelection. rewrite Fy, Fm, Fq.
    now rewrite !truthy_Some by assumption.
  - unfold HeaderController.resetDisabled. rewrite Fy.
    now rewrite truthy_Some by assumption.
  - set (u' := HeaderController.setSelections _ _ _ u) in *.
    unfold HeaderController.setSelections at 1.
    rewrite !truthy_Some by assumption. cbv zeta.
    rewrite <- Fy at 1. rewrite setSelectedYear_same.
    rewrite <- Fm at 1. rewrite setSelectedMonth_same.
    rewrite <- Fq at 1. apply setSelectedQuestion_same.
Qed.

Lemma setSelections_complete_witness :
  let u' := HeaderController.setSelections (Some "2022") (Some "6")
              (Some "1") init in
  hasCompleteSelection u' = true /\ selectedQuestion u' = Some "1".
Proof.
  assert (Hy : "2022" <> "") by discriminate.
  assert (Hm : "6" <> "") by discriminate.
  assert (Hq : "1" <> "") by discriminate.
  pose proof (setSelections_complete "2022" "6" "1" init Hy Hm Hq) as C.
  cbv zeta in *. split.
  - exact (proj1 (proj2 (proj2 (proj2 C)))).
  - exact (proj1 (proj2 (proj2 C))).
Defined.

(** Without a year, [setSelections] ignores the month and the question. *)
Lemma setSelections_without_year month question u :
  HeaderController.setSelections None month question u = u /\
  HeaderController.setSelections (Some "") month question u = u.
Proof. split; reflexivity. Qed.

Lemma notifications_are_changes_witness :
  let s := run (SetSelectedYear (Some "2022")) init in
  VNull <> VString "2022" /\ In "selectedYear" names.
Proof.
  cbv zeta.
  apply (notifications_are_changes
           (run (SetSelectedYear (Some "2022")) init)
           (reachable_run _ _ reachable_init)
           "selectedYear" VNull (VString "2022")).
  left. reflexivity.
Defined.

End Selection.

(** ** The catalog beyond the three queries *)

Section CatalogMore.
Import DataManager.

Lemma valid_row_ranges row :
  valid_row row = true ->
  let i := to_item row in
  exists y m q,
    JS.parseInt (year i) = Some y /\ JS.parseInt (month i) = Some m /\
    JS.parseInt (questionNumber i) = Some q /\
    (2000 <= y <= 2100)%Z /\ (1 <= m <= 12)%Z /\ (1 <= q <= 999)%Z.
Proof.
  destruct row as [|y [|m [|q rest]]]; try discriminate.
  unfold valid_row, to_item. cbn [nth year month questionNumber].
  destruct (_ || _ || _); [discriminate|].
  destruct (JS.parseInt (JS.trim y)) as [yn|]; [|discriminate].
  destruct (JS.parseInt (JS.trim m)) as [mn|]; [|discriminate].
  destruct (JS.parseInt (JS.trim q)) as [qn|]; [|discriminate].
  destruct ((yn <? 2000) || (yn >? 2100))%Z eqn:Ey; [discriminate|].
  destruct ((mn <? 1) || (mn >? 12))%Z eqn:Em; [discriminate|].
  destruct ((qn <? 1) || (qn >? 999))%Z eqn:Eq; [discriminate|].
  intros _. exists yn, mn, qn.
  apply orb_false_iff in Ey, Em, Eq.
  rewrite Z.gtb_ltb in *. rewrite !Z.ltb_ge in *. repeat split; lia.
Qed.


Lemma In_sort (cmp : string -> string -> option Z) (l : list string) x :
  In x (JS.sort cmp l) <-> In x l.
Proof.
  split; intros H.
  - eapply Permutation_in; [apply sort_Permutation|exact H].
  - eapply Permutation_in; [apply Permutation_sym, sort_Permutation|exact H].
Qed.

Lemma problemExists_iff y m q this :
  problemExists y m q this = true <->
  unloaded this = false /\
  exists i, In i (csvData this) /\ year i = y /\ month i = m /\
            questionNumber i = q.
Proof.
  unfold problemExists. destruct (unloaded this).
  - split; [discriminate|]. intros [H _]. discriminate.
  - rewrite existsb_exists. split.
    + intros [i [Hi H]]. apply andb_true_iff in H. destruct H as [H Hq].
      apply andb_true_iff in H. destruct H as [Hy Hm].
      apply String.eqb_eq in Hy, Hm, Hq. split; [reflexivity|].
      exists i. tauto.
    + intros [_ [i (Hi & Hy & Hm & Hq)]]. exists i. split; [assumption|].
      subst. now rewrite !String.eqb_refl.
Qed.

(** In every state of the manager the three queries offer exactly what
    [problemExists] accepts: a year is listed iff some problem of that year
    exists, a month iff some problem of that year and month exists, and a
    question iff that very problem exists. *)
Theorem queries_offer_what_exists (this : t) (y m q : string) :
  (In y (getAvailableYears this) <->
   exists m' q', problemExists y m' q' this = true) /\
  (y <> "" ->
   (In m (getMonthsForYear y this) <->
    exists q', problemExists y m q' this = true)) /\
  (y <> "" -> m <> "" ->
   (In q (getQuestionsForYearMonth y m this) <->
    problemExists y m q this = true)).
Proof.
  split; [|split].
  - unfold getAvailableYears. split.
    + destruct (unloaded this) eqn:U; [intros []|].
      rewrite In_sort, uniq_In, in_map_iff. intros [i [Hy Hi]].
      exists (month i), (questionNumber i). apply problemExists_iff.
      split; [assumption|]. exists i. tauto.
    + intros [m' [q' H]]. apply problemExists_iff in H.
      destruct H as [U [i (Hi & Hy & _)]]. rewrite U.
      rewrite In_sort, uniq_In, in_map_iff. now exists i.
  - intros Hy. unfold getMonthsForYear.
    destruct (String.eqb_spec y ""); [contradiction|].
    rewrite orb_false_r. split.
    + destruct (unloaded this) eqn:U; [intros []|].
      rewrite In_sort, uniq_In, in_map_iff. intros [i [Hm Hi]].
      apply filter_In in Hi. destruct Hi as [Hi E].
      apply String.eqb_eq in E.
      exists (questionNumber i). apply problemExists_iff.
      split; [assumption|]. exists i. tauto.
    + intros [q' H]. apply problemExists_iff in H.
      destruct H as [U [i (Hi & Ey & Em & _)]]. rewrite U.
      rewrite In_sort, uniq_In, in_map_iff. exists i. split; [assumption|].
      apply filter_In. split; [assumption|]. now apply String.eqb_eq.
  - intros Hy Hm. unfold getQuestionsForYearMonth.
    destruct (String.eqb_spec y ""); [contradiction|].
    destruct (String.eqb_spec m ""); [contradiction|].
    rewrite !orb_false_r. split.
    + destruct (unloaded this) eqn:U; [intros []|].
      rewrite In_sort, uniq_In, in_map_iff. intros [i [Hq Hi]].
      apply filter_In in Hi. destruct Hi as [Hi E].
      apply andb_true_iff in E. destruct E as [Ey Em].
      apply String.eqb_eq in Ey, Em.
      apply problemExists_iff. split; [assumption|]. exists i. tauto.
    + intros H. apply problemExists_iff in H.
      destruct H as [U [i (Hi & Ey & Em & Eq)]]. rewrite U.
      rewrite In_sort, uniq_In, in_map_iff. exists i. split; [assumption|].
      apply filter_In. split; [assumption|].
      apply andb_true_iff. split; now apply String.eqb_eq.
Qed.

Lemma queries_offer_what_exists_witness :
  let dm := fst (complete [] [["2022"; "6"; "1"]; ["2022"; "11"; "2"]] init) in
  In "11" (getMonthsForYear "2022" dm) <->
  exists q', problemExists "2022" "11" q' dm = true.
Proof.
  cbv zeta.
  apply (proj1 (proj2 (queries_offer_what_exists
                         (fst (complete [] [["2022"; "6"; "1"];
                                            ["2022"; "11"; "2"]] init))
                         "2022" "11" "2"))).
  discriminate.
Defined.


Lemma rejects_false_iff f field :
  rejects f field = false <-> f = None \/ f = Some "" \/ f = Some field.
Proof.
  destruct f as [v|]; cbn; [|tauto].
  destruct (String.eqb_spec v ""); cbn.
  - subst. tauto.
  - destruct (String.eqb_spec field v); cbn.
    + subst. tauto.
    + split; [discriminate|]. intros [H|[H|H]]; congruence.
Qed.

Lemma In_getFilteredData fy fm fq this i :
  In i (getFilteredData fy fm fq this) <->
  unloaded this = false /\ In i (csvData this) /\
  rejects fy (year i) = false /\ rejects fm (month i) = false /\
  rejects fq (questionNumber i) = false.
Proof.
  unfold getFilteredData. destruct (unloaded this).
  - split; [intros []|]. intros [H _]. discriminate.
  - rewrite filter_In.
    destruct (rejects fy (year i)), (rejects fm (month i)),
      (rejects fq (questionNumber i)); intuition congruence.
Qed.



(** *** Statistics *)

Lemma nth_last_cons {A : Type} (a b : A) (l : list A) d :
  nth (List.length (a :: b :: l) - 1) (a :: b :: l) d
  = nth (List.length (b :: l) - 1) (b :: l) d.
Proof. cbn [List.length]. now rewrite !Nat.sub_succ, !Nat.sub_0_r. Qed.

Lemma sorted_last {A : Type} (R : A -> A -> Prop) (l : list A) d :
  StronglySorted R l ->
  forall x, In x l ->
    x = nth (List.length l - 1) l d \/ R x (nth (List.length l - 1) l d).
Proof.
  induction 1 as [|a l Hs IH Ha]; [intros x []|].
  intros x Hx. destruct l as [|b l'].
  - destruct Hx as [<-|[]]. now left.
  - rewrite nth_last_cons. destruct Hx as [<-|Hx]; [|now apply IH].
    right. rewrite Forall_forall in Ha. apply Ha. apply nth_In.
    cbn [List.length]. lia.
Qed.

Lemma sorted_first {A : Type} (R : A -> A -> Prop) (l : list A) d :
  StronglySorted R l ->
  forall x, In x l -> x = nth 0 l d \/ R (nth 0 l d) x.
Proof.
  intros Hs x Hx. destruct Hs as [|a l Hs Ha]; [destruct Hx|].
  cbn [nth]. destruct Hx as [<-|Hx]; [now left|right].
  rewrite Forall_forall in Ha. now apply Ha.
Qed.

Lemma num_le_refl a : numeric a -> num_le a a.
Proof.
  unfold num_le, numeric. destruct (JS.parseInt a); [lia|congruence].
Qed.

(** After a successful load the statistics count the items as
    [getTotalProblemsCount] does, report at least one and at most as many
    years and months as there are problems, and give as year range two
    listed years between which the year of every item lies. *)
Theorem getDataStatistics_range
    (errs : list string) (rows : list (list string)) (this dm : t) :
  complete errs rows this = (dm, None) ->
  let stats := getDataStatistics dm in
  totalProblems stats = getTotalProblemsCount dm /\
  totalYears stats = List.length (getAvailableYears dm) /\
  (1 <= totalYears stats <= totalProblems stats)%nat /\
  (1 <= totalMonths stats <= totalProblems stats)%nat /\
  exists earliest latest,
    yearRange stats = Some (earliest, latest) /\
    In earliest (getAvailableYears dm) /\ In latest (getAvailableYears dm) /\
    forall i, In i (csvData dm) ->
      num_le earliest (year i) /\ num_le (year i) latest.
Proof.
  intros Hc. destruct (complete_loaded _ _ _ _ Hc) as [U V].
  rewrite Forall_forall in V.
  assert (Hlen : forall f : item -> string,
             (1 <= List.length (JS.uniq (map f (csvData dm)))
              <= List.length (csvData dm))%nat).
  { intros f. split.
    - unfold unloaded in U. apply orb_false_iff in U. destruct U as [_ U].
      destruct (csvData dm) as [|i l] eqn:E; [discriminate|].
      assert (Hi : In (f i) (JS.uniq (map f (i :: l))))
        by (apply uniq_In; now left).
      destruct (JS.uniq (map f (i :: l))); [destruct Hi|cbn; lia].
    - rewrite <- (length_map f). apply NoDup_incl_length.
      + apply uniq_NoDup.
      + intros x Hx. now apply uniq_In. }
  unfold getDataStatistics. rewrite U.
  cbn [totalProblems totalYears totalMonths yearRange].
  assert (Hy : List.length (getAvailableYears dm)
               = List.length (JS.uniq (map year (csvData dm)))).
  { unfold getAvailableYears. rewrite U.
    apply Permutation_length, sort_Permutation. }
  split; [|split; [reflexivity|split; [|split]]].
  - unfold getTotalProblemsCount. unfold unloaded in U.
    apply orb_false_iff in U. destruct U as [U _].
    now destruct (isDataLoaded dm).
  - rewrite Hy. apply Hlen.
  - apply Hlen.
  - set (years := getAvailableYears dm) in *.
    assert (Hpos : (0 < List.length years)%nat)
      by (rewrite Hy; apply (Hlen year)).
    destruct (Nat.ltb_spec 0 (List.length years)) as [_|]; [|lia].
    exists (nth (List.length years - 1) years ""), (nth 0 years "").
    split; [reflexivity|]. split; [apply nth_In; lia|].
    split; [apply nth_In; lia|].
    assert (Hnum : Forall numeric (JS.uniq (map year (csvData dm)))).
    { apply Forall_numeric_uniq_map. intros i Hi. now apply V. }
    destruct (sort_desc_spec _ Hnum (uniq_NoDup _)) as (_ & Hin & Hd & _).
    assert (Ey : years = JS.sort desc (JS.uniq (map year (csvData dm)))).
    { subst years. unfold getAvailableYears. now rewrite U. }
    rewrite <- Ey in Hin, Hd.
    intros i Hi.
    assert (Hiy : In (year i) years).
    { apply Hin. apply uniq_In. now apply in_map. }
    assert (Hn : numeric (year i)) by now apply V.
    split.
    + destruct (sorted_last _ years "" Hd _ Hiy) as [E|H]; [|exact H].
      rewrite <- E. now apply num_le_refl.
    + destruct (sorted_first _ years "" Hd _ Hiy) as [E|H]; [|exact H].
      rewrite <- E. now apply num_le_refl.
Qed.

Lemma getDataStatistics_range_witness :
  let rows := [["2021"; "9"; "30"]; ["2022"; "11"; "1"]; ["2020"; "6"; "1"]] in
  let stats := getDataStatistics (fst (complete [] rows init)) in
  totalProblems stats = getTotalProblemsCount (fst (complete [] rows init)) /\
  (1 <= totalYears stats <= totalProblems stats)%nat.
Proof.
  cbv zeta.
  pose proof (getDataStatistics_range []
                [["2021"; "9"; "30"]; ["2022"; "11"; "1"]; ["2020"; "6"; "1"]]
                init
                (fst (complete []
                        [["2021"; "9"; "30"]; ["2022"; "11"; "1"];
                         ["2020"; "6"; "1"]] init))
                eq_refl) as H.
  cbv zeta in H. split; [exact (proj1 H)|exact (proj1 (proj2 (proj2 H)))].
Defined.

(** Before a successful load the statistics are empty. *)
Lemma getDataStatistics_unloaded this :
  unloaded this = true -> getDataStatistics this = mkStatistics 0 0 0 None.
Proof. intros U. unfold getDataStatistics. now rewrite U. Qed.

End CatalogMore.

(** ** File paths of a problem *)

Section Paths.
Import ProblemData.

Lemma append_inj_l (a x y : string) : a ++ x = a ++ y -> x = y.
Proof. induction a as [|c a IH]; cbn; [tauto|]. intros H. injection H. exact IH. Qed.

Lemma append_length (a b : string) :
  String.length (a ++ b) = (String.length a + String.length b)%nat.
Proof. induction a as [|c a IH]; cbn; [reflexivity|]. now rewrite IH. Qed.

Lemma append_inj_same_length (a b x y : string) :
  String.length a = String.length b -> a ++ x = b ++ y -> a = b /\ x = y.
Proof.
  revert b. induction a as [|c a IH]; intros [|d b]; cbn; try discriminate.
  - tauto.
  - intros L H. injection L as L. injection H as -> H.
    destruct (IH b L H) as [-> ->]. tauto.
Qed.

Lemma append_inj_r (x y s : string) : x ++ s = y ++ s -> x = y.
Proof.
  intros H. apply (append_inj_same_length x y s s); [|exact H].
  apply (f_equal String.length) in H. rewrite !append_length in H. lia.
Qed.

Lemma append_assoc_s (a b c : string) : (a ++ b) ++ c = a ++ b ++ c.
Proof. induction a as [|x a IH]; cbn; [reflexivity|]. now rewrite IH. Qed.

Lemma getImagePath_stem p :
  getImagePath p =
  "mun/" ++ (year p ++ JSString.padStart 2 "0" (month p)
             ++ JSString.padStart 2 "0" (questionNumber p)) ++ ".png".
Proof. unfold getImagePath. cbv zeta. now rewrite !append_assoc_s. Qed.

Lemma getPDFPath_stem p :
  getPDFPath p =
  "sol/" ++ (year p ++ JSString.padStart 2 "0" (month p)
             ++ JSString.padStart 2 "0" (questionNumber p)) ++ ".pdf".
Proof. unfold getPDFPath. cbv zeta. now rewrite !append_assoc_s. Qed.

Lemma equals_eq p q : equals p (Some q) = true <-> p = q.
Proof.
  unfold equals. rewrite !andb_true_iff, !String.eqb_eq.
  destruct p, q; cbn. split; [intros [[-> ->] ->]; reflexivity|].
  intros H. injection H. tauto.
Qed.

(** The image and the solution of a problem are named alike: two problems
    share their image file exactly when they share their solution file,
    equal problems share both, and the path that the selection handler
    builds from the three strings is the image path of the problem. *)
Theorem paths_agree (p q : t) :
  (getImagePath p = getImagePath q <-> getPDFPath p = getPDFPath q) /\
  (equals p (Some q) = true ->
   getImagePath p = getImagePath q /\ getPDFPath p = getPDFPath q) /\
  ContentController.selectionImagePath (year p) (month p) (questionNumber p)
  = getImagePath p.
Proof.
  split; [|split].
  - rewrite !getImagePath_stem, !getPDFPath_stem. split; intros H.
    + apply append_inj_l, append_inj_r in H. now rewrite H.
    + apply append_inj_l, append_inj_r in H. now rewrite H.
  - intros H. apply equals_eq in H. now subst.
  - reflexivity.
Qed.

Lemma paths_agree_witness :
  let p := mk "2022" "6" "1" in
  let q := mk "2022" "6" "1" in
  getImagePath p = getImagePath q /\ getPDFPath p = getPDFPath q.
Proof.
  cbv zeta.
  apply (proj1 (proj2 (paths_agree (mk "2022" "6" "1") (mk "2022" "6" "1")))).
  reflexivity.
Defined.

(** *** Padding *)

Lemma all_digits_utf16 s :
  JS.skip_digits s = "" -> JSString.utf16_length s = String.length s.
Proof.
  induction s as [|c r IH]; [reflexivity|]. cbn [JS.skip_digits].
  destruct (JS.is_digit c) eqn:D; [|discriminate].
  intros H. cbn [JSString.utf16_length String.length]. rewrite (IH H).
  unfold JS.is_digit in D. unfold JSString.units.
  apply andb_true_iff in D. destruct D as [_ D]. apply Nat.leb_le in D.
  destruct (Nat.ltb_spec (nat_of_ascii c) 128); [reflexivity|lia].
Qed.

Lemma plain_number_inv s :
  JS.plain_number s = true ->
  exists c r, s = String c r /\ c <> "0"%char /\ JS.skip_digits s = "".
Proof.
  unfold JS.plain_number, JS.decimal_digits.
  destruct s as [|c r]; [discriminate|].
  rewrite !andb_true_iff. intros [[_ H] N]. apply String.eqb_eq in H.
  exists c, r. repeat split; [|assumption].
  intros ->. discriminate.
Qed.

Lemma padStart_plain s :
  JS.plain_number s = true ->
  JSString.padStart 2 "0" s =
  if (String.length s =? 1)%nat then String "0" s else s.
Proof.
  intros H. destruct (plain_number_inv s H) as (c & r & -> & _ & D).
  unfold JSString.padStart. rewrite (all_digits_utf16 _ D).
  cbn [String.length]. destruct r as [|d r']; [reflexivity|].
  reflexivity.
Qed.

Lemma padStart_plain_inj s s' :
  JS.plain_number s = true -> JS.plain_number s' = true ->
  JSString.padStart 2 "0" s = JSString.padStart 2 "0" s' -> s = s'.
Proof.
  intros H H'. rewrite (padStart_plain s H), (padStart_plain s' H').
  destruct (plain_number_inv s H) as (c & r & -> & N & _).
  destruct (plain_number_inv s' H') as (c' & r' & -> & N' & _).
  cbn [String.length].
  destruct r as [|d r], r' as [|d' r']; cbn [String.length Nat.eqb];
    intros E; injection E; intros; subst; congruence.
Qed.

Lemma padStart_plain_length s :
  JS.plain_number s = true -> (String.length s <= 2)%nat ->
  String.length (JSString.padStart 2 "0" s) = 2%nat.
Proof.
  intros H L. rewrite (padStart_plain s H).
  destruct (plain_number_inv s H) as (c & r & -> & _ & _).
  destruct r as [|d [|e r]]; cbn in *; try reflexivity. lia.
Qed.

(** Distinct problems have distinct files, when months and question
    numbers are written plainly, months have at most two digits and the
    years are equally long. *)
Theorem paths_injective (p q : t) :
  String.length (year p) = String.length (year q) ->
  JS.plain_number (month p) = true -> JS.plain_number (month q) = true ->
  (String.length (month p) <= 2)%nat -> (String.length (month q) <= 2)%nat ->
  JS.plain_number (questionNumber p) = true ->
  JS.plain_number (questionNumber q) = true ->
  getImagePath p = getImagePath q \/ getPDFPath p = getPDFPath q ->
  p = q.
Proof.
  intros Ly Mp Mq Lp Lq Qp Qq H.
  assert (E : year p ++ JSString.padStart 2 "0" (month p)
              ++ JSString.padStart 2 "0" (questionNumber p)
              = year q ++ JSString.padStart 2 "0" (month q)
                ++ JSString.padStart 2 "0" (questionNumber q)).
  { destruct H as [H|H].
    - rewrite !getImagePath_stem in H. now apply append_inj_l, append_inj_r in H.
    - rewrite !getPDFPath_stem in H. now apply append_inj_l, append_inj_r in H. }
  apply append_inj_same_length in E; [|exact Ly]. destruct E as [Ey E].
  apply append_inj_same_length in E;
    [|now rewrite !padStart_plain_length]. destruct E as [Em Eq].
  apply padStart_plain_inj in Em; [|assumption..].
  apply padStart_plain_inj in Eq; [|assumption..].
  destruct p, q; cbn in *. now subst.
Qed.

Lemma paths_injective_witness :
  let p := mk "2022" "6" "12" in
  let q := mk "2022" "6" "12" in
  p = q.
Proof.
  cbv zeta.
  apply (paths_injective (mk "2022" "6" "12") (mk "2022" "6" "12"));
    cbn [year month questionNumber String.length];
    try reflexivity; try lia.
  left. reflexivity.
Defined.

(** Without the plain writing the paths collide: month "6" and month "06"
    are different problems with the same files. *)
Example paths_collide :
  let p := mk "2022" "6" "1" in
  let q := mk "2022" "06" "1" in
  equals p (Some q) = false /\ getImagePath p = getImagePath q /\
  getPDFPath p = getPDFPath q.
Proof. repeat split. Qed.

End Paths.

(** ** Building a problem from a selection *)

Section Construct.
Import DataManager.

Lemma is_digit_cases c :
  JS.is_digit c = true ->
  c = "0"%char \/ c = "1"%char \/ c = "2"%char \/ c = "3"%char \/
  c = "4"%char \/ c = "5"%char \/ c = "6"%char \/ c = "7"%char \/
  c = "8"%char \/ c = "9"%char.
Proof.
  destruct c as [[] [] [] [] [] [] [] []]; vm_compute; intros H;
    try discriminate H; tauto.
Qed.

Lemma strip_space_digit c r :
  JS.is_digit c = true -> JS.strip_space (String c r) = None.
Proof.
  intros H.
  destruct (is_digit_cases c H) as [->|[->|[->|[->|[->|[->|[->|[->|[->| ->]]]]]]]]];
    destruct r as [|d [|e r]]; reflexivity.
Qed.

Lemma trimStart_digit c r :
  JS.is_digit c = true -> JS.trimStart (String c r) = String c r.
Proof.
  intros H. unfold JS.trimStart. cbn [String.length JS.trimStart_loop].
  now rewrite strip_space_digit.
Qed.

Lemma trimEnd_digits s : JS.skip_digits s = "" -> JS.trimEnd s = s.
Proof.
  induction s as [|c r IH]; [reflexivity|]. cbn [JS.skip_digits].
  destruct (JS.is_digit c) eqn:D; [|discriminate]. intros H.
  cbn [JS.trimEnd]. unfold JS.is_blank. rewrite (trimStart_digit c r D).
  cbn [String.eqb]. now rewrite (IH H).
Qed.

Lemma trim_digits s : JS.decimal_digits s = true -> JS.trim s = s.
Proof.
  unfold JS.decimal_digits. rewrite andb_true_iff, String.eqb_eq.
  intros [S D]. destruct s as [|c r]; [discriminate|]. cbn in S.
  unfold JS.trim. rewrite (trimStart_digit c r S). now apply trimEnd_digits.
Qed.

Lemma unsigned_decimal_digits s :
  JS.decimal_digits s = true -> JS.unsigned_decimal s = true.
Proof.
  intros H. pose proof H as H0. unfold JS.decimal_digits in H.
  apply andb_true_iff in H. destruct H as [S D]. apply String.eqb_eq in D.
  unfold JS.unsigned_decimal. rewrite D, S.
  destruct s as [|c r]; [discriminate|]. cbn in S.
  destruct (is_digit_cases c S) as [->|[->|[->|[->|[->|[->|[->|[->|[->| ->]]]]]]]]];
    reflexivity.
Qed.

Lemma isNaN_digits s : JS.decimal_digits s = true -> JS.isNaN s = false.
Proof.
  intros H. unfold JS.isNaN, JS.is_numeric_string.
  rewrite (trim_digits s H). cbv zeta.
  pose proof (unsigned_decimal_digits s H) as U.
  pose proof H as H0. unfold JS.decimal_digits in H0.
  apply andb_true_iff in H0. destruct H0 as [S D].
  destruct s as [|c r]; [discriminate|]. cbn in S.
  destruct (is_digit_cases c S) as [->|[->|[->|[->|[->|[->|[->|[->|[->| ->]]]]]]]]];
    try (now rewrite U).
  destruct r as [|x r']; [reflexivity|].
  cbn [JS.skip_digits] in D. change (JS.is_digit "0") with true in D.
  cbv iota in D. cbn [JS.skip_digits] in D.
  destruct (JS.is_digit x) eqn:X; [|discriminate].
  destruct (is_digit_cases x X) as [->|[->|[->|[->|[->|[->|[->|[->|[->| ->]]]]]]]]];
    cbn [Ascii.eqb Bool.eqb orb]; now rewrite U.
Qed.

(** Any three non-empty strings of decimal digits make a problem, which
    keeps them as they are. *)
Theorem createProblemData_digits (y m q : string) :
  JS.decimal_digits y = true -> JS.decimal_digits m = true ->
  JS.decimal_digits q = true ->
  createProblemData y m q = inl (ProblemData.mk y m q).
Proof.
  intros Hy Hm Hq. unfold createProblemData.
  rewrite !isNaN_digits by assumption.
  destruct y, m, q; try discriminate. reflexivity.
Qed.

Lemma createProblemData_digits_witness :
  createProblemData "2022" "06" "1" = inl (ProblemData.mk "2022" "06" "1").
Proof.
  apply createProblemData_digits; reflexivity.
Defined.

(** The loader and the constructor do not validate alike: the loader reads
    numbers with [parseInt], which accepts a numeric prefix, the
    constructor with [isNaN], which does not. *)
Example loaded_but_not_constructible :
  let r := complete [] [["2022abc"; "6"; "1"]] init in
  snd r = None /\
  problemExists "2022abc" "6" "1" (fst r) = true /\
  createProblemData "2022abc" "6" "1"
  = inr "학년도, 시행월, 문항번호는 모두 숫자여야 합니다.".
Proof. vm_compute. repeat split. Qed.

End Construct.

(** ** More about maps *)

Section MapMore.
Context {K V : Type}.
Variable eqb : K -> K -> bool.
Hypothesis eqb_eq : forall a b, eqb a b = true <-> a = b.

Lemma keys_set_In k (v : V) m x :
  In x (JsMap.keys (JsMap.set eqb k v m)) <-> x = k \/ In x (JsMap.keys m).
Proof.
  induction m as [|[k' v'] m IH]; cbn.
  - intuition.
  - destruct (eqb k k') eqn:E; cbn.
    + apply eqb_eq in E. subst. intuition.
    + rewrite IH. intuition.
Qed.

Lemma wf_set k (v : V) m : JsMap.wf m -> JsMap.wf (JsMap.set eqb k v m).
Proof.
  unfold JsMap.wf. induction m as [|[k' v'] m IH]; cbn; intros H.
  - constructor; [intros []|constructor].
  - inversion H as [|? ? Hn Hm]; subst.
    destruct (eqb k k') eqn:E; cbn.
    + apply eqb_eq in E. subst. now constructor.
    + constructor; [|now apply IH].
      intros Hin. apply keys_set_In in Hin. destruct Hin as [->|Hin].
      * rewrite (eqb_refl eqb eqb_eq) in E. discriminate.
      * contradiction.
Qed.

Lemma length_set k (v : V) m :
  List.length (JsMap.set eqb k v m) =
  match JsMap.get eqb k m with
  | Some _ => List.length m
  | None => S (List.length m)
  end.
Proof.
  induction m as [|[k' v'] m IH]; cbn; [reflexivity|].
  destruct (eqb k k'); cbn; [reflexivity|]. rewrite IH.
  now destruct (JsMap.get eqb k m).
Qed.

Lemma length_set_le k (v : V) m :
  (List.length (JsMap.set eqb k v m) <= S (List.length m))%nat.
Proof. rewrite length_set. destruct (JsMap.get eqb k m); lia. Qed.

Lemma length_delete_le k (m : list (K * V)) :
  (List.length (JsMap.delete eqb k m) <= List.length m)%nat.
Proof.
  induction m as [|[k' v'] m IH]; cbn; [lia|].
  destruct (eqb k k'); cbn; lia.
Qed.

Lemma delete_first_key k (m : list (K * V)) :
  JsMap.first_key m = Some k ->
  S (List.length (JsMap.delete eqb k m)) = List.length m.
Proof.
  destruct m as [|[k' v'] m]; cbn; [discriminate|].
  intros H. injection H as ->. now rewrite (eqb_refl eqb eqb_eq).
Qed.

Lemma keys_set_existing k (v v' : V) m :
  JsMap.get eqb k m = Some v' ->
  JsMap.keys (JsMap.set eqb k v m) = JsMap.keys m.
Proof.
  unfold JsMap.keys.
  induction m as [|[k' w] m IH]; cbn; [discriminate|].
  destruct (eqb k k') eqn:E; cbn.
  - apply eqb_eq in E. now subst.
  - intros H. now rewrite IH.
Qed.

Lemma get_set_other k k' (v : V) m :
  k' <> k -> JsMap.get eqb k' (JsMap.set eqb k v m) = JsMap.get eqb k' m.
Proof.
  intros Hne. induction m as [|[k0 w] m IH]; cbn.
  - now rewrite (eqb_neq eqb eqb_eq).
  - destruct (eqb k k0) eqn:E; cbn.
    + apply eqb_eq in E. subst.
      now rewrite (eqb_neq eqb eqb_eq k' k0 Hne).
    + destruct (eqb k' k0); [reflexivity|exact IH].
Qed.

Lemma wf_delete_where cond (l : list (K * V)) : forall m,
  JsMap.wf m -> JsMap.wf (JsMap.delete_where eqb cond l m).
Proof.
  unfold JsMap.delete_where.
  induction l as [|e l IH]; intros m Hm; cbn; [exact Hm|].
  apply IH. destruct (cond e); [|exact Hm].
  now apply (wf_delete eqb).
Qed.

Lemma length_delete_where cond (l : list (K * V)) : forall m,
  (List.length (JsMap.delete_where eqb cond l m) <= List.length m)%nat.
Proof.
  unfold JsMap.delete_where.
  induction l as [|e l IH]; intros m; cbn; [lia|].
  etransitivity; [apply IH|]. destruct (cond e); [|lia].
  apply length_delete_le.
Qed.

End MapMore.

(** ** The viewer between calls *)

Section Viewer.
Import PDFViewer Spec.

Local Arguments cachePDF : simpl never.
Local Arguments renderPage : simpl never.
Local Arguments cacheRenderedPage : simpl never.
Local Arguments getCachedRenderedPage : simpl never.

(** *** What rendering touches *)

Lemma getCachedRenderedPage_cache key now s :
  let s' := snd (getCachedRenderedPage key now s) in
  loadingShown s' = loadingShown s /\
  maxPageCacheSize s' = maxPageCacheSize s /\
  canvas s' = canvas s /\ errorShown s' = errorShown s /\
  (JsMap.wf (renderedPageCache s) -> JsMap.wf (renderedPageCache s')) /\
  (JsMap.size (renderedPageCache s') <= JsMap.size (renderedPageCache s))%nat.
Proof.
  unfold getCachedRenderedPage.
  destruct (JsMap.get key_eqb key (renderedPageCache s)) as [cached|];
    [|cbn; repeat split; auto].
  destruct (now - timestamp cached <? 5 * 60 * 1000)%Z;
    cbn; repeat split; auto.
  - apply (wf_delete key_eqb).
  - apply length_delete_le.
Qed.

Lemma cacheRenderedPage_cache key data now s :
  let s' := cacheRenderedPage key data now s in
  loadingShown s' = loadingShown s /\
  maxPageCacheSize s' = maxPageCacheSize s /\
  errorShown s' = errorShown s /\
  (JsMap.wf (renderedPageCache s) -> JsMap.wf (renderedPageCache s')) /\
  ((1 <= maxPageCacheSize s)%nat ->
   (JsMap.size (renderedPageCache s) <= maxPageCacheSize s)%nat ->
   (JsMap.size (renderedPageCache s') <= maxPageCacheSize s)%nat).
Proof.
  unfold cacheRenderedPage.
  destruct (Nat.leb_spec (maxPageCacheSize s) (JsMap.size (renderedPageCache s)))
    as [Hfull|Hroom].
  - destruct (JsMap.first_key (renderedPageCache s)) as [firstKey|] eqn:F.
    + cbn. repeat split.
      * intros W. apply (wf_set key_eqb key_eqb_eq), (wf_delete key_eqb), W.
      * intros H1 Hle. unfold JsMap.size in *.
        pose proof (delete_first_key key_eqb key_eqb_eq _ _ F) as D.
        pose proof (length_set_le key_eqb key (mkPageEntry data now)
                      (JsMap.delete key_eqb firstKey (renderedPageCache s))).
        lia.
    + cbn. repeat split.
      * apply (wf_set key_eqb key_eqb_eq).
      * intros H1 Hle. unfold JsMap.size in *.
        destruct (renderedPageCache s); cbn in *; [lia|].
        destruct p. discriminate.
  - cbn. repeat split.
    + apply (wf_set key_eqb key_eqb_eq).
    + intros H1 Hle. unfold JsMap.size in *.
      pose proof (length_set_le key_eqb key (mkPageEntry data now)
                    (renderedPageCache s)). lia.
Qed.

Lemma renderPage_cache n env s :
  let s' := renderPage n env s in
  loadingShown s' = loadingShown s /\
  maxPageCacheSize s' = maxPageCacheSize s /\
  (JsMap.wf (renderedPageCache s) -> JsMap.wf (renderedPageCache s')) /\
  ((1 <= maxPageCacheSize s)%nat ->
   (JsMap.size (renderedPageCache s) <= maxPageCacheSize s)%nat ->
   (JsMap.size (renderedPageCache s') <= maxPageCacheSize s)%nat) /\
  (currentPage s' = currentPage s \/
   (currentPage s' = n /\ (1 <= n <= totalPages s)%Z)).
Proof.
  unfold renderPage.
  destruct (pdfDocument s) as [doc|]; [|cbn; repeat split; auto].
  destruct ((n <? 1)%Z || (n >? totalPages s)%Z) eqn:G;
    [cbn; repeat split; auto|].
  assert (Hn : (1 <= n <= totalPages s)%Z).
  { apply orb_false_iff in G. rewrite Z.gtb_ltb in G.
    rewrite !Z.ltb_ge in G. lia. }
  pose proof (getCachedRenderedPage_cache (cacheKey doc n (scale s))
                (lookupTime env) s) as C.
  pose proof (getCachedRenderedPage_frame (cacheKey doc n (scale s))
                (lookupTime env) s) as [_ Hcp].
  destruct (getCachedRenderedPage (cacheKey doc n (scale s)) (lookupTime env) s)
    as [[img|] s1]; cbn [snd] in C, Hcp; cbv zeta in C;
    destruct C as (C1 & C2 & C3 & C4 & C5 & C6).
  - unfold JsMap.size in *. cbn.
    split; [|split; [|split; [|split]]]; auto; try lia.
  - destruct (rendered env) as [data|].
    + pose proof (cacheRenderedPage_cache (cacheKey doc n (scale s)) data
                    (storeTime env) (with_canvas (Some data) s1)) as D.
      cbv zeta in D. revert D.
      generalize (cacheRenderedPage (cacheKey doc n (scale s)) data
                    (storeTime env) (with_canvas (Some data) s1)).
      intros r (D1 & D2 & D3 & D4 & D5). cbn in D1, D2, D3, D4, D5.
      unfold JsMap.size in *. cbn.
      split; [|split; [|split; [|split]]].
      * congruence.
      * congruence.
      * auto.
      * intros H1 Hle. rewrite <- C2. apply D5; rewrite C2; [exact H1|lia].
      * right. split; [reflexivity|exact Hn].
    + unfold JsMap.size in *. cbn.
      split; [|split; [|split; [|split]]]; auto; try lia.
Qed.

Lemma renderPage_settled n env s : settled s -> settled (renderPage n env s).
Proof.
  intros (Hp & Hl & Hs & Ht).
  destruct (renderPage_frame n env s) as [Hd _].
  destruct (renderPage_cache n env s) as (Hls & _ & _ & _ & Hc).
  unfold same_document in Hd.
  destruct Hd as (Hdoc & Htot & _ & Hil & _).
  unfold settled. rewrite Hls, Hil, Hdoc, Htot.
  repeat split; auto. destruct Hc as [-> | [-> Hn]]; lia.
Qed.

Lemma renderPage_caches_ok n env s :
  caches_ok s -> caches_ok (renderPage n env s).
Proof.
  intros (Wp & Wr & Hsz & Hmax & Hmp).
  destruct (renderPage_frame n env s) as [Hd _].
  destruct (renderPage_cache n env s) as (_ & Hm & Hw & Hle & _).
  unfold same_document in Hd.
  destruct Hd as (_ & _ & _ & _ & Hpc & Hmpc & _).
  unfold caches_ok. rewrite Hpc, Hmpc, Hm.
  repeat split; auto. apply Hle; lia.
Qed.

Lemma with_scale_settled z s : settled s -> settled (with_scale z s).
Proof. intros H. exact H. Qed.

Lemma with_scale_caches_ok z s : caches_ok s -> caches_ok (with_scale z s).
Proof. intros H. exact H. Qed.

Lemma setZoom_keeps (P : t -> Prop) z env s :
  (forall n e s, P s -> P (renderPage n e s)) ->
  (forall z s, P s -> P (with_scale z s)) ->
  P s -> P (setZoom z env s).
Proof.
  intros Hr Hw H. unfold setZoom. destruct (pdfDocument s); [|exact H].
  destruct (_ || _); [exact H|]. now apply Hr, Hw.
Qed.

(** *** What the sweeps touch *)

Lemma pdf_cleanup_state now l : forall s,
  fold_left (pdf_cleanup_step now) l s =
  mk (pdfDocument s) (currentPage s) (totalPages s) (scale s) (isLoading s)
     (JsMap.delete_where String.eqb (pdf_idle now) l (pdfCache s))
     (maxPdfCacheSize s) (renderedPageCache s) (maxPageCacheSize s)
     (canvas s) (loadingShown s) (errorShown s)
     (destroyed s ++ map (fun e => document (snd e)) (filter (pdf_idle now) l))
     (requests s).
Proof.
  unfold JsMap.delete_where.
  induction l as [|e l IH]; intros s.
  - cbn. rewrite app_nil_r. now destruct s.
  - cbn [fold_left filter]. rewrite IH, pdf_cleanup_step_eq.
    destruct (pdf_idle now e); [|reflexivity].
    cbn. now rewrite <- app_assoc.
Qed.

Lemma page_cleanup_state now l : forall s,
  fold_left (page_cleanup_step now) l s =
  with_renderedPageCache
    (JsMap.delete_where key_eqb (page_stale now) l (renderedPageCache s)) s.
Proof.
  unfold JsMap.delete_where.
  induction l as [|e l IH]; intros s.
  - cbn. now destruct s.
  - cbn [fold_left]. rewrite IH, page_cleanup_step_eq.
    destruct (page_stale now e); reflexivity.
Qed.

Lemma destroy_all_state (l : list (string * PdfEntry)) : forall s,
  fold_left (fun s e => destroy (document (snd e)) s) l s =
  mk (pdfDocument s) (currentPage s) (totalPages s) (scale s) (isLoading s)
     (pdfCache s) (maxPdfCacheSize s) (renderedPageCache s)
     (maxPageCacheSize s) (canvas s) (loadingShown s) (errorShown s)
     (destroyed s ++ map (fun e => document (snd e)) l) (requests s).
Proof.
  induction l as [|e l IH]; intros s.
  - cbn. rewrite app_nil_r. now destruct s.
  - cbn [fold_left map]. rewrite IH. cbn. now rewrite <- app_assoc.
Qed.

Lemma performPdfMemoryCleanup_state now s :
  performPdfMemoryCleanup now s =
  mk (pdfDocument s) (currentPage s) (totalPages s) (scale s) (isLoading s)
     (JsMap.delete_where String.eqb (pdf_idle now) (pdfCache s) (pdfCache s))
     (maxPdfCacheSize s)
     (JsMap.delete_where key_eqb (page_stale now) (renderedPageCache s)
        (renderedPageCache s))
     (maxPageCacheSize s) (canvas s) (loadingShown s) (errorShown s)
     (destroyed s
      ++ map (fun e => document (snd e)) (filter (pdf_idle now) (pdfCache s)))
     (requests s).
Proof.
  unfold performPdfMemoryCleanup. cbv zeta.
  rewrite page_cleanup_state, pdf_cleanup_state. reflexivity.
Qed.

Lemma clearPdfCache_state s :
  clearPdfCache s =
  mk (pdfDocument s) (currentPage s) (totalPages s) (scale s) (isLoading s)
     [] (maxPdfCacheSize s) [] (maxPageCacheSize s) (canvas s)
     (loadingShown s) (errorShown s)
     (destroyed s ++ map (fun e => document (snd e)) (pdfCache s))
     (requests s).
Proof.
  unfold clearPdfCache. cbv zeta. rewrite destroy_all_state. reflexivity.
Qed.

(** *** What loading touches *)

Lemma cachePDF_more pdfPath doc now s :
  let s' := cachePDF pdfPath doc now s in
  isLoading s' = isLoading s /\ loadingShown s' = loadingShown s /\
  renderedPageCache s' = renderedPageCache s /\
  maxPageCacheSize s' = maxPageCacheSize s /\
  maxPdfCacheSize s' = maxPdfCacheSize s /\
  (JsMap.wf (pdfCache s) -> JsMap.wf (pdfCache s')).
Proof.
  unfold cachePDF.
  destruct (maxPdfCacheSize s <=? JsMap.size (pdfCache s))%nat;
    [|cbn; repeat split; apply (wf_set String.eqb String.eqb_eq)].
  destruct (fst (oldest now (pdfCache s))) as [oldestPath|];
    [|cbn; repeat split; apply (wf_set String.eqb String.eqb_eq)].
  destruct (String.eqb oldestPath "");
    [cbn; repeat split; apply (wf_set String.eqb String.eqb_eq)|].
  destruct (JsMap.get String.eqb oldestPath (pdfCache s)); cbn; repeat split;
    intros W; apply (wf_set String.eqb String.eqb_eq), (wf_delete String.eqb), W.
Qed.

Lemma render_then_hide n env s :
  let r := hideLoadingState (renderPage n env s) in
  isLoading r = isLoading s /\
  ((1 <= currentPage s)%Z -> (1 <= currentPage r)%Z) /\
  ((forall doc, pdfDocument s = Some doc -> totalPages s = numPages doc) ->
   forall doc, pdfDocument r = Some doc -> totalPages r = numPages doc) /\
  (caches_ok s -> caches_ok r) /\
  loadingShown r = false.
Proof.
  destruct (renderPage_frame n env s) as [Hd _].
  destruct (renderPage_cache n env s) as (_ & _ & _ & _ & Hc).
  pose proof (renderPage_caches_ok n env s) as Hok.
  unfold same_document in Hd. destruct Hd as (Hdoc & Htot & _ & Hil & _).
  revert Hdoc Htot Hil Hc Hok. generalize (renderPage n env s). intros r.
  cbn. intros Hdoc Htot Hil Hc Hok. rewrite Hdoc, Htot.
  split; [exact Hil|]. split; [destruct Hc as [-> | [-> Hn]]; lia|].
  split; [auto|]. split; [|reflexivity].
  intros H. exact (Hok H).
Qed.

Ltac keep :=
  cbn; repeat match goal with |- _ /\ _ => split end; auto;
  try match goal with |- ?P -> _ => let H := fresh in intros H; exact H end.

Lemma loadPDF_try_keeps pdfPath env s :
  let r := loadPDF_try pdfPath env s in
  isLoading (fst r) = isLoading s /\
  ((1 <= currentPage s)%Z -> (1 <= currentPage (fst r))%Z) /\
  ((forall doc, pdfDocument s = Some doc -> totalPages s = numPages doc) ->
   forall doc, pdfDocument (fst r) = Some doc ->
               totalPages (fst r) = numPages doc) /\
  (caches_ok s -> caches_ok (fst r)) /\
  match snd r with
  | App.Resolved _ => loadingShown (fst r) = false
  | App.Rejected _ =>
      loadingShown (fst r) = loadingShown s /\
      pdfCache (fst r) = pdfCache s /\
      renderedPageCache (fst r) = renderedPageCache s /\
      destroyed (fst r) = destroyed s /\
      currentPage (fst r) = currentPage s /\
      canvas (fst r) = canvas s /\ errorShown (fst r) = errorShown s
  end.
Proof.
  unfold loadPDF_try.
  destruct (JsMap.get String.eqb pdfPath (pdfCache s)) as [cachedPdf|] eqn:E.
  - cbv zeta. cbn [fst snd currentPage with_pdfCache with_currentPage].
    match goal with
    | |- context [renderPage 1 ?e ?s0] =>
        destruct (render_then_hide 1 e s0) as (R1 & R2 & R3 & R4 & R5);
        revert R1 R2 R3 R4 R5;
        generalize (hideLoadingState (renderPage 1 e s0))
    end.
    intros r R1 R2 R3 R4 R5. cbn in R1, R2, R3.
    split; [exact R1|]. split; [intros _; apply R2; lia|].
    split; [intros _; apply R3; intros doc H; now injection H as <-|].
    split; [|exact R5].
    intros (Wp & Wr & Hsz & Hmax & Hmp). apply R4.
    unfold caches_ok. cbn. repeat split; auto.
    now apply (wf_set String.eqb String.eqb_eq).
  - destruct (pdfjsLibDefined env); cbn [negb];
      [|keep].
    destruct (head env) as [m|ok status statusText ct].
    { destruct (includes m "Failed to fetch" || includes m "NetworkError");
        keep. }
    destruct ok; cbn [negb]; [|keep].
    destruct (loaded env) as [[doc|]|name message];
      [| keep; discriminate | keep].
    cbv zeta. cbn [totalPages with_totalPages].
    destruct (numPages doc =? 0)%Z.
    { keep. intros _ d H. now injection H as <-. }
    cbn [fst snd currentPage with_currentPage].
    match goal with
    | |- context [renderPage ?n ?e (cachePDF ?p ?d ?t0 ?s0)] =>
        destruct (render_then_hide n e (cachePDF p d t0 s0))
          as (R1 & R2 & R3 & R4 & R5);
        destruct (cachePDF_frame p d t0 s0) as (F1 & F2 & F3 & _);
        destruct (cachePDF_more p d t0 s0) as (G1 & G2 & G3 & G4 & G5 & G6);
        revert R1 R2 R3 R4 R5 F1 F2 F3 G1 G2 G3 G4 G5 G6;
        generalize (hideLoadingState (renderPage n e (cachePDF p d t0 s0)));
        generalize (cachePDF p d t0 s0)
    end.
    intros c r R1 R2 R3 R4 R5 F1 F2 F3 G1 G2 G3 G4 G5 G6.
    cbn in F1, F2, F3, G1, G2, G3, G4, G5, G6.
    split; [congruence|]. split; [intros _; apply R2; lia|].
    split.
    { intros _. apply R3. intros d. rewrite F1, F3. intros H.
      now injection H as <-. }
    split; [|exact R5].
    intros (Wp & Wr & Hsz & Hmax & Hmp). apply R4.
    unfold caches_ok. rewrite G3, G4, G5. repeat split; auto.
Qed.

Lemma loadPDF_settled pdfPath env s :
  settled s -> settled (fst (loadPDF pdfPath env s)).
Proof.
  intros (Hp & Hl & Hs & Ht). unfold loadPDF. rewrite Hl.
  destruct (String.eqb (JS.trim pdfPath) ""); [cbn; repeat split; auto|].
  cbv zeta.
  match goal with
  | |- context [loadPDF_try ?p ?e ?s0] =>
      destruct (loadPDF_try_keeps p e s0) as (K1 & K2 & K3 & _ & K5);
      revert K1 K2 K3 K5; destruct (loadPDF_try p e s0) as [s' [[]|message]]
  end; cbn; intros K1 K2 K3 K5; repeat split; auto.
Qed.

Lemma loadPDF_caches_ok pdfPath env s :
  caches_ok s -> caches_ok (fst (loadPDF pdfPath env s)).
Proof.
  intros H. unfold loadPDF. destruct (isLoading s); [exact H|].
  destruct (String.eqb (JS.trim pdfPath) ""); [exact H|].
  cbv zeta.
  match goal with
  | |- context [loadPDF_try ?p ?e ?s0] =>
      destruct (loadPDF_try_keeps p e s0) as (_ & _ & _ & K4 & _);
      revert K4; destruct (loadPDF_try p e s0) as [s' [[]|message]]
  end; cbn; intros K4; now apply K4.
Qed.

Lemma run_settled c s : settled s -> settled (run c s).
Proof.
  intros H. destruct c; cbn [run].
  - now apply loadPDF_settled.
  - now apply renderPage_settled.
  - unfold nextPage. destruct (pdfDocument s); [|exact H].
    destruct (_ >=? _)%Z; [exact H|]. now apply renderPage_settled.
  - unfold previousPage. destruct (pdfDocument s); [|exact H].
    destruct (_ <=? _)%Z; [exact H|]. now apply renderPage_settled.
  - unfold goToPage. destruct (pdfDocument s); [|exact H].
    destruct (_ || _); [exact H|]. now apply renderPage_settled.
  - unfold zoomIn. destruct (pdfDocument s); [|exact H].
    apply setZoom_keeps; auto using renderPage_settled, with_scale_settled.
  - unfold zoomOut. destruct (pdfDocument s); [|exact H].
    apply setZoom_keeps; auto using renderPage_settled, with_scale_settled.
  - apply setZoom_keeps; auto using renderPage_settled, with_scale_settled.
  - unfold resetZoom. destruct (pdfDocument s); [|exact H].
    destruct fit; [|exact H].
    apply setZoom_keeps; auto using renderPage_settled, with_scale_settled.
  - destruct H as (Hp & Hl & Hs & Ht). unfold hidePDF_timeout, settled.
    destruct (pdfDocument s) eqn:E; cbn; rewrite ?E;
      (split; [lia|split; [exact Hl|split; [exact Hs|]]]);
      intros d0 Hd; discriminate Hd.
  - rewrite performPdfMemoryCleanup_state. exact H.
  - rewrite clearPdfCache_state. exact H.
Qed.

Lemma run_caches_ok c s : caches_ok s -> caches_ok (run c s).
Proof.
  intros H. destruct c; cbn [run].
  - now apply loadPDF_caches_ok.
  - now apply renderPage_caches_ok.
  - unfold nextPage. destruct (pdfDocument s); [|exact H].
    destruct (_ >=? _)%Z; [exact H|]. now apply renderPage_caches_ok.
  - unfold previousPage. destruct (pdfDocument s); [|exact H].
    destruct (_ <=? _)%Z; [exact H|]. now apply renderPage_caches_ok.
  - unfold goToPage. destruct (pdfDocument s); [|exact H].
    destruct (_ || _); [exact H|]. now apply renderPage_caches_ok.
  - unfold zoomIn. destruct (pdfDocument s); [|exact H].
    apply setZoom_keeps; auto using renderPage_caches_ok, with_scale_caches_ok.
  - unfold zoomOut. destruct (pdfDocument s); [|exact H].
    apply setZoom_keeps; auto using renderPage_caches_ok, with_scale_caches_ok.
  - apply setZoom_keeps; auto using renderPage_caches_ok, with_scale_caches_ok.
  - unfold resetZoom. destruct (pdfDocument s); [|exact H].
    destruct fit; [|exact H].
    apply setZoom_keeps; auto using renderPage_caches_ok, with_scale_caches_ok.
  - destruct H as (Wp & Wr & Hsz & Hmax & Hmp). unfold hidePDF_timeout.
    destruct (pdfDocument s); cbn; repeat split; auto.
  - destruct H as (Wp & Wr & Hsz & Hmax & Hmp).
    rewrite performPdfMemoryCleanup_state. unfold caches_ok. cbn.
    repeat split; auto.
    + now apply wf_delete_where.
    + now apply wf_delete_where.
    + unfold JsMap.size in *.
      pose proof (length_delete_where key_eqb (page_stale now)
                    (renderedPageCache s) (renderedPageCache s)). lia.
  - destruct H as (Wp & Wr & Hsz & Hmax & Hmp).
    rewrite clearPdfCache_state. unfold caches_ok. cbn.
    repeat split; auto; try constructor. lia.
Qed.

Lemma init_settled : settled init.
Proof. unfold settled. cbn. repeat split; try lia. discriminate. Qed.

Lemma init_caches_ok : caches_ok init.
Proof. unfold caches_ok. cbn. repeat split; try constructor. lia. Qed.

Lemma run_all_keeps (P : t -> Prop) :
  (forall c s, P s -> P (run c s)) ->
  forall cs s, P s -> P (run_all cs s).
Proof.
  intros Hstep. unfold run_all.
  induction cs as [|c cs IH]; intros s H; cbn; [exact H|].
  now apply IH, Hstep.
Qed.

(** Whatever calls were made on a fresh viewer, between two calls the page
    number is at least 1, no load is in progress, the loading indicator is
    off, and the page count is that of the current document. *)
Theorem viewer_settled (cs : list call) :
  let s := run_all cs init in
  (1 <= currentPage s)%Z /\ isLoading s = false /\ loadingShown s = false /\
  (forall doc, pdfDocument s = Some doc -> totalPages s = numPages doc).
Proof.
  apply (run_all_keeps settled run_settled cs init init_settled).
Qed.

Lemma viewer_settled_witness :
  let env := mkLoadEnv true 5 (Response true 200 "OK" (Some "application/pdf"))
               (PdfLoaded (Some (mkDocument 1 3 (Some "f1")))) 6
               (mkRenderEnv 7 (Some 1%nat) 8) in
  totalPages (run_all [LoadPDF "sol/20220601.pdf" env;
                       NextPage (mkRenderEnv 9 None 9)] init) = 3%Z.
Proof.
  cbv zeta.
  apply (proj2 (proj2 (proj2
           (viewer_settled
              [LoadPDF "sol/20220601.pdf"
                 (mkLoadEnv true 5
                    (Response true 200 "OK" (Some "application/pdf"))
                    (PdfLoaded (Some (mkDocument 1 3 (Some "f1")))) 6
                    (mkRenderEnv 7 (Some 1%nat) 8));
               NextPage (mkRenderEnv 9 None 9)])))
           (mkDocument 1 3 (Some "f1"))).
  vm_compute. reflexivity.
Defined.

(** Whatever calls were made on a fresh viewer, both caches hold each key
    once and the rendered-page cache holds at most 20 pages. *)
Theorem viewer_caches_bounded (cs : list call) :
  let s := run_all cs init in
  JsMap.wf (pdfCache s) /\ JsMap.wf (renderedPageCache s) /\
  (JsMap.size (renderedPageCache s) <= 20)%nat /\
  maxPageCacheSize s = 20%nat /\ maxPdfCacheSize s = 5%nat.
Proof.
  destruct (run_all_keeps caches_ok run_caches_ok cs init init_caches_ok)
    as (Wp & Wr & Hsz & Hmax & Hmp).
  cbv zeta. rewrite Hmax in Hsz. repeat split; assumption.
Qed.

(** *** Turning pages *)

Lemma guard_in_range n s :
  (1 <= n <= totalPages s)%Z ->
  (n <? 1)%Z || (n >? totalPages s)%Z = false.
Proof.
  intros H. apply orb_false_iff. rewrite Z.gtb_ltb, !Z.ltb_ge. lia.
Qed.

Lemma guard_out_of_range n s :
  (n < 1 \/ totalPages s < n)%Z ->
  (n <? 1)%Z || (n >? totalPages s)%Z = true.
Proof.
  intros H. apply orb_true_iff. rewrite Z.gtb_ltb, !Z.ltb_lt. lia.
Qed.

Lemma renderPage_current n env s doc data :
  pdfDocument s = Some doc -> (1 <= n <= totalPages s)%Z ->
  rendered env = Some data ->
  currentPage (renderPage n env s) = n.
Proof.
  intros Hd Hn Hr. unfold renderPage. rewrite Hd, (guard_in_range n s Hn).
  destruct (getCachedRenderedPage (cacheKey doc n (scale s)) (lookupTime env) s)
    as [[img|] s1]; [reflexivity|].
  rewrite Hr. reflexivity.
Qed.

(** At the ends of the document, and without a document, the page
    operations change nothing at all: [nextPage] when [canGoNext] is
    false, [previousPage] when [canGoPrevious] is false, and [goToPage]
    and [renderPage] for a page number outside 1..totalPages. *)
Theorem navigation_edges (env : RenderEnv) (s : t) :
  (canGoNext s = false -> nextPage env s = s) /\
  (canGoPrevious s = false -> previousPage env s = s) /\
  (forall n, (n < 1 \/ totalPages s < n)%Z ->
             goToPage n env s = s /\ renderPage n env s = s) /\
  (pdfDocument s = None ->
   forall n, goToPage n env s = s /\ renderPage n env s = s).
Proof.
  unfold canGoNext, canGoPrevious, hasDocument, nextPage, previousPage,
    goToPage, renderPage.
  destruct (pdfDocument s) as [doc|]; cbn [andb];
    [|repeat split; reflexivity].
  split; [|split; [|split]].
  - intros H. apply Z.ltb_ge in H.
    destruct (Z.geb_spec (currentPage s) (totalPages s)); [reflexivity|lia].
  - intros H. rewrite Z.gtb_ltb in H. apply Z.ltb_ge in H.
    destruct (Z.leb_spec (currentPage s) 1); [reflexivity|lia].
  - intros n Hn. rewrite (guard_out_of_range n s Hn). split; reflexivity.
  - discriminate.
Qed.

Lemma navigation_edges_witness :
  let env := mkLoadEnv true 5 (Response true 200 "OK" (Some "application/pdf"))
               (PdfLoaded (Some (mkDocument 1 3 (Some "f1")))) 6
               (mkRenderEnv 7 (Some 1%nat) 8) in
  let s := fst (loadPDF "sol/20220601.pdf" env init) in
  canGoPrevious s = false /\
  previousPage (mkRenderEnv 9 (Some 2%nat) 9) s = s.
Proof.
  cbv zeta.
  assert (H : canGoPrevious
                (fst (loadPDF "sol/20220601.pdf"
                        (mkLoadEnv true 5
                           (Response true 200 "OK" (Some "application/pdf"))
                           (PdfLoaded (Some (mkDocument 1 3 (Some "f1")))) 6
                           (mkRenderEnv 7 (Some 1%nat) 8)) init)) = false)
    by (vm_compute; reflexivity).
  split; [exact H|].
  exact (proj1 (proj2 (navigation_edges (mkRenderEnv 9 (Some 2%nat) 9) _)) H).
Defined.

(** When [canGoNext] holds and PDF.js renders, [nextPage] moves one page
    forward; [previousPage] is then possible and leads back to the page
    where one started; [goToPage] to a page of the document arrives
    there. *)
Theorem page_turning (env env' : RenderEnv) (s : t) (doc : Document)
    (data data' : ImageData) :
  pdfDocument s = Some doc -> (1 <= currentPage s)%Z ->
  rendered env = Some data -> rendered env' = Some data' ->
  (canGoNext s = true ->
   let s1 := nextPage env s in
   currentPage s1 = (currentPage s + 1)%Z /\ canGoPrevious s1 = true /\
   currentPage (previousPage env' s1) = currentPage s /\
   totalPages (previousPage env' s1) = totalPages s) /\
  (forall n, (1 <= n <= totalPages s)%Z ->
             currentPage (goToPage n env s) = n).
Proof.
  intros Hd Hp Hr Hr'. split.
  - unfold canGoNext, hasDocument. rewrite Hd. cbn [andb]. intros Hn.
    apply Z.ltb_lt in Hn. cbv zeta.
    assert (E1 : nextPage env s = renderPage (currentPage s + 1) env s).
    { unfold nextPage. rewrite Hd.
      destruct (Z.geb_spec (currentPage s) (totalPages s)); [lia|reflexivity]. }
    rewrite E1.
    destruct (renderPage_frame (currentPage s + 1) env s) as [F _].
    unfold same_document in F. destruct F as (Fd & Ft & _).
    pose proof (renderPage_current (currentPage s + 1) env s doc data Hd
                  ltac:(lia) Hr) as C1.
    revert Fd Ft C1. generalize (renderPage (currentPage s + 1) env s).
    intros s1 Fd Ft C1. rewrite Hd in Fd.
    split; [exact C1|]. split.
    { unfold canGoPrevious, hasDocument. rewrite Fd, C1. cbn [andb].
      rewrite Z.gtb_ltb. apply Z.ltb_lt. lia. }
    assert (E2 : previousPage env' s1 = renderPage (currentPage s1 - 1) env' s1).
    { unfold previousPage. rewrite Fd.
      destruct (Z.leb_spec (currentPage s1) 1); [lia|reflexivity]. }
    rewrite E2.
    destruct (renderPage_frame (currentPage s1 - 1) env' s1) as [F' _].
    unfold same_document in F'. destruct F' as (_ & Ft' & _).
    rewrite Ft', Ft. split; [|reflexivity].
    rewrite (renderPage_current (currentPage s1 - 1) env' s1 doc data' Fd);
      [lia|lia|exact Hr'].
  - intros n Hn. unfold goToPage. rewrite Hd, (guard_in_range n s Hn).
    now apply (renderPage_current n env s doc data).
Qed.

Lemma page_turning_witness :
  let renv := mkRenderEnv 7 (Some 1%nat) 8 in
  let env := mkLoadEnv true 5 (Response true 200 "OK" (Some "application/pdf"))
               (PdfLoaded (Some (mkDocument 1 3 (Some "f1")))) 6 renv in
  let s := fst (loadPDF "sol/20220601.pdf" env init) in
  currentPage (nextPage renv s) = 2%Z /\
  currentPage (previousPage renv (nextPage renv s)) = 1%Z.
Proof.
  cbv zeta.
  pose proof (proj1 (page_turning (mkRenderEnv 7 (Some 1%nat) 8)
                (mkRenderEnv 7 (Some 1%nat) 8)
                (fst (loadPDF "sol/20220601.pdf"
                        (mkLoadEnv true 5
                           (Response true 200 "OK" (Some "application/pdf"))
                           (PdfLoaded (Some (mkDocument 1 3 (Some "f1")))) 6
                           (mkRenderEnv 7 (Some 1%nat) 8)) init))
                (mkDocument 1 3 (Some "f1")) 1%nat 1%nat
                eq_refl ltac:(vm_compute; discriminate) eq_refl eq_refl)
                eq_refl) as H.
  cbv zeta in H. destruct H as (H1 & _ & H2 & _).
  split; [rewrite H1|rewrite H2]; vm_compute; reflexivity.
Defined.

(** *** Rendering the same page again *)

(** After a page was rendered, its pixels are on the canvas and in the
    cache; rendering the same page again while that entry is younger than
    five minutes changes nothing and needs nothing from PDF.js. *)
Theorem renderPage_again (n : Z) (env env' : RenderEnv) (s : t)
    (doc : Document) (data : ImageData) :
  pdfDocument s = Some doc -> (1 <= n <= totalPages s)%Z ->
  rendered env = Some data ->
  let s1 := renderPage n env s in
  exists entry,
    JsMap.get key_eqb (cacheKey doc n (scale s)) (renderedPageCache s1)
      = Some entry /\
    canvas s1 = Some (imageData entry) /\
    ((lookupTime env' - timestamp entry < 5 * 60 * 1000)%Z ->
     renderPage n env' s1 = s1).
Proof.
  intros Hd Hn Hr. cbv zeta.
  destruct (renderPage_valid n env s doc data Hd Hn Hr)
    as (img & entry & Hc & Hg & Hi).
  pose proof (renderPage_current n env s doc data Hd Hn Hr) as Hcur.
  destruct (renderPage_frame n env s) as [F _].
  unfold same_document in F. destruct F as (Fd & Ft & Fs & _).
  revert Hc Hg Hcur Fd Ft Fs. generalize (renderPage n env s).
  intros s1 Hc Hg Hcur Fd Ft Fs.
  exists entry. split; [exact Hg|]. split; [now rewrite Hc, Hi|].
  intros Hfresh. unfold renderPage.
  rewrite Fd, Hd, Ft, (guard_in_range n s Hn), Fs.
  unfold getCachedRenderedPage. rewrite Hg.
  destruct (Z.ltb_spec (lookupTime env' - timestamp entry) (5 * 60 * 1000));
    [|lia].
  rewrite Hi, <- Hc, <- Hcur. now destruct s1.
Qed.

Lemma renderPage_again_witness :
  let renv := mkRenderEnv 7 (Some 1%nat) 8 in
  let env := mkLoadEnv true 5 (Response true 200 "OK" (Some "application/pdf"))
               (PdfLoaded (Some (mkDocument 1 3 (Some "f1")))) 6 renv in
  let s := fst (loadPDF "sol/20220601.pdf" env init) in
  exists entry,
    JsMap.get key_eqb (cacheKey (mkDocument 1 3 (Some "f1")) 2 (scale s))
      (renderedPageCache (renderPage 2 renv s)) = Some entry /\
    canvas (renderPage 2 renv s) = Some (imageData entry) /\
    ((lookupTime (mkRenderEnv 9 None 9) - timestamp entry < 5 * 60 * 1000)%Z ->
     renderPage 2 (mkRenderEnv 9 None 9) (renderPage 2 renv s)
     = renderPage 2 renv s).
Proof.
  cbv zeta.
  apply (renderPage_again 2 (mkRenderEnv 7 (Some 1%nat) 8)
           (mkRenderEnv 9 None 9)
           (fst (loadPDF "sol/20220601.pdf"
                   (mkLoadEnv true 5
                      (Response true 200 "OK" (Some "application/pdf"))
                      (PdfLoaded (Some (mkDocument 1 3 (Some "f1")))) 6
                      (mkRenderEnv 7 (Some 1%nat) 8)) init))
           (mkDocument 1 3 (Some "f1")) 1%nat).
  - reflexivity.
  - vm_compute. split; discriminate.
  - reflexivity.
Defined.

(** *** Loading again *)

Lemma loadPDF_try_hit pdfPath env s e :
  JsMap.get String.eqb pdfPath (pdfCache s) = Some e ->
  loadPDF_try pdfPath env s =
  (hideLoadingState
     (renderPage 1 (render env)
        (with_pdfCache
           (JsMap.set String.eqb pdfPath
              (mkPdfEntry (document e) (loadTime e) (accessTime env)
                 (accessCount e + 1) (entryPages e))
              (pdfCache s))
           (with_currentPage 1
              (with_totalPages (numPages (document e))
                 (with_pdfDocument (Some (document e)) s))))),
   App.Resolved tt).
Proof. intros H. unfold loadPDF_try. rewrite H. reflexivity. Qed.

Lemma loadPDF_hit pdfPath env s e :
  isLoading s = false -> JS.trim pdfPath <> "" ->
  JsMap.get String.eqb pdfPath (pdfCache s) = Some e ->
  let r := loadPDF pdfPath env s in
  snd r = App.Resolved tt /\
  pdfDocument (fst r) = Some (document e) /\
  totalPages (fst r) = numPages (document e) /\
  currentPage (fst r) = 1%Z /\
  requests (fst r) = requests s /\ destroyed (fst r) = destroyed s /\
  pdfCache (fst r) =
    JsMap.set String.eqb pdfPath
      (mkPdfEntry (document e) (loadTime e) (accessTime env)
         (accessCount e + 1) (entryPages e))
      (pdfCache s) /\
  isLoading (fst r) = false.
Proof.
  intros Hl Ht He. unfold loadPDF. rewrite Hl.
  destruct (String.eqb_spec (JS.trim pdfPath) ""); [contradiction|].
  cbv zeta.
  rewrite (loadPDF_try_hit pdfPath env
             (hideError (showLoadingState (with_isLoading true s))) e He).
  match goal with
  | |- context [renderPage 1 ?e ?s0] =>
      destruct (renderPage_frame 1 e s0) as [F C];
      revert F C; generalize (renderPage 1 e s0)
  end.
  intros r F C. unfold same_document in F. cbn in F, C.
  destruct F as (Fd & Ft & _ & _ & Fc & _ & Fx & Fr).
  cbn. repeat split; auto. tauto.
Qed.

(** A path that is in the document cache loads without any request: the
    cached document becomes current at page 1 with its page count,
    nothing is destroyed, and the entry records the access (count plus
    one, last access now) in its old place. *)
Theorem loadPDF_cached (pdfPath : string) (env : LoadEnv) (s : t)
    (e : PdfEntry) :
  isLoading s = false -> JS.trim pdfPath <> "" ->
  JsMap.get String.eqb pdfPath (pdfCache s) = Some e ->
  let r := loadPDF pdfPath env s in
  snd r = App.Resolved tt /\
  pdfDocument (fst r) = Some (document e) /\
  totalPages (fst r) = numPages (document e) /\
  currentPage (fst r) = 1%Z /\
  requests (fst r) = requests s /\ destroyed (fst r) = destroyed s /\
  JsMap.keys (pdfCache (fst r)) = JsMap.keys (pdfCache s) /\
  JsMap.get String.eqb pdfPath (pdfCache (fst r)) =
    Some (mkPdfEntry (document e) (loadTime e) (accessTime env)
            (accessCount e + 1) (entryPages e)) /\
  (forall p, p <> pdfPath ->
     JsMap.get String.eqb p (pdfCache (fst r))
     = JsMap.get String.eqb p (pdfCache s)).
Proof.
  intros Hl Ht He.
  destruct (loadPDF_hit pdfPath env s e Hl Ht He)
    as (H1 & H2 & H3 & H4 & H5 & H6 & H7 & H8).
  cbv zeta. rewrite H7. repeat split; auto.
  - now apply (keys_set_existing String.eqb String.eqb_eq) with (v' := e).
  - apply (get_set_same String.eqb String.eqb_eq).
  - intros p Hp. now apply (get_set_other String.eqb String.eqb_eq).
Qed.

Lemma loadPDF_cached_witness :
  let env := mkLoadEnv true 5 (Response true 200 "OK" (Some "application/pdf"))
               (PdfLoaded (Some (mkDocument 1 3 (Some "f1")))) 6
               (mkRenderEnv 7 (Some 1%nat) 8) in
  let s := fst (loadPDF "sol/20220601.pdf" env init) in
  let again := mkLoadEnv false 50 (FetchThrows "Failed to fetch")
                 (PdfThrows "Error" None) 60 (mkRenderEnv 70 None 80) in
  snd (loadPDF "sol/20220601.pdf" again s) = App.Resolved tt /\
  requests (fst (loadPDF "sol/20220601.pdf" again s)) = requests s.
Proof.
  cbv zeta.
  pose proof (loadPDF_cached "sol/20220601.pdf"
                (mkLoadEnv false 50 (FetchThrows "Failed to fetch")
                   (PdfThrows "Error" None) 60 (mkRenderEnv 70 None 80))
                (fst (loadPDF "sol/20220601.pdf"
                        (mkLoadEnv true 5
                           (Response true 200 "OK" (Some "application/pdf"))
                           (PdfLoaded (Some (mkDocument 1 3 (Some "f1")))) 6
                           (mkRenderEnv 7 (Some 1%nat) 8)) init))
                (mkPdfEntry (mkDocument 1 3 (Some "f1")) 6 6 1 3)
                eq_refl ltac:(vm_compute; discriminate) eq_refl) as H.
  cbv zeta in H. split; [exact (proj1 H)|].
  exact (proj1 (proj2 (proj2 (proj2 (proj2 H))))).
Defined.

(** [hidePDF] destroys the current document but leaves it in the document
    cache, so loading the same path again makes the destroyed document
    current, without any request. *)
Theorem reload_after_hide (pdfPath : string) (env : LoadEnv) (s : t)
    (e : PdfEntry) :
  isLoading s = false -> JS.trim pdfPath <> "" ->
  JsMap.get String.eqb pdfPath (pdfCache s) = Some e ->
  pdfDocument s = Some (document e) ->
  let hidden := hidePDF_timeout s in
  let r := loadPDF pdfPath env hidden in
  pdfDocument hidden = None /\ pdfCache hidden = pdfCache s /\
  destroyed hidden = (destroyed s ++ [document e])%list /\
  snd r = App.Resolved tt /\
  pdfDocument (fst r) = Some (document e) /\
  In (document e) (destroyed (fst r)) /\
  requests (fst r) = requests s.
Proof.
  intros Hl Ht He Hd. cbv zeta.
  assert (Hh : pdfDocument (hidePDF_timeout s) = None /\
               pdfCache (hidePDF_timeout s) = pdfCache s /\
               destroyed (hidePDF_timeout s) = (destroyed s ++ [document e])%list /\
               isLoading (hidePDF_timeout s) = false /\
               requests (hidePDF_timeout s) = requests s).
  { unfold hidePDF_timeout. rewrite Hd. cbn. repeat split. exact Hl. }
  destruct Hh as (A1 & A2 & A3 & A4 & A5).
  rewrite <- A2 in He.
  destruct (loadPDF_hit pdfPath env (hidePDF_timeout s) e A4 Ht He)
    as (H1 & H2 & _ & _ & H5 & H6 & _).
  rewrite A2 in He. cbv zeta in *.
  repeat split; auto.
  - rewrite H6, A3. apply in_or_app. right. now left.
  - now rewrite H5.
Qed.

Lemma reload_after_hide_witness :
  let env := mkLoadEnv true 5 (Response true 200 "OK" (Some "application/pdf"))
               (PdfLoaded (Some (mkDocument 1 3 (Some "f1")))) 6
               (mkRenderEnv 7 (Some 1%nat) 8) in
  let s := fst (loadPDF "sol/20220601.pdf" env init) in
  let r := loadPDF "sol/20220601.pdf" env (hidePDF_timeout s) in
  pdfDocument (fst r) = Some (mkDocument 1 3 (Some "f1")) /\
  In (mkDocument 1 3 (Some "f1")) (destroyed (fst r)).
Proof.
  cbv zeta.
  pose proof (reload_after_hide "sol/20220601.pdf"
                (mkLoadEnv true 5
                   (Response true 200 "OK" (Some "application/pdf"))
                   (PdfLoaded (Some (mkDocument 1 3 (Some "f1")))) 6
                   (mkRenderEnv 7 (Some 1%nat) 8))
                (fst (loadPDF "sol/20220601.pdf"
                        (mkLoadEnv true 5
                           (Response true 200 "OK" (Some "application/pdf"))
                           (PdfLoaded (Some (mkDocument 1 3 (Some "f1")))) 6
                           (mkRenderEnv 7 (Some 1%nat) 8)) init))
                (mkPdfEntry (mkDocument 1 3 (Some "f1")) 6 6 1 3)
                eq_refl ltac:(vm_compute; discriminate) eq_refl eq_refl) as H.
  cbv zeta in H. destruct H as (_ & _ & _ & _ & H5 & H6 & _).
  split; [exact H5|exact H6].
Defined.

(** *** A load that fails *)

(** A rejected [loadPDF] leaves both caches, the destroyed documents, the
    page number, the scale and the canvas as they were; the loading flag
    is cleared and a non-empty error message is shown. *)
Theorem loadPDF_rejected (pdfPath : string) (env : LoadEnv) (s : t)
    (message : string) :
  snd (loadPDF pdfPath env s) = App.Rejected message ->
  let s' := fst (loadPDF pdfPath env s) in
  isLoading s' = false /\
  pdfCache s' = pdfCache s /\ renderedPageCache s' = renderedPageCache s /\
  destroyed s' = destroyed s /\ currentPage s' = currentPage s /\
  scale s' = scale s /\ canvas s' = canvas s /\
  exists shown, errorShown s' = Some shown /\ shown <> "".
Proof.
  intros Hr. cbv zeta. pose proof (scale_loadPDF pdfPath env s) as Hsc.
  revert Hr Hsc. unfold loadPDF.
  destruct (isLoading s) eqn:Hl; [discriminate|].
  destruct (String.eqb (JS.trim pdfPath) "").
  { cbn. intros _ _. repeat split; auto.
    eexists. split; [reflexivity|discriminate]. }
  cbv zeta.
  match goal with
  | |- context [loadPDF_try ?p ?e ?s0] =>
      destruct (loadPDF_try_keeps p e s0) as (_ & _ & _ & _ & K);
      revert K; destruct (loadPDF_try p e s0) as [s' [[]|m]]
  end; [discriminate|].
  cbn. intros (K1 & K2 & K3 & K4 & K5 & K6 & K7) _ Hsc.
  repeat split; auto.
  destruct (String.eqb m "" || String.eqb m "PDF 로딩 실패") eqn:Em.
  - eexists. split; [reflexivity|discriminate].
  - exists m. split; [reflexivity|].
    apply orb_false_iff in Em. destruct Em as [Em _].
    now apply String.eqb_neq.
Qed.

Lemma loadPDF_rejected_witness :
  let env := mkLoadEnv true 5 (Response false 404 "Not Found" None)
               (PdfThrows "Error" None) 6 (mkRenderEnv 7 None 8) in
  isLoading (fst (loadPDF "sol/20220601.pdf" env init)) = false /\
  pdfCache (fst (loadPDF "sol/20220601.pdf" env init)) = [].
Proof.
  cbv zeta.
  pose proof (loadPDF_rejected "sol/20220601.pdf"
                (mkLoadEnv true 5 (Response false 404 "Not Found" None)
                   (PdfThrows "Error" None) 6 (mkRenderEnv 7 None 8))
                init _ eq_refl) as H.
  cbv zeta in H. split; [exact (proj1 H)|exact (proj1 (proj2 H))].
Defined.

(** *** Disposal *)

Lemma wf_filter {K V : Type} (f : K * V -> bool) (m : list (K * V)) :
  JsMap.wf m -> JsMap.wf (filter f m).
Proof.
  unfold JsMap.wf, JsMap.keys.
  induction m as [|e m IH]; cbn; intros H; [constructor|].
  inversion H as [|? ? Hn Hm]; subst.
  destruct (f e); cbn; [|now apply IH].
  constructor; [|now apply IH].
  intros Hin. apply Hn. apply in_map_iff in Hin.
  destruct Hin as [x [Hx Hin]]. apply filter_In in Hin.
  apply in_map_iff. exists x. tauto.
Qed.

Lemma filter_twice {A : Type} (f : A -> bool) (l : list A) :
  filter f (filter f l) = filter f l.
Proof.
  induction l as [|a l IH]; cbn; [reflexivity|].
  destruct (f a) eqn:E; cbn; rewrite ?E, IH; reflexivity.
Qed.

Lemma filter_none {A : Type} (f : A -> bool) (l : list A) :
  filter f (filter (fun e => negb (f e)) l) = [].
Proof.
  induction l as [|a l IH]; cbn; [reflexivity|].
  destruct (f a) eqn:E; cbn; rewrite ?E, IH; reflexivity.
Qed.

(** Neither the sweep nor [clearPdfCache] looks at what is on display: a
    cached document that is current is destroyed like any other and stays
    current. [clearPdfCache] destroys every cached document once, in cache
    order, and empties both caches. *)
Theorem disposal_ignores_display (s : t) :
  (pdfDocument (clearPdfCache s) = pdfDocument s /\
   pdfCache (clearPdfCache s) = [] /\
   renderedPageCache (clearPdfCache s) = [] /\
   destroyed (clearPdfCache s) =
     (destroyed s ++ map (fun e => document (snd e)) (pdfCache s))%list /\
   clearPdfCache (clearPdfCache s) = clearPdfCache s) /\
  (forall now pdfPath e,
      JsMap.wf (pdfCache s) ->
      In (pdfPath, e) (pdfCache s) ->
      pdfDocument s = Some (document e) ->
      (now - lastAccess e > 15 * 60 * 1000)%Z -> (accessCount e < 2)%Z ->
      let s' := performPdfMemoryCleanup now s in
      pdfDocument s' = Some (document e) /\
      In (document e) (destroyed s') /\
      JsMap.get String.eqb pdfPath (pdfCache s') = None).
Proof.
  split.
  - rewrite !clearPdfCache_state. cbn. repeat split.
    now rewrite app_nil_r.
  - intros now pdfPath e W Hin Hd Hage Hcount. cbv zeta.
    rewrite performPdfMemoryCleanup_state. cbn.
    assert (Hidle : pdf_idle now (pdfPath, e) = true).
    { unfold pdf_idle, idle, minutes. cbn.
      apply andb_true_iff. split.
      - rewrite Z.gtb_ltb. apply Z.ltb_lt. lia.
      - apply Z.ltb_lt. lia. }
    split; [exact Hd|]. split.
    + apply in_or_app. right.
      apply in_map_iff. exists (pdfPath, e). split; [reflexivity|].
      apply filter_In. now split.
    + rewrite (delete_where_self String.eqb String.eqb_eq _ _ W).
      apply (get_None String.eqb String.eqb_eq). intros Hk.
      apply in_map_iff in Hk. destruct Hk as [[k v] [Hk Hf]].
      cbn in Hk. subst k. apply filter_In in Hf. destruct Hf as [Hv Hn].
      pose proof (In_get String.eqb String.eqb_eq _ _ _ W Hv) as G1.
      pose proof (In_get String.eqb String.eqb_eq _ _ _ W Hin) as G2.
      rewrite G1 in G2. injection G2 as ->. rewrite Hidle in Hn.
      discriminate.
Qed.

Lemma disposal_ignores_display_witness :
  let env := mkLoadEnv true 5 (Response true 200 "OK" (Some "application/pdf"))
               (PdfLoaded (Some (mkDocument 1 3 (Some "f1")))) 6
               (mkRenderEnv 7 (Some 1%nat) 8) in
  let s := fst (loadPDF "sol/20220601.pdf" env init) in
  let s' := performPdfMemoryCleanup 1000000 s in
  pdfDocument s' = Some (mkDocument 1 3 (Some "f1")) /\
  In (mkDocument 1 3 (Some "f1")) (destroyed s').
Proof.
  cbv zeta.
  pose proof (proj2 (disposal_ignores_display
                (fst (loadPDF "sol/20220601.pdf"
                        (mkLoadEnv true 5
                           (Response true 200 "OK" (Some "application/pdf"))
                           (PdfLoaded (Some (mkDocument 1 3 (Some "f1")))) 6
                           (mkRenderEnv 7 (Some 1%nat) 8)) init)))
                1000000%Z "sol/20220601.pdf"
                (mkPdfEntry (mkDocument 1 3 (Some "f1")) 6 6 1 3)) as H.
  cbv zeta in H.
  assert (W : JsMap.wf
                (pdfCache
                   (fst (loadPDF "sol/20220601.pdf"
                           (mkLoadEnv true 5
                              (Response true 200 "OK" (Some "application/pdf"))
                              (PdfLoaded (Some (mkDocument 1 3 (Some "f1")))) 6
                              (mkRenderEnv 7 (Some 1%nat) 8)) init)))).
  { vm_compute. constructor; [intros []|constructor]. }
  specialize (H W (or_introl eq_refl) eq_refl ltac:(cbn; lia) ltac:(cbn; lia)).
  split; [exact (proj1 H)|exact (proj1 (proj2 H))].
Defined.

(** Sweeping twice at the same instant does no more than sweeping once:
    nothing further is removed, destroyed or released. *)
Theorem sweep_twice (now : Z) (c : ContentController.t) (v : t) :
  JsMap.wf (ContentController.imageCache c) ->
  JsMap.wf (pdfCache v) -> JsMap.wf (renderedPageCache v) ->
  ContentController.performMemoryCleanup now
    (ContentController.performMemoryCleanup now c)
  = ContentController.performMemoryCleanup now c /\
  performPdfMemoryCleanup now (performPdfMemoryCleanup now v)
  = performPdfMemoryCleanup now v.
Proof.
  intros Wc Wp Wr. split.
  - unfold ContentController.performMemoryCleanup.
    rewrite (image_cleanup_fold now (ContentController.imageCache c) c).
    cbn [ContentController.imageCache].
    rewrite image_cleanup_fold.
    cbn [ContentController.imageCache ContentController.maxCacheSize
         ContentController.released].
    rewrite (delete_where_self String.eqb String.eqb_eq _ _ Wc).
    rewrite (delete_where_self String.eqb String.eqb_eq _ _
               (wf_filter _ _ Wc)).
    rewrite filter_twice, filter_none. cbn. now rewrite app_nil_r.
  - rewrite !performPdfMemoryCleanup_state.
    cbn [pdfDocument currentPage totalPages scale isLoading pdfCache
         maxPdfCacheSize renderedPageCache maxPageCacheSize canvas
         loadingShown errorShown destroyed requests].
    rewrite (delete_where_self String.eqb String.eqb_eq _ _ Wp).
    rewrite (delete_where_self String.eqb String.eqb_eq _ _
               (wf_filter _ _ Wp)).
    rewrite (delete_where_self key_eqb key_eqb_eq _ _ Wr).
    rewrite (delete_where_self key_eqb key_eqb_eq _ _ (wf_filter _ _ Wr)).
    rewrite !filter_twice, filter_none. cbn. now rewrite app_nil_r.
Qed.

Lemma sweep_twice_witness :
  let img := ContentController.mkImage 0 10 10 in
  let c := ContentController.mk
             [("a", ContentController.mkEntry img 0 1 400);
              ("b", ContentController.mkEntry img 0 3 400)] 20 [] in
  ContentController.performMemoryCleanup 1000000
    (ContentController.performMemoryCleanup 1000000 c)
  = ContentController.performMemoryCleanup 1000000 c.
Proof.
  cbv zeta.
  apply (sweep_twice 1000000
           (ContentController.mk
              [("a", ContentController.mkEntry
                       (ContentController.mkImage 0 10 10) 0 1 400);
               ("b", ContentController.mkEntry
                       (ContentController.mkImage 0 10 10) 0 3 400)] 20 [])
           init).
  - unfold JsMap.wf. cbn. repeat constructor; cbn; intuition discriminate.
  - constructor.
  - constructor.
Defined.

End Viewer.

(** ** The image cache over time *)

Section Images.
Import ContentController.

Lemma loadImageFromCache_cache_ok imagePath preload now s :
  cache_ok s -> cache_ok (fst (loadImageFromCache imagePath preload now s)).
Proof.
  intros (W & Hsz & Hmax). unfold loadImageFromCache.
  destruct (JsMap.get String.eqb imagePath (imageCache s));
    [now repeat split|].
  destruct preload as [img|e]; [|now repeat split].
  unfold cache_ok, JsMap.size in *.
  destruct (Nat.leb_spec (maxCacheSize s) (List.length (imageCache s)))
    as [Hfull|Hroom].
  - destruct (JsMap.first_key (imageCache s)) as [firstKey|] eqn:F.
    + pose proof (delete_first_key String.eqb String.eqb_eq _ _ F) as D.
      pose proof (length_set_le String.eqb imagePath
                    (mkEntry img now 1 (estimateImageSize img))
                    (JsMap.delete String.eqb firstKey (imageCache s))) as L.
      destruct (JsMap.get String.eqb firstKey (imageCache s)); cbn;
        (split; [apply (wf_set String.eqb String.eqb_eq),
                   (wf_delete String.eqb), W|split; [lia|exact Hmax]]).
    + destruct (imageCache s) as [|[k v] l]; [|discriminate].
      cbn in *. lia.
  - pose proof (length_set_le String.eqb imagePath
                  (mkEntry img now 1 (estimateImageSize img))
                  (imageCache s)) as L.
    cbn. split; [now apply (wf_set String.eqb String.eqb_eq)|].
    split; [lia|exact Hmax].
Qed.

Lemma displayProblemImage_cache_ok imagePath preload nowStored nowAccess s :
  cache_ok s ->
  cache_ok (displayProblemImage imagePath preload nowStored nowAccess s).
Proof.
  intros H. unfold displayProblemImage.
  destruct (String.eqb (JS.trim imagePath) ""); [exact H|].
  pose proof (loadImageFromCache_cache_ok imagePath preload nowStored s H)
    as H1.
  destruct (loadImageFromCache imagePath preload nowStored s)
    as [s1 [img|e]]; cbn [fst] in H1; [|exact H1].
  destruct (JsMap.get String.eqb imagePath (imageCache s1)) as [d|] eqn:G;
    [|exact H1].
  destruct H1 as (W & Hsz & Hmax). unfold cache_ok, JsMap.size in *. cbn.
  split; [now apply (wf_set String.eqb String.eqb_eq)|].
  split; [|exact Hmax].
  rewrite (length_set String.eqb), G. exact Hsz.
Qed.

Lemma clearImageCache_state s :
  clearImageCache s =
  mk [] (maxCacheSize s)
     (released s ++ map (fun e : string * entry => image (snd e)) (imageCache s)).
Proof.
  unfold clearImageCache. cbv zeta.
  assert (F : forall l c,
             fold_left (fun s e => mk (imageCache s) (maxCacheSize s)
                                     (released s ++ [image (snd e)])) l c
             = mk (imageCache c) (maxCacheSize c)
                  (released c ++ map (fun e : string * entry => image (snd e)) l)).
  { induction l as [|e l IH]; intros c.
    - cbn. rewrite app_nil_r. now destruct c.
    - cbn [fold_left map]. rewrite IH. cbn. now rewrite <- app_assoc. }
  rewrite F. reflexivity.
Qed.

Lemma run_cache_ok c s : cache_ok s -> cache_ok (run c s).
Proof.
  intros H. destruct c; cbn [run].
  - now apply loadImageFromCache_cache_ok.
  - now apply displayProblemImage_cache_ok.
  - now apply displayProblemImage_cache_ok.
  - destruct H as (W & Hsz & Hmax). unfold performMemoryCleanup.
    rewrite image_cleanup_fold. unfold cache_ok, JsMap.size in *. cbn.
    split; [now apply wf_delete_where|]. split; [|exact Hmax].
    pose proof (length_delete_where String.eqb (Spec.image_idle now)
                  (imageCache s) (imageCache s)). lia.
  - destruct H as (W & Hsz & Hmax). rewrite clearImageCache_state.
    unfold cache_ok. cbn. split; [constructor|]. split; [lia|exact Hmax].
Qed.

(** Whatever cache operations ran on a fresh controller, the image cache
    holds each path once and never more than 20 images. *)
Theorem image_cache_bounded (cs : list call) :
  let s := run_all cs init in
  JsMap.wf (imageCache s) /\ (JsMap.size (imageCache s) <= 20)%nat /\
  maxCacheSize s = 20%nat.
Proof.
  assert (H : forall cs s, cache_ok s -> cache_ok (run_all cs s)).
  { unfold run_all. induction cs0 as [|c cs0 IH]; intros s H; cbn;
      [exact H|]. now apply IH, run_cache_ok. }
  destruct (H cs init) as (W & Hsz & Hmax).
  { unfold cache_ok. cbn. split; [constructor|]. split; [lia|reflexivity]. }
  cbv zeta. rewrite Hmax in Hsz. now repeat split.
Qed.

(** An image that was loaded is served from the cache afterwards: the
    next load of the same path returns the same image and leaves the state
    alone, whatever the network would answer. A load that fails leaves
    the cache as it was. *)
Theorem image_loaded_once (imagePath : string) (preload : App.outcome Image)
    (now : Z) (s : t) :
  (forall img,
      snd (loadImageFromCache imagePath preload now s) = App.Resolved img ->
      let s1 := fst (loadImageFromCache imagePath preload now s) in
      forall preload' now',
        loadImageFromCache imagePath preload' now' s1 = (s1, App.Resolved img)) /\
  (forall e,
      snd (loadImageFromCache imagePath preload now s) = App.Rejected e ->
      fst (loadImageFromCache imagePath preload now s) = s).
Proof.
  unfold loadImageFromCache at 1 2 4 5.
  destruct (JsMap.get String.eqb imagePath (imageCache s)) as [d|] eqn:G.
  - cbn [fst snd]. split; [|reflexivity].
    intros img H. injection H as <-. intros preload' now'.
    unfold loadImageFromCache. now rewrite G.
  - destruct preload as [img0|e0]; cbn [fst snd]; [|split; [discriminate|reflexivity]].
    split; [|discriminate].
    intros img H. injection H as <-. cbv zeta. intros preload' now'.
    unfold loadImageFromCache at 1. cbn [imageCache].
    now rewrite (get_set_same String.eqb String.eqb_eq).
Qed.

Lemma image_loaded_once_witness :
  let img := mkImage 0 10 10 in
  let s1 := fst (loadImageFromCache "mun/20220601.png" (App.Resolved img) 5 init) in
  loadImageFromCache "mun/20220601.png" (App.Rejected "offline") 9 s1
  = (s1, App.Resolved img).
Proof.
  cbv zeta.
  apply (proj1 (image_loaded_once "mun/20220601.png"
                  (App.Resolved (mkImage 0 10 10)) 5 init)
           (mkImage 0 10 10) eq_refl).
Defined.

(** [clearImageCache], and with it [cleanup], releases every cached image
    once, in cache order, and leaves an empty cache with the same limit;
    clearing again releases nothing more. *)
Theorem clearImageCache_releases_all (s : t) :
  imageCache (clearImageCache s) = [] /\
  released (clearImageCache s) =
    (released s ++ map (fun e : string * entry => image (snd e)) (imageCache s))%list /\
  maxCacheSize (clearImageCache s) = maxCacheSize s /\
  clearImageCache (clearImageCache s) = clearImageCache s /\
  cleanup s = clearImageCache s.
Proof.
  rewrite !clearImageCache_state. cbn. repeat split.
  now rewrite app_nil_r.
Qed.

End Images.

(** ** The effort of the retry wrapper *)

Section RetryEffort.
Import App.
Context {A : Type}.
Variable operation : nat -> outcome A.
Variable conn : nat -> bool.
Variable random : nat -> Q.
Variable maxRetries : nat.
Variable baseDelay : Q.
Variable operationName : string.

Local Abbreviation run :=
  (loop operation conn random maxRetries baseDelay operationName).

Local Abbreviation invocations := (fun evs => List.length (filter is_invoke evs)).
Local Abbreviation waits := (fun evs => List.length (filter is_wait evs)).

Lemma try_attempt_shape k :
  let evs := snd (try_attempt operation conn k) in
  (invocations evs <= 1)%nat /\ waits evs = 0%nat /\
  (exists pre ev, evs = (pre ++ [ev])%list /\ is_wait ev = false) /\
  (forall j, In (Invoke j) evs -> j = k).
Proof.
  unfold try_attempt.
  destruct (1 <? k)%nat.
  - destruct (conn k); cbn [negb].
    + destruct (operation k); cbn; repeat split; try lia.
      * now exists [CheckConnectivity k true; Invoke k], (RetrySucceeded k).
      * intros j [H|[H|[H|[]]]]; congruence.
      * now exists [CheckConnectivity k true], (Invoke k).
      * intros j [H|[H|[]]]; congruence.
    + cbn. repeat split; try lia.
      * now exists [], (CheckConnectivity k false).
      * intros j [H|[]]; congruence.
  - destruct (operation k); cbn; repeat split; try lia.
    + now exists [], (Invoke k).
    + intros j [H|[]]; congruence.
    + now exists [], (Invoke k).
    + intros j [H|[]]; congruence.
Qed.

Lemma filter_length_app {B : Type} (f : B -> bool) (l k : list B) :
  List.length (filter f (l ++ k))
  = (List.length (filter f l) + List.length (filter f k))%nat.
Proof. now rewrite filter_app, length_app. Qed.

Lemma loop_effort rem : forall a last,
  (a + rem = S maxRetries)%nat ->
  let evs := snd (run rem a last) in
  (invocations evs <= rem)%nat /\ (waits evs <= rem - 1)%nat /\
  ((1 <= rem)%nat ->
   exists pre ev, evs = (pre ++ [ev])%list /\ is_wait ev = false) /\
  (forall j, In (Invoke j) evs -> (a <= j <= maxRetries)%nat) /\
  (forall j d, In (Wait j d) evs ->
     (a <= j < maxRetries)%nat /\ d = backoff random baseDelay j).
Proof.
  induction rem as [|rem IH]; intros a last Hsum; cbv zeta.
  - cbn. repeat split; try lia; try contradiction.
  - cbn [loop].
    destruct (try_attempt_shape a) as (S1 & S2 & (pre & ev & S3 & S4) & S5).
    cbv zeta in S1, S2, S3, S5.
    assert (Hnowait : forall j d,
               ~ In (Wait j d) (snd (try_attempt operation conn a))).
    { intros j d Hin.
      assert (Hf : In (Wait j d)
                     (filter is_wait (snd (try_attempt operation conn a))))
        by (apply filter_In; now split).
      destruct (filter is_wait (snd (try_attempt operation conn a)));
        [destruct Hf|discriminate]. }
    destruct (try_attempt operation conn a) as [[v|e] evs]; cbn [snd] in *.
    + repeat split; try lia.
      * intros _. now exists pre, ev.
      * apply S5 in H. lia.
      * apply S5 in H. lia.
      * exfalso. exact (Hnowait _ _ H).
      * exfalso. exact (Hnowait _ _ H).
      * exfalso. exact (Hnowait _ _ H).
    + destruct (Nat.eqb_spec a maxRetries) as [Ea|Ea]; cbn [snd].
      * repeat split; try lia.
        -- intros _. now exists pre, ev.
        -- apply S5 in H. lia.
        -- apply S5 in H. lia.
        -- exfalso. exact (Hnowait _ _ H).
        -- exfalso. exact (Hnowait _ _ H).
        -- exfalso. exact (Hnowait _ _ H).
      * specialize (IH (S a) (Some e) ltac:(lia)). cbv zeta in IH.
        destruct (run rem (S a) (Some e)) as [r rest]; cbn [snd] in *.
        destruct IH as (I1 & I2 & I3 & I4 & I5).
        assert (Hrem : (1 <= rem)%nat) by lia.
        split; [|split; [|split; [|split]]].
        -- rewrite filter_length_app. cbn [filter is_invoke]. lia.
        -- rewrite filter_length_app. cbn [filter is_wait List.length]. lia.
        -- intros _. destruct (I3 Hrem) as (pre' & ev' & -> & Hw).
           exists (evs ++ Wait a (backoff random baseDelay a) :: pre')%list, ev'.
           split; [|exact Hw]. now rewrite <- app_assoc.
        -- intros j Hin. apply in_app_or in Hin.
           destruct Hin as [Hin|[Hin|Hin]]; [| discriminate |].
           ++ apply S5 in Hin. lia.
           ++ apply I4 in Hin. lia.
        -- intros j d Hin. apply in_app_or in Hin.
           destruct Hin as [Hin|[Hin|Hin]].
           ++ exfalso. exact (Hnowait _ _ Hin).
           ++ injection Hin as <- <-. split; [lia|reflexivity].
           ++ apply I5 in Hin. split; [lia|tauto].
Qed.


End RetryEffort.

